(** * Passface: deterministic signing identity

    A shallow embedding of the cryptographic core of the Passface
    application (TypeScript) and a verification of its specification:

    - [KeyDerivation]  (src/lib/crypto/keyDerivation.ts)
    - [MessageSigner]  (src/lib/crypto/signing.ts)
    - [Encryption]     (src/lib/crypto/encryption.ts)
    - [KeyStorage]     (src/lib/storage/keyStorage.ts)

    The application code is embedded function by function.  What it
    imports from npm packages and from the browser (SHA-256, HKDF,
    secp256k1 ECDSA, AES-GCM, IndexedDB, the random source, the clock)
    is an interface, [CryptoLib] and [World]; the theorems hold for every
    implementation of it, under the stated contract of the primitive at
    the point of use.  Reference implementations of the primitives
    (FIPS 180-4, RFC 2104, RFC 5869, RFC 6979, SEC 2, FIPS 197,
    NIST SP 800-38D) instantiate the interface, so that every statement
    is also evaluated on concrete inputs. *)

From Stdlib Require Import ZArith NArith Lia List Bool.
From Stdlib Require Import Strings.String Strings.Ascii Strings.Byte.
From stdpp Require Import base tactics option list gmap.
From Bignums Require Import BigZ.BigZ.

Set Default Proof Using "Type".

(* ================================================================== *)
(** * 1. The JavaScript values the code manipulates                     *)
(* ================================================================== *)

(** A [Uint8Array] is a list of bytes. *)
Definition bytes : Type := list byte.

Definition byte_to_Z (b : byte) : Z := Z.of_N (Byte.to_N b).

(** Storing a number into a [Uint8Array] element keeps it modulo 256. *)
Definition byte_of_Z (z : Z) : byte :=
  match Byte.of_N (Z.to_N (z mod 256)) with
  | Some b => b
  | None => x00
  end.

(** A JavaScript string is a sequence of UTF-16 code units. *)
Definition code_unit : Type := N.
Definition jsstring : Type := list code_unit.

(** String literals of the source, written as Rocq strings. *)
Definition str (s : string) : jsstring :=
  map N_of_ascii (list_ascii_of_string s).

(** Exceptions: the error classes the code and its platform raise. *)
Inductive Exn : Type :=
| SyntaxError
| RangeError
| TypeError
| DOMException (name : string)
| Error (msg : string).

(** The completion of an expression: a value, or a thrown exception. *)
Inductive Result (A : Type) : Type :=
| Ok (a : A)
| Throw (e : Exn).
Arguments Ok {A} a.
Arguments Throw {A} e.

Definition bindR {A B} (r : Result A) (k : A -> Result B) : Result B :=
  match r with
  | Ok a => k a
  | Throw e => Throw e
  end.

(** ** Integers and their digits *)

(** [bytesToNumberBE]: the big-endian value of a byte string. *)
Definition bytesToNumberBE (bs : bytes) : Z :=
  fold_left (fun acc b => (acc * 256 + byte_to_Z b)%Z) bs 0%Z.

(** [numberToBytesBE n len]: the [len] low-order bytes of [n], most
    significant first. *)
Fixpoint numberToBytesBE (n : Z) (len : nat) : bytes :=
  match len with
  | O => []
  | S k => byte_of_Z (n / 256 ^ Z.of_nat k) :: numberToBytesBE n k
  end.

(** The digits of a non-negative integer in base [base], least
    significant first, without leading zeros ([0] has the digit 0).
    [fuel] bounds the number of digits. *)
Fixpoint digits_le (base : Z) (fuel : nat) (n : Z) : list Z :=
  match fuel with
  | O => []
  | S f =>
      if (n <? base)%Z then [n]
      else (n mod base)%Z :: digits_le base f (n / base)%Z
  end.

(** A bound on the number of digits of [n]: its number of bits. *)
Definition digit_fuel (n : Z) : nat := S (Z.to_nat (Z.log2 n)).

(** The character of a digit: 0-9, then lowercase a-z. *)
Definition digit_char (d : Z) : code_unit :=
  if (d <? 10)%Z then (48 + Z.to_N d)%N else (87 + Z.to_N d)%N.

(** [n.toString(radix)] for an integer [n] (a Number holding an integer,
    or a BigInt) and radix 10 or 16. *)
Definition toString (radix : Z) (n : Z) : jsstring :=
  let mag := Z.abs n in
  let ds := map digit_char (rev (digits_le radix (digit_fuel mag) mag)) in
  if (n <? 0)%Z then 45%N :: ds else ds.

(** [s.padStart(len, c)] for a one-character filler. *)
Definition padStart (len : nat) (c : code_unit) (s : jsstring) : jsstring :=
  repeat c (len - length s) ++ s.

(** [s.slice(a, b)] and [s.slice(a)] for non-negative indices. *)
Definition slice {A} (a b : nat) (s : list A) : list A :=
  take (b - a) (drop a s).
Definition slice_from {A} (a : nat) (s : list A) : list A := drop a s.

(** [arr.slice(-k)]: the last [k] elements. *)
Definition slice_last {A} (k : nat) (s : list A) : list A :=
  drop (length s - k) s.

(** [s.startsWith(p)]. *)
Fixpoint startsWith (p s : jsstring) : bool :=
  match p, s with
  | [], _ => true
  | c :: p', d :: s' => (c =? d)%N && startsWith p' s'
  | _ :: _, [] => false
  end.

(** The value of a hexadecimal digit character, in either case. *)
Definition hex_value (c : code_unit) : option Z :=
  if ((48 <=? c) && (c <=? 57))%N then Some (Z.of_N c - 48)%Z
  else if ((97 <=? c) && (c <=? 102))%N then Some (Z.of_N c - 87)%Z
  else if ((65 <=? c) && (c <=? 70))%N then Some (Z.of_N c - 55)%Z
  else None.

(** The value of a digit string, most significant digit first; [None]
    when a character is not a hexadecimal digit. *)
Fixpoint hex_digits_value (acc : Z) (s : jsstring) : option Z :=
  match s with
  | [] => Some acc
  | c :: s' =>
      match hex_value c with
      | Some d => hex_digits_value (acc * 16 + d)%Z s'
      | None => None
      end
  end.

(** ECMAScript [StrWhiteSpaceChar]: white space and line terminators. *)
Definition is_js_whitespace (c : code_unit) : bool :=
  ((c =? 9) || (c =? 10) || (c =? 11) || (c =? 12) || (c =? 13) || (c =? 32)
   || (c =? 160) || (c =? 5760) || ((8192 <=? c) && (c <=? 8202))
   || (c =? 8232) || (c =? 8233) || (c =? 8239) || (c =? 8287)
   || (c =? 12288) || (c =? 65279))%N.

Fixpoint trim_start (s : jsstring) : jsstring :=
  match s with
  | c :: s' => if is_js_whitespace c then trim_start s' else s
  | [] => []
  end.

Definition trim_end (s : jsstring) : jsstring := rev (trim_start (rev s)).

(** [BigInt('0x' + s)].  The argument of [BigInt] always starts with
    [0x] here, so of the grammar of [StringToBigInt] only the
    hexadecimal literal is reachable: surrounding white space is
    trimmed (only trailing white space can occur), then at least one
    hexadecimal digit must follow the prefix and nothing else;
    anything else is a [SyntaxError]. *)
Definition BigInt_0x (s : jsstring) : Result Z :=
  match trim_end s with
  | [] => Throw SyntaxError
  | ds =>
      match hex_digits_value 0 ds with
      | Some z => Ok z
      | None => Throw SyntaxError
      end
  end.

(** [parseInt(s, 16)]: skip leading white space, an optional sign and
    an optional [0x] prefix, then read the longest run of hexadecimal
    digits; [None] is [NaN] (no digit). *)
Fixpoint hex_run (acc : Z) (seen : bool) (s : jsstring) : option Z :=
  match s with
  | [] => if seen then Some acc else None
  | c :: s' =>
      match hex_value c with
      | Some d => hex_run (acc * 16 + d)%Z true s'
      | None => if seen then Some acc else None
      end
  end.

Definition strip_0x (s : jsstring) : jsstring :=
  match s with
  | 48%N :: x :: s' => if ((x =? 120) || (x =? 88))%N then s' else s
  | _ => s
  end.

Definition parseInt16 (s : jsstring) : option Z :=
  match trim_start s with
  | 45%N :: s' => option_map Z.opp (hex_run 0 false (strip_0x s'))
  | 43%N :: s' => hex_run 0 false (strip_0x s')
  | s' => hex_run 0 false (strip_0x s')
  end.

(** A JavaScript Number that holds an integer, or [NaN]. *)
Inductive jsnumber : Type :=
| Int (z : Z)
| NaN.

Definition number_toString (radix : Z) (x : jsnumber) : jsstring :=
  match x with
  | Int z => toString radix z
  | NaN => str "NaN"
  end.

(** ** [TextEncoder.encode]: UTF-8 *)

Definition utf8_code_point (cp : Z) : bytes :=
  if (cp <? 128)%Z then [byte_of_Z cp]
  else if (cp <? 2048)%Z then
    [byte_of_Z (192 + cp / 64); byte_of_Z (128 + cp mod 64)]
  else if (cp <? 65536)%Z then
    [byte_of_Z (224 + cp / 4096); byte_of_Z (128 + (cp / 64) mod 64);
     byte_of_Z (128 + cp mod 64)]
  else
    [byte_of_Z (240 + cp / 262144); byte_of_Z (128 + (cp / 4096) mod 64);
     byte_of_Z (128 + (cp / 64) mod 64); byte_of_Z (128 + cp mod 64)].

Definition is_high_surrogate (c : code_unit) : bool :=
  ((55296 <=? c) && (c <=? 56319))%N.
Definition is_low_surrogate (c : code_unit) : bool :=
  ((56320 <=? c) && (c <=? 57343))%N.

(** A surrogate pair is one code point; a lone surrogate is replaced by
    U+FFFD. *)
Fixpoint TextEncoder_encode (s : jsstring) : bytes :=
  match s with
  | [] => []
  | c :: rest =>
      if is_high_surrogate c then
        match rest with
        | d :: rest' =>
            if is_low_surrogate d then
              utf8_code_point
                (65536 + (Z.of_N c - 55296) * 1024 + (Z.of_N d - 56320))
                ++ TextEncoder_encode rest'
            else utf8_code_point 65533 ++ TextEncoder_encode rest
        | [] => utf8_code_point 65533
        end
      else if is_low_surrogate c then
        utf8_code_point 65533 ++ TextEncoder_encode rest
      else utf8_code_point (Z.of_N c) ++ TextEncoder_encode rest
  end.

(** ** [btoa] and [atob]: base64 (RFC 4648, WHATWG forgiving decode) *)

Definition base64_char (x : Z) : code_unit :=
  if (x <? 26)%Z then (65 + Z.to_N x)%N
  else if (x <? 52)%Z then (97 + Z.to_N (x - 26))%N
  else if (x <? 62)%Z then (48 + Z.to_N (x - 52))%N
  else if (x =? 62)%Z then 43%N
  else 47%N.

Definition base64_value (c : code_unit) : option Z :=
  if ((65 <=? c) && (c <=? 90))%N then Some (Z.of_N c - 65)%Z
  else if ((97 <=? c) && (c <=? 122))%N then Some (Z.of_N c - 71)%Z
  else if ((48 <=? c) && (c <=? 57))%N then Some (Z.of_N c + 4)%Z
  else if (c =? 43)%N then Some 62%Z
  else if (c =? 47)%N then Some 63%Z
  else None.

(** The 6-bit groups of a byte string, without padding. *)
Fixpoint sextets_of_bytes (bs : list Z) : list Z :=
  match bs with
  | a :: b :: c :: rest =>
      (a / 4)%Z :: ((a mod 4) * 16 + b / 16)%Z
      :: ((b mod 16) * 4 + c / 64)%Z :: (c mod 64)%Z :: sextets_of_bytes rest
  | [a; b] => [(a / 4)%Z; ((a mod 4) * 16 + b / 16)%Z; ((b mod 16) * 4)%Z]
  | [a] => [(a / 4)%Z; ((a mod 4) * 16)%Z]
  | [] => []
  end.

(** The bytes of a sequence of 6-bit groups; a trailing group of two or
    three sextets carries one or two bytes, its last bits are dropped. *)
Fixpoint bytes_of_sextets (ss : list Z) : list Z :=
  match ss with
  | a :: b :: c :: d :: rest =>
      (a * 4 + b / 16)%Z :: ((b mod 16) * 16 + c / 4)%Z
      :: ((c mod 4) * 64 + d)%Z :: bytes_of_sextets rest
  | [a; b; c] => [(a * 4 + b / 16)%Z; ((b mod 16) * 16 + c / 4)%Z]
  | [a; b] => [(a * 4 + b / 16)%Z]
  | _ => []
  end.

Definition base64_padding (n : nat) : jsstring :=
  match n mod 3 with
  | 1 => [61%N; 61%N]
  | 2 => [61%N]
  | _ => []
  end.

(** [btoa(s)]: every code unit must be a byte. *)
Definition btoa (s : jsstring) : Result jsstring :=
  if forallb (fun c => (c <=? 255)%N) s then
    Ok (map base64_char (sextets_of_bytes (map Z.of_N s))
          ++ base64_padding (length s))
  else Throw (DOMException "InvalidCharacterError").

Definition is_ascii_whitespace (c : code_unit) : bool :=
  ((c =? 9) || (c =? 10) || (c =? 12) || (c =? 13) || (c =? 32))%N.

(** Remove one or two trailing [=] of a string whose length is a
    multiple of 4. *)
Definition strip_padding (s : jsstring) : jsstring :=
  if (length s mod 4 =? 0)%nat then
    match rev s with
    | a :: r =>
        if (a =? 61)%N then
          match r with
          | b :: r' => if (b =? 61)%N then rev r' else rev r
          | [] => rev r
          end
        else s
    | [] => s
    end
  else s.

Fixpoint base64_values (s : jsstring) : option (list Z) :=
  match s with
  | [] => Some []
  | c :: s' =>
      match base64_value c, base64_values s' with
      | Some v, Some vs => Some (v :: vs)
      | _, _ => None
      end
  end.

(** [atob(s)]. *)
Definition atob (s : jsstring) : Result jsstring :=
  let data := strip_padding (List.filter (fun c => negb (is_ascii_whitespace c)) s) in
  if (length data mod 4 =? 1)%nat then Throw (DOMException "InvalidCharacterError")
  else
    match base64_values data with
    | Some vs => Ok (map Z.to_N (bytes_of_sextets vs))
    | None => Throw (DOMException "InvalidCharacterError")
    end.

(** [String.fromCharCode(...bytes)] *)
Definition String_fromCharCode (bs : bytes) : jsstring := map Byte.to_N bs.

(** [new Uint8Array(n)] filled by [bytes[i] = s.charCodeAt(i)]. *)
Definition charCodes_to_bytes (s : jsstring) : bytes :=
  map (fun c => byte_of_Z (Z.of_N c)) s.

(* ================================================================== *)
(** * 2. The environment: random source, clock, IndexedDB, console      *)
(* ================================================================== *)

(** [interface SigningKeyRecord] of keyStorage.ts; the binary fields are
    base64 text. *)
Record KeyMetadata : Type := {
  meta_userId : jsstring;
  meta_credentialId : jsstring
}.

Record SigningKeyRecord : Type := {
  rec_id : jsstring;
  rec_encryptedKey : jsstring;
  rec_iv : jsstring;
  rec_salt : jsstring;
  rec_timestamp : Z;
  rec_metadata : option KeyMetadata
}.

(** Everything outside the program that an operation can read or change:
    the bytes [crypto.getRandomValues] will deliver next, the value of
    [Date.now()], whether the IndexedDB database can be opened, the
    object store [signing-keys] (key path [id]), and what has been
    written with [console.error]. *)
Record World : Type := {
  random_source : nat -> byte;
  clock : Z;
  idb_available : bool;
  signing_keys : gmap jsstring SigningKeyRecord;
  console : list (jsstring * Exn)
}.

(** An operation runs in a world, completes with a value or an exception
    and leaves a world. *)
Definition M (A : Type) : Type := World -> Result A * World.

Definition ret {A} (a : A) : M A := fun w => (Ok a, w).
Definition throw {A} (e : Exn) : M A := fun w => (Throw e, w).
Definition liftR {A} (r : Result A) : M A := fun w => (r, w).

Definition bind {A B} (m : M A) (k : A -> M B) : M B :=
  fun w =>
    match m w with
    | (Ok a, w') => k a w'
    | (Throw e, w') => (Throw e, w')
    end.

(** [try { m } catch (error) { h error }]: what [m] did to the world
    before it threw stays done. *)
Definition try_catch {A} (m : M A) (h : Exn -> M A) : M A :=
  fun w =>
    match m w with
    | (Ok a, w') => (Ok a, w')
    | (Throw e, w') => h e w'
    end.

Declare Scope js_scope.
Delimit Scope js_scope with js.
Notation "x <- m ;; k" := (bind m (fun x => k))
  (at level 100, m at next level, right associativity) : js_scope.
Notation "m ;;; k" := (bind m (fun _ => k))
  (at level 100, right associativity) : js_scope.
Notation "x <-? r ;; k" := (bindR r (fun x => k))
  (at level 100, r at next level, right associativity) : js_scope.
Open Scope js_scope.

(** [crypto.getRandomValues(new Uint8Array(n))] *)
Definition getRandomValues (n : nat) : M bytes :=
  fun w =>
    (Ok (map (random_source w) (seq 0 n)),
     {| random_source := fun i => random_source w (n + i);
        clock := clock w;
        idb_available := idb_available w;
        signing_keys := signing_keys w;
        console := console w |}).

(** [Date.now()] *)
Definition Date_now : M Z := fun w => (Ok (clock w), w).

(** [console.error(label, error)] *)
Definition console_error (label : jsstring) (e : Exn) : M unit :=
  fun w =>
    (Ok tt,
     {| random_source := random_source w;
        clock := clock w;
        idb_available := idb_available w;
        signing_keys := signing_keys w;
        console := console w ++ [(label, e)] |}).

(** ** IndexedDB through the [idb] wrapper *)

Definition with_signing_keys (f : gmap jsstring SigningKeyRecord ->
                                  gmap jsstring SigningKeyRecord)
    (w : World) : World :=
  {| random_source := random_source w;
     clock := clock w;
     idb_available := idb_available w;
     signing_keys := f (signing_keys w);
     console := console w |}.

(** [openDB(name, version, {upgrade})]: the two object stores are
    created on first use; opening fails when storage is unavailable. *)
Definition openDB : M unit :=
  fun w =>
    if idb_available w then (Ok tt, w)
    else (Throw (DOMException "UnknownError"), w).

(** [db.put('signing-keys', record)]: insert or overwrite at the key
    path. *)
Definition db_put (record : SigningKeyRecord) : M unit :=
  fun w => (Ok tt, with_signing_keys (insert (rec_id record) record) w).

(** [db.get('signing-keys', key)]: [None] is [undefined]. *)
Definition db_get (key : jsstring) : M (option SigningKeyRecord) :=
  fun w => (Ok (signing_keys w !! key), w).

(** [db.delete('signing-keys', key)] *)
Definition db_delete (key : jsstring) : M unit :=
  fun w => (Ok tt, with_signing_keys (delete key) w).

(** [db.clear('signing-keys')] *)
Definition db_clear : M unit :=
  fun w => (Ok tt, with_signing_keys (fun _ => ∅) w).

(* ================================================================== *)
(** * 3. The cryptographic libraries                                    *)
(* ================================================================== *)

(** The primitives the code imports: [sha256] and [hkdf] of
    [@noble/hashes], the curve operations behind [@noble/secp256k1], and
    AES-GCM of the Web Crypto API.

    - [hkdf hash ikm salt info length]: [salt] may be [undefined];
    - [secp_getPublicKey sk compressed];
    - [secp_sign digest sk lowS extraEntropy]: a recoverable signature,
      recovery byte first, then [r] and [s] (65 bytes);
    - [secp_verify sig digest pk lowS] on a compact signature (64 bytes);
    - [secp_recover sig digest] on a recoverable signature;
    - [aes_gcm_encrypt key iv data], [aes_gcm_decrypt key iv data] with
      the 128-bit tag appended to the ciphertext. *)
Record CryptoLib : Type := {
  sha256 : bytes -> bytes;
  hkdf : (bytes -> bytes) -> bytes -> option bytes -> bytes -> nat -> bytes;
  secp_getPublicKey : bytes -> bool -> Result bytes;
  secp_sign : bytes -> bytes -> bool -> option bytes -> Result bytes;
  secp_verify : bytes -> bytes -> bytes -> bool -> Result bool;
  secp_recover : bytes -> bytes -> Result bytes;
  aes_gcm_encrypt : bytes -> bytes -> bytes -> Result bytes;
  aes_gcm_decrypt : bytes -> bytes -> bytes -> Result bytes
}.

(** ** The API of [@noble/secp256k1] around the primitives *)

(** The order of the secp256k1 group. *)
Definition curve_order : Z :=
  0xFFFFFFFFFFFFFFFFFFFFFFFFFFFFFFFEBAAEDCE6AF48A03BBFD25E8CD0364141%Z.

(** [secp256k1.utils.isValidSecretKey]: 32 bytes whose big-endian value
    lies in [[1, n-1]]. *)
Definition isValidSecretKey (key : bytes) : bool :=
  (length key =? 32)%nat
  && (1 <=? bytesToNumberBE key)%Z && (bytesToNumberBE key <? curve_order)%Z.

(** [class Signature]: [r], [s] and an optional recovery id. *)
Record Signature : Type := {
  sig_r : Z;
  sig_s : Z;
  sig_recovery : option jsnumber
}.

Inductive SigFormat : Type := Compact | Recovered.

Definition valid_scalar (x : Z) : bool :=
  ((1 <=? x) && (x <? curve_order))%Z.

(** [new Signature(r, s, recovery)] checks [1 <= r, s < n]. *)
Definition Signature_new (r s : Z) (rec : option jsnumber) : Result Signature :=
  if valid_scalar r && valid_scalar s then
    Ok {| sig_r := r; sig_s := s; sig_recovery := rec |}
  else Throw (Error "invalid signature").

(** [Signature.fromBytes(b, format)] *)
Definition Signature_fromBytes (b : bytes) (format : SigFormat) : Result Signature :=
  match format with
  | Compact =>
      if (length b =? 64)%nat then
        Signature_new (bytesToNumberBE (slice 0 32 b))
                      (bytesToNumberBE (slice 32 64 b)) None
      else Throw (Error "invalid signature length")
  | Recovered =>
      match b with
      | rec :: b' =>
          if (length b' =? 64)%nat then
            Signature_new (bytesToNumberBE (slice 0 32 b'))
                          (bytesToNumberBE (slice 32 64 b'))
                          (Some (Int (byte_to_Z rec)))
          else Throw (Error "invalid signature length")
      | [] => Throw (Error "invalid signature length")
      end
  end.

(** [sig.toBytes(format)] *)
Definition Signature_toBytes (sig : Signature) (format : SigFormat) : Result bytes :=
  let res := numberToBytesBE (sig_r sig) 32 ++ numberToBytesBE (sig_s sig) 32 in
  match format with
  | Compact => Ok res
  | Recovered =>
      match sig_recovery sig with
      | Some (Int v) =>
          if ((0 <=? v) && (v <=? 3))%Z then Ok (byte_of_Z v :: res)
          else Throw (Error "invalid recovery id")
      | _ => Throw (Error "invalid recovery id")
      end
  end.

(** The options of [signAsync], [verifyAsync] and
    [recoverPublicKeyAsync]; [None] is an option left out, which takes
    the library's default ([prehash: true], [lowS: true],
    [format: 'compact'], [extraEntropy: false]). *)
Record SigOpts : Type := {
  opt_prehash : option bool;
  opt_lowS : option bool;
  opt_format : option SigFormat;
  opt_extraEntropy : option bool
}.

Definition prepMsg (L : CryptoLib) (opts : SigOpts) (msg : bytes) : bytes :=
  if default true (opt_prehash opts) then sha256 L msg else msg.

(** [signAsync(message, secretKey, opts)]: the only operation of the
    library that can read the random source, and only when
    [extraEntropy] is requested. *)
Definition signAsync (L : CryptoLib) (message secretKey : bytes)
    (opts : SigOpts) : M bytes :=
  let digest := prepMsg L opts message in
  let lowS := default true (opt_lowS opts) in
  sb <- (if default false (opt_extraEntropy opts)
         then (e <- getRandomValues 32 ;;
               liftR (secp_sign L digest secretKey lowS (Some e)))
         else liftR (secp_sign L digest secretKey lowS None)) ;;
  match default Compact (opt_format opts) with
  | Recovered => ret sb
  | Compact => ret (slice_from 1 sb)
  end.

(** [verifyAsync(signature, message, publicKey, opts)] *)
Definition verifyAsync (L : CryptoLib) (signature message publicKey : bytes)
    (opts : SigOpts) : M bool :=
  liftR (secp_verify L signature (prepMsg L opts message) publicKey
           (default true (opt_lowS opts))).

(** [recoverPublicKeyAsync(signature, message, opts)] *)
Definition recoverPublicKeyAsync (L : CryptoLib) (signature message : bytes)
    (opts : SigOpts) : M bytes :=
  liftR (secp_recover L signature (prepMsg L opts message)).

(** ** [crypto.subtle] for AES-GCM *)

Inductive KeyUsage : Type := UsageEncrypt | UsageDecrypt.

Record CryptoKey : Type := {
  key_data : bytes;
  key_usages : list KeyUsage
}.

Definition has_usage (u : KeyUsage) (k : CryptoKey) : bool :=
  existsb (fun v => match u, v with
                    | UsageEncrypt, UsageEncrypt => true
                    | UsageDecrypt, UsageDecrypt => true
                    | _, _ => false
                    end) (key_usages k).

(** [crypto.subtle.importKey('raw', data, {name: 'AES-GCM'}, false,
    usages)]: the key must have 128, 192 or 256 bits. *)
Definition subtle_importKey (data : bytes) (usages : list KeyUsage) : M CryptoKey :=
  if ((length data =? 16) || (length data =? 24) || (length data =? 32))%nat
  then ret {| key_data := data; key_usages := usages |}
  else throw (DOMException "DataError").

(** [crypto.subtle.encrypt({name: 'AES-GCM', iv}, key, data)] *)
Definition subtle_encrypt (L : CryptoLib) (iv : bytes) (key : CryptoKey)
    (data : bytes) : M bytes :=
  if has_usage UsageEncrypt key
  then liftR (aes_gcm_encrypt L (key_data key) iv data)
  else throw (DOMException "InvalidAccessError").

(** [crypto.subtle.decrypt({name: 'AES-GCM', iv}, key, data)]: an
    [OperationError] when the tag does not verify. *)
Definition subtle_decrypt (L : CryptoLib) (iv : bytes) (key : CryptoKey)
    (data : bytes) : M bytes :=
  if has_usage UsageDecrypt key
  then liftR (aes_gcm_decrypt L (key_data key) iv data)
  else throw (DOMException "InvalidAccessError").

(** [target.set(source, offset)] on a [Uint8Array]: a [RangeError] when
    the source does not fit. *)
Definition Uint8Array_set (target source : bytes) (offset : nat) : Result bytes :=
  if (offset + length source <=? length target)%nat then
    Ok (take offset target ++ source
          ++ drop (offset + length source) target)
  else Throw RangeError.

(** [new Uint8Array(n)]: [n] zero bytes. *)
Definition Uint8Array_new (n : nat) : bytes := repeat x00 n.

(* ================================================================== *)
(** * 4. The application code                                           *)
(* ================================================================== *)

(** ** keyDerivation.ts *)
Module KeyDerivation.

(** [ensureValidPrivateKey]: [while (!isValidSecretKey(key)) key =
    sha256(key)].  [fuel] is the number of times the loop condition may
    be evaluated; [None] means the loop is still running after that. *)
Fixpoint ensureValidPrivateKey (L : CryptoLib) (fuel : nat) (key : bytes)
    : option bytes :=
  match fuel with
  | O => None
  | S fuel' =>
      if isValidSecretKey key then Some key
      else ensureValidPrivateKey L fuel' (sha256 L key)
  end.

Definition deriveSigningKey (L : CryptoLib) (fuel : nat)
    (credentialId userId : jsstring) (salt : option bytes) : option bytes :=
  let info := TextEncoder_encode (str "passface-signing-key-v1") in
  let ikm := TextEncoder_encode (credentialId ++ userId) in
  let derivedKey := hkdf L (sha256 L) ikm salt info 32 in
  ensureValidPrivateKey L fuel derivedKey.

Definition getPublicKey (L : CryptoLib) (privateKey : bytes) : Result bytes :=
  secp_getPublicKey L privateKey true.

Definition getEthereumAddress (L : CryptoLib) (privateKey : bytes)
    : Result jsstring :=
  publicKey <-? secp_getPublicKey L privateKey false ;;
  let publicKeyWithoutPrefix := slice_from 1 publicKey in
  let hash := sha256 L publicKeyWithoutPrefix in
  let address :=
    concat (map (fun b => padStart 2 48%N (toString 16 (byte_to_Z b)))
                (slice_last 20 hash)) in
  Ok (str "0x" ++ address).

End KeyDerivation.

(** ** signing.ts *)
Module MessageSigner.

(** [message: string | Uint8Array] *)
Inductive Message : Type :=
| MsgString (s : jsstring)
| MsgBytes (b : bytes).

Definition messageBytes (message : Message) : bytes :=
  match message with
  | MsgString s => TextEncoder_encode s
  | MsgBytes b => b
  end.

(** ['\x19Ethereum Signed Message:\n'] *)
Definition prefix : jsstring :=
  25%N :: str "Ethereum Signed Message:" ++ [10%N].

Definition prefixMessage (message : bytes) : Result bytes :=
  let prefixBytes := TextEncoder_encode prefix in
  let lengthBytes :=
    TextEncoder_encode (toString 10 (Z.of_nat (length message))) in
  let result :=
    Uint8Array_new (length prefixBytes + length lengthBytes + length message) in
  result <-? Uint8Array_set result prefixBytes 0 ;;
  result <-? Uint8Array_set result lengthBytes (length prefixBytes) ;;
  result <-? Uint8Array_set result message
               (length prefixBytes + length lengthBytes) ;;
  Ok result.

Definition formatSignature (sig : Signature) : jsstring :=
  let r := padStart 64 48%N (toString 16 (sig_r sig)) in
  let s := padStart 64 48%N (toString 16 (sig_s sig)) in
  let v :=
    match (match sig_recovery sig with Some x => x | None => Int 0 end) with
    | Int z => Int (z + 27)
    | NaN => NaN
    end in
  let vHex := padStart 2 48%N (number_toString 16 v) in
  str "0x" ++ r ++ s ++ vHex.

(** The options the code passes to the library. *)
Definition sign_opts : SigOpts :=
  {| opt_prehash := Some false; opt_lowS := None;
     opt_format := Some Recovered; opt_extraEntropy := None |}.
Definition verify_opts : SigOpts :=
  {| opt_prehash := Some false; opt_lowS := None;
     opt_format := None; opt_extraEntropy := None |}.

Definition signMessage (L : CryptoLib) (message : Message) (privateKey : bytes)
    : M jsstring :=
  let messageBytes := messageBytes message in
  prefixedMessage <- liftR (prefixMessage messageBytes) ;;
  let messageHash := sha256 L prefixedMessage in
  signatureBytes <- signAsync L messageHash privateKey sign_opts ;;
  signature <- liftR (Signature_fromBytes signatureBytes Recovered) ;;
  ret (formatSignature signature).

Definition verifySignature (L : CryptoLib) (message : Message)
    (signature : jsstring) (publicKey : bytes) : M bool :=
  try_catch
    (let messageBytes := messageBytes message in
     prefixedMessage <- liftR (prefixMessage messageBytes) ;;
     let messageHash := sha256 L prefixedMessage in
     let sigHex :=
       if startsWith (str "0x") signature then slice_from 2 signature
       else signature in
     r <- liftR (BigInt_0x (slice 0 64 sigHex)) ;;
     s <- liftR (BigInt_0x (slice 64 128 sigHex)) ;;
     sig <- liftR (Signature_new r s None) ;;
     compactSig <- liftR (Signature_toBytes sig Compact) ;;
     verifyAsync L compactSig messageHash publicKey verify_opts)
    (fun error =>
       console_error (str "Signature verification failed:") error ;;;
       ret false).

Definition recoverPublicKey (L : CryptoLib) (message : Message)
    (signature : jsstring) : M bytes :=
  let messageBytes := messageBytes message in
  prefixedMessage <- liftR (prefixMessage messageBytes) ;;
  let messageHash := sha256 L prefixedMessage in
  let sigHex :=
    if startsWith (str "0x") signature then slice_from 2 signature
    else signature in
  r <- liftR (BigInt_0x (slice 0 64 sigHex)) ;;
  s <- liftR (BigInt_0x (slice 64 128 sigHex)) ;;
  let v := parseInt16 (slice 128 130 sigHex) in
  let recovery :=
    match v with
    | Some v => if (27 <=? v)%Z then Int (v - 27) else Int v
    | None => NaN
    end in
  sig <- liftR (Signature_new r s (Some recovery)) ;;
  recoveredSig <- liftR (Signature_toBytes sig Recovered) ;;
  recoverPublicKeyAsync L recoveredSig messageHash verify_opts.

End MessageSigner.

(** ** encryption.ts *)
Module Encryption.

Record EncryptResult : Type := {
  encryptedData : bytes;
  iv : bytes;
  salt : bytes
}.

Definition info : bytes :=
  TextEncoder_encode (str "passface-encryption-key-v1").

Definition encrypt (L : CryptoLib) (data : bytes) (password : jsstring)
    : M EncryptResult :=
  let dataStandard := data in
  salt <- getRandomValues 16 ;;
  iv <- getRandomValues 12 ;;
  let passwordBytes := TextEncoder_encode password in
  let derivedKey := hkdf L (sha256 L) passwordBytes (Some salt) info 32 in
  cryptoKey <- subtle_importKey derivedKey [UsageEncrypt] ;;
  encryptedBuffer <- subtle_encrypt L iv cryptoKey dataStandard ;;
  ret {| encryptedData := encryptedBuffer; iv := iv; salt := salt |}.

Definition decrypt (L : CryptoLib) (encryptedData iv salt : bytes)
    (password : jsstring) : M bytes :=
  let passwordBytes := TextEncoder_encode password in
  let derivedKey := hkdf L (sha256 L) passwordBytes (Some salt) info 32 in
  cryptoKey <- subtle_importKey derivedKey [UsageDecrypt] ;;
  decryptedBuffer <- subtle_decrypt L iv cryptoKey encryptedData ;;
  ret decryptedBuffer.

Definition bytesToBase64 (bs : bytes) : Result jsstring :=
  btoa (String_fromCharCode bs).

Definition base64ToBytes (base64 : jsstring) : Result bytes :=
  binaryString <-? atob base64 ;;
  Ok (charCodes_to_bytes binaryString).

Definition generatePassword (length : nat) : M jsstring :=
  randomBytes <- getRandomValues length ;;
  liftR (bytesToBase64 randomBytes).

End Encryption.

(** ** keyStorage.ts *)
Module KeyStorage.

Definition storeKey (L : CryptoLib) (credentialId : jsstring)
    (privateKey : bytes) (password : jsstring) (metadata : option KeyMetadata)
    : M unit :=
  try_catch
    (enc <- Encryption.encrypt L privateKey password ;;
     encryptedKey <- liftR (Encryption.bytesToBase64 (Encryption.encryptedData enc)) ;;
     iv <- liftR (Encryption.bytesToBase64 (Encryption.iv enc)) ;;
     salt <- liftR (Encryption.bytesToBase64 (Encryption.salt enc)) ;;
     timestamp <- Date_now ;;
     let record :=
       {| rec_id := credentialId; rec_encryptedKey := encryptedKey;
          rec_iv := iv; rec_salt := salt; rec_timestamp := timestamp;
          rec_metadata := metadata |} in
     openDB ;;;
     db_put record)
    (fun error =>
       console_error (str "Failed to store key:") error ;;;
       throw (Error "Failed to store signing key")).

(** [null] is [None]. *)
Definition retrieveKey (L : CryptoLib) (credentialId password : jsstring)
    : M (option bytes) :=
  try_catch
    (openDB ;;;
     record <- db_get credentialId ;;
     match record with
     | None => ret None
     | Some record =>
         encryptedData <- liftR (Encryption.base64ToBytes (rec_encryptedKey record)) ;;
         iv <- liftR (Encryption.base64ToBytes (rec_iv record)) ;;
         salt <- liftR (Encryption.base64ToBytes (rec_salt record)) ;;
         privateKey <- Encryption.decrypt L encryptedData iv salt password ;;
         ret (Some privateKey)
     end)
    (fun error =>
       console_error (str "Failed to retrieve key:") error ;;;
       ret None).

Definition hasKey (credentialId : jsstring) : M bool :=
  try_catch
    (openDB ;;;
     record <- db_get credentialId ;;
     ret (match record with Some _ => true | None => false end))
    (fun error =>
       console_error (str "Failed to check key existence:") error ;;;
       ret false).

Definition deleteKey (credentialId : jsstring) : M unit :=
  try_catch
    (openDB ;;; db_delete credentialId)
    (fun error =>
       console_error (str "Failed to delete key:") error ;;;
       throw (Error "Failed to delete signing key")).

Definition clearAllKeys : M unit :=
  try_catch
    (openDB ;;; db_clear)
    (fun error =>
       console_error (str "Failed to clear keys:") error ;;;
       throw (Error "Failed to clear all signing keys")).

End KeyStorage.

(* ================================================================== *)
(** * 5. Reference implementations of the primitives                    *)
(* ================================================================== *)

(** The packages the code imports are not part of the repository.  The
    definitions below follow the standards those packages implement, and
    serve to run the embedded code on concrete inputs. *)

(** ** SHA-256 (FIPS 180-4) *)
Module SHA256.
Local Open Scope Z_scope.

Definition mask32 (x : Z) : Z := Z.land x 0xFFFFFFFF.
Definition add32 (x y : Z) : Z := mask32 (x + y).
Definition rotr (n x : Z) : Z :=
  Z.lor (Z.shiftr x n) (mask32 (Z.shiftl x (32 - n))).
Definition Ch (x y z : Z) : Z :=
  Z.lxor (Z.land x y) (Z.land (Z.lxor x 0xFFFFFFFF) z).
Definition Maj (x y z : Z) : Z :=
  Z.lxor (Z.lxor (Z.land x y) (Z.land x z)) (Z.land y z).
Definition Sigma0 (x : Z) : Z := Z.lxor (Z.lxor (rotr 2 x) (rotr 13 x)) (rotr 22 x).
Definition Sigma1 (x : Z) : Z := Z.lxor (Z.lxor (rotr 6 x) (rotr 11 x)) (rotr 25 x).
Definition sigma0 (x : Z) : Z := Z.lxor (Z.lxor (rotr 7 x) (rotr 18 x)) (Z.shiftr x 3).
Definition sigma1 (x : Z) : Z := Z.lxor (Z.lxor (rotr 17 x) (rotr 19 x)) (Z.shiftr x 10).

(** The first 64 primes. *)
Definition primes : list Z :=
  [2; 3; 5; 7; 11; 13; 17; 19; 23; 29; 31; 37; 41; 43; 47; 53; 59; 61; 67;
   71; 73; 79; 83; 89; 97; 101; 103; 107; 109; 113; 127; 131; 137; 139; 149;
   151; 157; 163; 167; 173; 179; 181; 191; 193; 197; 199; 211; 223; 227; 229;
   233; 239; 241; 251; 257; 263; 269; 271; 277; 281; 283; 293; 307; 311].

(** The integer cube root, found bit by bit from bit [bit - 1] down. *)
Fixpoint cube_root (bit : nat) (n acc : Z) : Z :=
  match bit with
  | O => acc
  | S b =>
      let c := acc + 2 ^ Z.of_nat b in
      if c * c * c <=? n then cube_root b n c else cube_root b n acc
  end.

(** The round constants: the first 32 bits of the fractional parts of
    the cube roots of the first 64 primes. *)
Definition K : list Z :=
  Eval vm_compute in
    map (fun p => mask32 (cube_root 40 (p * 2 ^ 96) 0)) primes.

(** The initial hash value: the first 32 bits of the fractional parts of
    the square roots of the first 8 primes. *)
Definition H0 : list Z :=
  Eval vm_compute in
    map (fun p => mask32 (Z.sqrt (p * 2 ^ 64))) (take 8 primes).

(** Padding: a 1 bit, zeros, the bit length on 64 bits. *)
Definition pad (msg : bytes) : bytes :=
  let len := length msg in
  let zeros := ((64 - (len + 9) mod 64) mod 64)%nat in
  msg ++ [x80] ++ repeat x00 zeros
      ++ numberToBytesBE (8 * Z.of_nat len) 8.

(** The list cut into pieces of [n] elements. *)
Fixpoint chunks {A} (fuel n : nat) (l : list A) : list (list A) :=
  match fuel with
  | O => []
  | S f =>
      match l with
      | [] => []
      | _ => take n l :: chunks f n (drop n l)
      end
  end.

Definition words_of_block (block : bytes) : list Z :=
  map bytesToNumberBE (chunks 16 4 block).

(** The message schedule: [n] more words after those of [w]. *)
Fixpoint schedule (n : nat) (w : list Z) : list Z :=
  match n with
  | O => w
  | S k =>
      let t := length w in
      let x :=
        add32 (add32 (sigma1 (nth (t - 2) w 0)) (nth (t - 7) w 0))
              (add32 (sigma0 (nth (t - 15) w 0)) (nth (t - 16) w 0)) in
      schedule k (w ++ [x])
  end.

Definition round (st : list Z) (kw : Z * Z) : list Z :=
  match st with
  | [a; b; c; d; e; f; g; h] =>
      let t1 := add32 (add32 (add32 h (Sigma1 e)) (add32 (Ch e f g) (fst kw))) (snd kw) in
      let t2 := add32 (Sigma0 a) (Maj a b c) in
      [add32 t1 t2; a; b; c; add32 d t1; e; f; g]
  | _ => st
  end.

Definition compress (h : list Z) (block : bytes) : list Z :=
  let w := schedule 48 (words_of_block block) in
  let st := fold_left round (combine K w) h in
  map (fun p => add32 (fst p) (snd p)) (combine h st).

Definition digest (msg : bytes) : bytes :=
  let padded := pad msg in
  let h := fold_left compress (chunks (length padded) 64 padded) H0 in
  concat (map (fun w => numberToBytesBE w 4) h).

End SHA256.

(** ** HMAC (RFC 2104) and HKDF (RFC 5869) over a hash function with
    64-byte blocks and 32-byte output *)
Module HKDF.

Definition xor_byte (a b : byte) : byte :=
  byte_of_Z (Z.lxor (byte_to_Z a) (byte_to_Z b)).

Definition hmac (hash : bytes -> bytes) (key msg : bytes) : bytes :=
  let key0 := if (64 <? length key)%nat then hash key else key in
  let key1 := key0 ++ repeat x00 (64 - length key0) in
  let ipad := map (xor_byte x36) key1 in
  let opad := map (xor_byte x5c) key1 in
  hash (opad ++ hash (ipad ++ msg)).

Definition extract (hash : bytes -> bytes) (ikm : bytes) (salt : option bytes)
    : bytes :=
  hmac hash (match salt with Some s => s | None => repeat x00 32 end) ikm.

(** [T(1) || T(2) || ...], [n] blocks. *)
Fixpoint expand_blocks (hash : bytes -> bytes) (prk info prev : bytes)
    (counter : Z) (n : nat) : bytes :=
  match n with
  | O => []
  | S k =>
      let t := hmac hash prk (prev ++ info ++ [byte_of_Z counter]) in
      t ++ expand_blocks hash prk info t (counter + 1) k
  end.

Definition expand (hash : bytes -> bytes) (prk info : bytes) (len : nat)
    : bytes :=
  take len (expand_blocks hash prk info [] 1 ((len + 31) / 32)).

Definition hkdf (hash : bytes -> bytes) (ikm : bytes) (salt : option bytes)
    (info : bytes) (len : nat) : bytes :=
  expand hash (extract hash ikm salt) info len.

End HKDF.

(** Bytes written in hexadecimal, and back (for test vectors). *)
Definition hex_of_bytes (bs : bytes) : jsstring :=
  concat (map (fun b => [digit_char (byte_to_Z b / 16);
                         digit_char (byte_to_Z b mod 16)]) bs).

Fixpoint bytes_of_hex (s : jsstring) : bytes :=
  match s with
  | a :: b :: s' =>
      byte_of_Z (default 0%Z (hex_value a) * 16 + default 0%Z (hex_value b))
      :: bytes_of_hex s'
  | _ => []
  end.

(** ** secp256k1 (SEC 2) and deterministic ECDSA (RFC 6979) *)
Module Secp256k1.
Local Open Scope bigZ_scope.

Definition P : bigZ :=
  BigZ.of_Z 0xFFFFFFFFFFFFFFFFFFFFFFFFFFFFFFFFFFFFFFFFFFFFFFFFFFFFFFFEFFFFFC2F.
Definition Nord : bigZ := BigZ.of_Z curve_order.
Definition Gx : bigZ :=
  BigZ.of_Z 0x79BE667EF9DCBBAC55A06295CE870B07029BFCDB2DCE28D959F2815B16F81798.
Definition Gy : bigZ :=
  BigZ.of_Z 0x483ADA7726A3C4655DA4FBFC0E1108A8FD17B448A68554199C47D08FFB10D4B8.

(** [b ^ e mod m] by squaring. *)
Fixpoint pow_mod (m b : bigZ) (e : positive) : bigZ :=
  match e with
  | xH => b mod m
  | xO e' => let t := pow_mod m b e' in (t * t) mod m
  | xI e' => let t := pow_mod m b e' in (((t * t) mod m) * b) mod m
  end.

(** The inverse modulo a prime [m]. *)
Definition inv_mod (m a : bigZ) : bigZ :=
  pow_mod m a (Z.to_pos (BigZ.to_Z m - 2)).

(** Points in Jacobian coordinates [(X, Y, Z)]; [Z = 0] is the point at
    infinity. *)
Definition jpoint : Type := bigZ * bigZ * bigZ.
Definition infinity : jpoint := (1, 1, 0).
Definition G : jpoint := (Gx, Gy, 1).

Definition jdouble (p : jpoint) : jpoint :=
  let '(X1, Y1, Z1) := p in
  if (Z1 =? 0) || (Y1 =? 0) then infinity
  else
    let yy := (Y1 * Y1) mod P in
    let s := (4 * X1 * yy) mod P in
    let m := (3 * X1 * X1) mod P in
    let X3 := (m * m - 2 * s) mod P in
    let Y3 := (m * (s - X3) - 8 * yy * yy) mod P in
    let Z3 := (2 * Y1 * Z1) mod P in
    (X3, Y3, Z3).

Definition jadd (p q : jpoint) : jpoint :=
  let '(X1, Y1, Z1) := p in
  let '(X2, Y2, Z2) := q in
  if Z1 =? 0 then q
  else if Z2 =? 0 then p
  else
    let z1z1 := (Z1 * Z1) mod P in
    let z2z2 := (Z2 * Z2) mod P in
    let u1 := (X1 * z2z2) mod P in
    let u2 := (X2 * z1z1) mod P in
    let s1 := (Y1 * Z2 * z2z2) mod P in
    let s2 := (Y2 * Z1 * z1z1) mod P in
    if u1 =? u2 then
      if s1 =? s2 then jdouble p else infinity
    else
      let h := (u2 - u1) mod P in
      let r := (s2 - s1) mod P in
      let hh := (h * h) mod P in
      let hhh := (h * hh) mod P in
      let v := (u1 * hh) mod P in
      let X3 := (r * r - hhh - 2 * v) mod P in
      let Y3 := (r * (v - X3) - s1 * hhh) mod P in
      let Z3 := (h * Z1 * Z2) mod P in
      (X3, Y3, Z3).

Fixpoint smul (k : positive) (p : jpoint) : jpoint :=
  match k with
  | xH => p
  | xO k' => jdouble (smul k' p)
  | xI k' => jadd (jdouble (smul k' p)) p
  end.

Definition scalar_mul (k : Z) (p : jpoint) : jpoint :=
  match k with
  | Zpos k' => smul k' p
  | _ => infinity
  end.

(** Affine coordinates; [None] for the point at infinity. *)
Definition to_affine (p : jpoint) : option (Z * Z) :=
  let '(X1, Y1, Z1) := p in
  if Z1 =? 0 then None
  else
    let zi := inv_mod P Z1 in
    let zi2 := (zi * zi) mod P in
    Some (BigZ.to_Z ((X1 * zi2) mod P), BigZ.to_Z ((Y1 * zi2 * zi) mod P)).

Definition of_affine (xy : Z * Z) : jpoint :=
  (BigZ.of_Z (fst xy), BigZ.of_Z (snd xy), 1).

(** The point with abscissa [x] whose ordinate has the parity [odd]. *)
Definition lift_x (x : Z) (odd : bool) : option (Z * Z) :=
  let bx := BigZ.of_Z x in
  if (0 <? bx) && (bx <? P) then
    let c := (bx * bx * bx + 7) mod P in
    let y := pow_mod P c (Z.to_pos ((BigZ.to_Z P + 1) / 4)) in
    if (y * y) mod P =? c then
      let yz := BigZ.to_Z y in
      Some (x, if Bool.eqb (Z.odd yz) odd then yz else (BigZ.to_Z P - yz)%Z)
    else None
  else None.

(** [Point.fromBytes]: compressed (33 bytes) or uncompressed (65). *)
Definition point_of_bytes (b : bytes) : option (Z * Z) :=
  match b with
  | x02 :: xs => if (length xs =? 32)%nat then lift_x (bytesToNumberBE xs) false else None
  | x03 :: xs => if (length xs =? 32)%nat then lift_x (bytesToNumberBE xs) true else None
  | x04 :: xs =>
      if (length xs =? 64)%nat then
        let x := bytesToNumberBE (take 32 xs) in
        let y := bytesToNumberBE (drop 32 xs) in
        let bx := BigZ.of_Z x in
        let by_ := BigZ.of_Z y in
        if (0 <? bx) && (bx <? P) && (0 <? by_) && (by_ <? P)
           && ((by_ * by_) mod P =? (bx * bx * bx + 7) mod P)
        then Some (x, y) else None
      else None
  | _ => None
  end.

Definition point_to_bytes (compressed : bool) (xy : Z * Z) : bytes :=
  if compressed then
    (if Z.odd (snd xy) then x03 else x02) :: numberToBytesBE (fst xy) 32
  else x04 :: numberToBytesBE (fst xy) 32 ++ numberToBytesBE (snd xy) 32.

Definition getPublicKey (sk : bytes) (compressed : bool) : Result bytes :=
  if isValidSecretKey sk then
    match to_affine (scalar_mul (bytesToNumberBE sk) G) with
    | Some xy => Ok (point_to_bytes compressed xy)
    | None => Throw (Error "invalid secret key")
    end
  else Throw (Error "invalid secret key").

(** [bits2int_modN]: the leftmost 256 bits of the digest, modulo [n]. *)
Definition bits2int_modN (digest : bytes) : Z :=
  (bytesToNumberBE (take 32 digest) mod curve_order)%Z.

Definition mulN (a b : Z) : Z :=
  BigZ.to_Z ((BigZ.of_Z a * BigZ.of_Z b) mod Nord).
Definition invN (a : Z) : Z := BigZ.to_Z (inv_mod Nord (BigZ.of_Z a)).

(** One attempt with the nonce [k]: [None] when [k], [r] or [s] is out
    of range. *)
Definition sign_with_nonce (h d k : Z) (lowS : bool) : option bytes :=
  if ((1 <=? k) && (k <? curve_order))%Z then
    match to_affine (scalar_mul k G) with
    | Some (qx, qy) =>
        let r := (qx mod curve_order)%Z in
        let s := mulN (invN k) ((h + mulN r d) mod curve_order)%Z in
        if ((r =? 0) || (s =? 0))%Z then None
        else
          let rec := ((if (qx =? r)%Z then 0 else 2) + (if Z.odd qy then 1 else 0))%Z in
          let high := (curve_order / 2 <? s)%Z in
          let s' := if lowS && high then (curve_order - s)%Z else s in
          let rec' := if lowS && high then Z.lxor rec 1 else rec in
          Some (byte_of_Z rec' :: numberToBytesBE r 32 ++ numberToBytesBE s' 32)
    | None => None
    end
  else None.

(** The HMAC-DRBG of RFC 6979, section 3.2, steps (b) to (h). *)
Fixpoint drbg_loop (fuel : nat) (Kk V : bytes) (h d : Z) (lowS : bool)
    : Result bytes :=
  match fuel with
  | O => Throw (Error "drbg: tried max amount of iterations")
  | S f =>
      let V1 := HKDF.hmac SHA256.digest Kk V in
      match sign_with_nonce h d (bytesToNumberBE V1) lowS with
      | Some sig => Ok sig
      | None =>
          let K2 := HKDF.hmac SHA256.digest Kk (V1 ++ [x00]) in
          let V2 := HKDF.hmac SHA256.digest K2 V1 in
          drbg_loop f K2 V2 h d lowS
      end
  end.

Definition sign (digest sk : bytes) (lowS : bool) (extraEntropy : option bytes)
    : Result bytes :=
  if isValidSecretKey sk then
    let d := bytesToNumberBE sk in
    let h := bits2int_modN digest in
    let seed := numberToBytesBE d 32 ++ numberToBytesBE h 32
                  ++ match extraEntropy with Some e => e | None => [] end in
    let V0 := repeat x01 32 in
    let K0 := repeat x00 32 in
    let K1 := HKDF.hmac SHA256.digest K0 (V0 ++ [x00] ++ seed) in
    let V1 := HKDF.hmac SHA256.digest K1 V0 in
    let K2 := HKDF.hmac SHA256.digest K1 (V1 ++ [x01] ++ seed) in
    let V2 := HKDF.hmac SHA256.digest K2 V1 in
    drbg_loop 1000 K2 V2 h d lowS
  else Throw (Error "invalid secret key").

Definition verify (sig digest pk : bytes) (lowS : bool) : Result bool :=
  if (length sig =? 64)%nat then
    let r := bytesToNumberBE (take 32 sig) in
    let s := bytesToNumberBE (drop 32 sig) in
    if valid_scalar r && valid_scalar s then
      if lowS && (curve_order / 2 <? s)%Z then Ok false
      else
        match point_of_bytes pk with
        | Some q =>
            let h := bits2int_modN digest in
            let w := invN s in
            let u1 := mulN h w in
            let u2 := mulN r w in
            match to_affine (jadd (scalar_mul u1 G) (scalar_mul u2 (of_affine q))) with
            | Some (x, _) => Ok ((x mod curve_order =? r)%Z)
            | None => Ok false
            end
        | None => Ok false
        end
    else Ok false
  else Throw (Error "invalid signature length").

Definition recover (sig digest : bytes) : Result bytes :=
  match sig with
  | recb :: rs =>
      if (length rs =? 64)%nat then
        let rec := byte_to_Z recb in
        let r := bytesToNumberBE (take 32 rs) in
        let s := bytesToNumberBE (drop 32 rs) in
        if valid_scalar r && valid_scalar s && (rec <=? 3)%Z then
          let x := (if (2 <=? rec)%Z then r + curve_order else r)%Z in
          match lift_x x (Z.odd rec) with
          | Some R =>
              let h := bits2int_modN digest in
              let ir := invN r in
              let u1 := mulN ((curve_order - h) mod curve_order)%Z ir in
              let u2 := mulN s ir in
              match to_affine (jadd (scalar_mul u1 G) (scalar_mul u2 (of_affine R))) with
              | Some q => Ok (point_to_bytes true q)
              | None => Throw (Error "invalid signature")
              end
          | None => Throw (Error "invalid signature")
          end
        else Throw (Error "invalid signature")
      else Throw (Error "invalid signature length")
  | [] => Throw (Error "invalid signature length")
  end.

End Secp256k1.

(** ** AES (FIPS 197) in Galois/Counter Mode (NIST SP 800-38D), with a
    128-bit tag and no additional data, as [crypto.subtle] uses it *)
Module AESGCM.

Definition xor_bytes (a b : bytes) : bytes := zip_with HKDF.xor_byte a b.

Definition sbox : list byte :=
  Eval vm_compute in
    map byte_of_Z
  [0x63; 0x7c; 0x77; 0x7b; 0xf2; 0x6b; 0x6f; 0xc5; 0x30; 0x01; 0x67; 0x2b; 0xfe; 0xd7; 0xab; 0x76;
   0xca; 0x82; 0xc9; 0x7d; 0xfa; 0x59; 0x47; 0xf0; 0xad; 0xd4; 0xa2; 0xaf; 0x9c; 0xa4; 0x72; 0xc0;
   0xb7; 0xfd; 0x93; 0x26; 0x36; 0x3f; 0xf7; 0xcc; 0x34; 0xa5; 0xe5; 0xf1; 0x71; 0xd8; 0x31; 0x15;
   0x04; 0xc7; 0x23; 0xc3; 0x18; 0x96; 0x05; 0x9a; 0x07; 0x12; 0x80; 0xe2; 0xeb; 0x27; 0xb2; 0x75;
   0x09; 0x83; 0x2c; 0x1a; 0x1b; 0x6e; 0x5a; 0xa0; 0x52; 0x3b; 0xd6; 0xb3; 0x29; 0xe3; 0x2f; 0x84;
   0x53; 0xd1; 0x00; 0xed; 0x20; 0xfc; 0xb1; 0x5b; 0x6a; 0xcb; 0xbe; 0x39; 0x4a; 0x4c; 0x58; 0xcf;
   0xd0; 0xef; 0xaa; 0xfb; 0x43; 0x4d; 0x33; 0x85; 0x45; 0xf9; 0x02; 0x7f; 0x50; 0x3c; 0x9f; 0xa8;
   0x51; 0xa3; 0x40; 0x8f; 0x92; 0x9d; 0x38; 0xf5; 0xbc; 0xb6; 0xda; 0x21; 0x10; 0xff; 0xf3; 0xd2;
   0xcd; 0x0c; 0x13; 0xec; 0x5f; 0x97; 0x44; 0x17; 0xc4; 0xa7; 0x7e; 0x3d; 0x64; 0x5d; 0x19; 0x73;
   0x60; 0x81; 0x4f; 0xdc; 0x22; 0x2a; 0x90; 0x88; 0x46; 0xee; 0xb8; 0x14; 0xde; 0x5e; 0x0b; 0xdb;
   0xe0; 0x32; 0x3a; 0x0a; 0x49; 0x06; 0x24; 0x5c; 0xc2; 0xd3; 0xac; 0x62; 0x91; 0x95; 0xe4; 0x79;
   0xe7; 0xc8; 0x37; 0x6d; 0x8d; 0xd5; 0x4e; 0xa9; 0x6c; 0x56; 0xf4; 0xea; 0x65; 0x7a; 0xae; 0x08;
   0xba; 0x78; 0x25; 0x2e; 0x1c; 0xa6; 0xb4; 0xc6; 0xe8; 0xdd; 0x74; 0x1f; 0x4b; 0xbd; 0x8b; 0x8a;
   0x70; 0x3e; 0xb5; 0x66; 0x48; 0x03; 0xf6; 0x0e; 0x61; 0x35; 0x57; 0xb9; 0x86; 0xc1; 0x1d; 0x9e;
   0xe1; 0xf8; 0x98; 0x11; 0x69; 0xd9; 0x8e; 0x94; 0x9b; 0x1e; 0x87; 0xe9; 0xce; 0x55; 0x28; 0xdf;
   0x8c; 0xa1; 0x89; 0x0d; 0xbf; 0xe6; 0x42; 0x68; 0x41; 0x99; 0x2d; 0x0f; 0xb0; 0x54; 0xbb; 0x16]%Z.

Definition sub_byte (x : byte) : byte :=
  nth (Z.to_nat (byte_to_Z x)) sbox x00.

(** Multiplication by [x] in GF(2^8): a shift, reduced by the
    polynomial [x^8 + x^4 + x^3 + x + 1]. *)
Definition xtime (a : byte) : byte :=
  byte_of_Z (Z.lxor (2 * byte_to_Z a)
                    (if Z.testbit (byte_to_Z a) 7 then 0x1b else 0)).

(** A word of the key schedule, a column of the state. *)
Definition word : Type := (byte * byte * byte * byte)%type.

Definition xor_word (u v : word) : word :=
  let '(a, b, c, d) := u in
  let '(a', b', c', d') := v in
  (HKDF.xor_byte a a', HKDF.xor_byte b b', HKDF.xor_byte c c',
   HKDF.xor_byte d d').
Definition sub_word (u : word) : word :=
  let '(a, b, c, d) := u in (sub_byte a, sub_byte b, sub_byte c, sub_byte d).
Definition rot_word (u : word) : word :=
  let '(a, b, c, d) := u in (b, c, d, a).
Definition zero_word : word := (x00, x00, x00, x00).
Definition bytes_of_word (u : word) : bytes :=
  let '(a, b, c, d) := u in [a; b; c; d].

Fixpoint words_of_bytes (bs : bytes) : list word :=
  match bs with
  | a :: b :: c :: d :: rest => (a, b, c, d) :: words_of_bytes rest
  | _ => []
  end.

(** The key schedule: the words [w[i]], [n] more after those of [w]. *)
Fixpoint expand_key (n Nk : nat) (w : list word) (rcon : byte) : list word :=
  match n with
  | O => w
  | S k =>
      let i := length w in
      let temp := nth (i - 1) w zero_word in
      let '(temp', rcon') :=
        if (i mod Nk =? 0)%nat then
          (xor_word (sub_word (rot_word temp)) (rcon, x00, x00, x00),
           xtime rcon)
        else if ((6 <? Nk) && (i mod Nk =? 4))%nat then (sub_word temp, rcon)
        else (temp, rcon) in
      expand_key k Nk (w ++ [xor_word (nth (i - Nk) w zero_word) temp']) rcon'
  end.

(** Four words make a round key. *)
Fixpoint group_round_keys (ws : list word) : list bytes :=
  match ws with
  | a :: b :: c :: d :: rest =>
      (bytes_of_word a ++ bytes_of_word b ++ bytes_of_word c
         ++ bytes_of_word d) :: group_round_keys rest
  | _ => []
  end.

Definition round_keys (key : bytes) : list bytes :=
  let Nk := (length key / 4)%nat in
  group_round_keys
    (expand_key (4 * (Nk + 7) - Nk) Nk (words_of_bytes key) x01).

Definition shift_rows (st : bytes) : bytes :=
  map (fun i => nth (i mod 4 + 4 * ((i / 4 + i mod 4) mod 4))%nat st x00)
      (seq 0 16).

Definition mix_column (u : word) : word :=
  let '(a, b, c, d) := u in
  let x := HKDF.xor_byte in
  (x (x (xtime a) (x (xtime b) b)) (x c d),
   x (x a (xtime b)) (x (x (xtime c) c) d),
   x (x a b) (x (xtime c) (x (xtime d) d)),
   x (x (x (xtime a) a) b) (x c (xtime d))).

Definition mix_columns (st : bytes) : bytes :=
  concat (map (fun u => bytes_of_word (mix_column u)) (words_of_bytes st)).

Fixpoint rounds (st : bytes) (rks : list bytes) : bytes :=
  match rks with
  | [] => st
  | [rk] => xor_bytes (shift_rows (map sub_byte st)) rk
  | rk :: rks' =>
      rounds (xor_bytes (mix_columns (shift_rows (map sub_byte st))) rk) rks'
  end.

(** The forward cipher on one block, with the expanded key. *)
Definition cipher (rks : list bytes) (block : bytes) : bytes :=
  match rks with
  | rk0 :: rks' => rounds (xor_bytes block rk0) rks'
  | [] => block
  end.

(** Multiplication in GF(2^128), blocks read as integers with the first
    bit of the block the most significant. *)
Fixpoint gf_mul_loop (n : nat) (x v z : Z) : Z :=
  match n with
  | O => z
  | S k =>
      let z' := if Z.testbit x (Z.of_nat k) then Z.lxor z v else z in
      let v' := if Z.testbit v 0
                then Z.lxor (Z.shiftr v 1) (Z.shiftl 0xe1 120)
                else Z.shiftr v 1 in
      gf_mul_loop k x v' z'
  end.
Definition gf_mul (x y : Z) : Z := gf_mul_loop 128 x y 0%Z.

Definition pad16 (l : bytes) : bytes :=
  l ++ repeat x00 ((16 - length l mod 16) mod 16).

Definition ghash (h : Z) (data : bytes) : Z :=
  fold_left (fun y b => gf_mul (Z.lxor y (bytesToNumberBE b)) h)
            (SHA256.chunks (length data) 16 data) 0%Z.

Definition inc32 (cb : bytes) : bytes :=
  take 12 cb
    ++ numberToBytesBE ((bytesToNumberBE (drop 12 cb) + 1) mod 2 ^ 32)%Z 4.

(** Counter mode from the counter block [cb]; [fuel] bounds the number
    of blocks. *)
Fixpoint gctr (fuel : nat) (rks : list bytes) (cb data : bytes) : bytes :=
  match fuel with
  | O => []
  | S f =>
      match data with
      | [] => []
      | _ => xor_bytes (take 16 data) (cipher rks cb)
               ++ gctr f rks (inc32 cb) (drop 16 data)
      end
  end.

Definition j0 (h : Z) (iv : bytes) : bytes :=
  if (length iv =? 12)%nat then iv ++ [x00; x00; x00; x01]
  else numberToBytesBE
         (ghash h (pad16 iv
                     ++ numberToBytesBE (8 * Z.of_nat (length iv)) 16)) 16.

Definition tag (rks : list bytes) (h : Z) (J0 c : bytes) : bytes :=
  let s := ghash h (pad16 c ++ numberToBytesBE 0 8
                      ++ numberToBytesBE (8 * Z.of_nat (length c)) 8) in
  xor_bytes (numberToBytesBE s 16) (cipher rks J0).

Definition valid_key_length (key : bytes) : bool :=
  ((length key =? 16) || (length key =? 24) || (length key =? 32))%nat.

Definition bytes_eqb (a b : bytes) : bool :=
  (length a =? length b)%nat
  && forallb (fun p => Byte.eqb (fst p) (snd p)) (combine a b).

Definition encrypt (key iv data : bytes) : Result bytes :=
  if valid_key_length key && negb (length iv =? 0)%nat then
    let rks := round_keys key in
    let h := bytesToNumberBE (cipher rks (repeat x00 16)) in
    let J0 := j0 h iv in
    let c := gctr (length data) rks (inc32 J0) data in
    Ok (c ++ tag rks h J0 c)
  else Throw (DOMException "OperationError").

Definition decrypt (key iv data : bytes) : Result bytes :=
  if valid_key_length key && negb (length iv =? 0)%nat
     && (16 <=? length data)%nat then
    let rks := round_keys key in
    let h := bytesToNumberBE (cipher rks (repeat x00 16)) in
    let J0 := j0 h iv in
    let c := take (length data - 16) data in
    let t := drop (length data - 16) data in
    if bytes_eqb t (tag rks h J0 c) then
      Ok (gctr (length c) rks (inc32 J0) c)
    else Throw (DOMException "OperationError")
  else Throw (DOMException "OperationError").

End AESGCM.

(** The primitives as the standards define them. *)
Definition RefLib : CryptoLib :=
  {| sha256 := SHA256.digest;
     hkdf := HKDF.hkdf;
     secp_getPublicKey := Secp256k1.getPublicKey;
     secp_sign := Secp256k1.sign;
     secp_verify := Secp256k1.verify;
     secp_recover := Secp256k1.recover;
     aes_gcm_encrypt := AESGCM.encrypt;
     aes_gcm_decrypt := AESGCM.decrypt |}.


(* ================================================================== *)
(** * 6. Notions used in the statements                                 *)
(* ================================================================== *)

(** The digits of [n] on exactly [k] positions, least significant
    first. *)
Fixpoint fixed_le (base : Z) (k : nat) (n : Z) : list Z :=
  match k with
  | O => []
  | S k' => (n mod base)%Z :: fixed_le base k' (n / base)%Z
  end.

(** [n] written with exactly [k] lowercase hexadecimal digits. *)
Definition fixed_hex (k : nat) (n : Z) : jsstring :=
  map digit_char (rev (fixed_le 16 k n)).

(** A lowercase hexadecimal digit. *)
Definition is_lower_hex (c : code_unit) : bool :=
  (((48 <=? c) && (c <=? 57)) || ((97 <=? c) && (c <=? 102)))%N.

(** Values of 8 and of 6 bits. *)
Definition is_octet (b : Z) : Prop := (0 <= b < 256)%Z.
Definition is_sextet (s : Z) : Prop := (0 <= s < 64)%Z.



(** The value of digits given least significant first. *)
Fixpoint value_le (base : Z) (ds : list Z) : Z :=
  match ds with
  | [] => 0%Z
  | d :: ds' => (d + base * value_le base ds')%Z
  end.

(** The buffer that is hashed: the prefix, the decimal length of the
    message, the message. *)
Definition eip191_buffer (message : bytes) : bytes :=
  TextEncoder_encode MessageSigner.prefix
    ++ TextEncoder_encode (toString 10 (Z.of_nat (length message)))
    ++ message.

(** The candidate private key after [i] re-hashes. *)
Definition rehash (L : CryptoLib) (i : nat) (key : bytes) : bytes :=
  Nat.iter i (sha256 L) key.

(** Candidate number [i] is the first valid one. *)
Definition first_valid (L : CryptoLib) (key : bytes) (i : nat) : Prop :=
  isValidSecretKey (rehash L i key) = true
  /\ forall j, (j < i)%nat -> isValidSecretKey (rehash L j key) = false.

(** The output of HKDF that [deriveSigningKey] starts from. *)
Definition derived_candidate (L : CryptoLib) (credentialId userId : jsstring)
    (salt : option bytes) : bytes :=
  hkdf L (sha256 L) (TextEncoder_encode (credentialId ++ userId)) salt
       (TextEncoder_encode (str "passface-signing-key-v1")) 32.


(** A world to run examples in: the random source delivers the bytes
    [seed], [seed + 1], ..., the database is empty. *)
Definition example_world (seed : Z) (now : Z) : World :=
  {| random_source := fun i => byte_of_Z (seed + Z.of_nat i);
     clock := now;
     idb_available := true;
     signing_keys := ∅;
     console := [] |}.

(** The fixture of the specification. *)
Definition fixture_credentialId : jsstring := str "V3QxMjM0NTY3ODkwYWJjZGVm".
Definition fixture_userId : jsstring := str "user-123".
Definition fixture_message : MessageSigner.Message :=
  MessageSigner.MsgString (str "Hello World").
Definition fixture_key : bytes :=
  bytes_of_hex
    (str "f878e864689d114b4dfe39dd7a059974f2c7d8d9b27f1c8bb749dabb08e17184").
Definition fixture_publicKey : bytes :=
  bytes_of_hex
    (str "031321df543ad35ffc174eff89dc4d2990691ad7ee4bad004a6e781df9721d488a").
Definition fixture_signature : jsstring :=
  str "0x0bf5e1bd0865f6e1c50dde2d03948f175071068181ff991efef0c118d43c0d6c46d4fd27d18676fa9007b779819c9369d3dd5e8acfad390fe280fd18c380a3191c".

(** The message hash: SHA-256 of the prefixed buffer. *)
Definition message_digest (L : CryptoLib) (m : MessageSigner.Message) : bytes :=
  sha256 L (eip191_buffer (MessageSigner.messageBytes m)).

(** What [signMessage], [verifySignature] and [recoverPublicKey] do
    with the message hash once it is computed. *)
Definition sign_digest (L : CryptoLib) (digest privateKey : bytes) : M jsstring :=
  signatureBytes <- signAsync L digest privateKey MessageSigner.sign_opts ;;
  signature <- liftR (Signature_fromBytes signatureBytes Recovered) ;;
  ret (MessageSigner.formatSignature signature).

(** The signature text without its optional [0x]. *)
Definition sig_hex (signature : jsstring) : jsstring :=
  if startsWith (str "0x") signature then slice_from 2 signature
  else signature.

(** The part of [verifySignature] inside [try], after hashing, as a
    computation without effects: parse [r] and [s], build the compact
    signature, ask the library. *)
Definition verify_core (L : CryptoLib) (digest : bytes) (signature : jsstring)
    (publicKey : bytes) : Result bool :=
  r <-? BigInt_0x (slice 0 64 (sig_hex signature)) ;;
  s <-? BigInt_0x (slice 64 128 (sig_hex signature)) ;;
  sig <-? Signature_new r s None ;;
  compactSig <-? Signature_toBytes sig Compact ;;
  secp_verify L compactSig digest publicKey true.

Definition verify_digest (L : CryptoLib) (digest : bytes) (signature : jsstring)
    (publicKey : bytes) : M bool :=
  try_catch
    (liftR (verify_core L digest signature publicKey))
    (fun error =>
       console_error (str "Signature verification failed:") error ;;;
       ret false).

Definition recover_digest (L : CryptoLib) (digest : bytes) (signature : jsstring)
    : M bytes :=
  r <- liftR (BigInt_0x (slice 0 64 (sig_hex signature))) ;;
  s <- liftR (BigInt_0x (slice 64 128 (sig_hex signature))) ;;
  let recovery :=
    match parseInt16 (slice 128 130 (sig_hex signature)) with
    | Some v => if (27 <=? v)%Z then Int (v - 27) else Int v
    | None => NaN
    end in
  sig <- liftR (Signature_new r s (Some recovery)) ;;
  recoveredSig <- liftR (Signature_toBytes sig Recovered) ;;
  recoverPublicKeyAsync L recoveredSig digest MessageSigner.verify_opts.

(** The contract of the ECDSA library at one digest and one secret key:
    it signs, the signature has the layout of the recoverable format
    with [r] and [s] in [[1, n-1]] and a recovery id of 0 to 3, it
    computes the public key, and it accepts the signature for that
    digest and that public key. *)
Definition EcdsaSound (L : CryptoLib) (digest sk : bytes) : Prop :=
  exists (rec : byte) (rs pk : bytes),
    secp_sign L digest sk true None = Ok (rec :: rs)
    /\ length rs = 64%nat
    /\ valid_scalar (bytesToNumberBE (take 32 rs)) = true
    /\ valid_scalar (bytesToNumberBE (drop 32 rs)) = true
    /\ (byte_to_Z rec <= 3)%Z
    /\ secp_getPublicKey L sk true = Ok pk
    /\ secp_verify L rs digest pk true = Ok true.

(** The contract of the signing primitive alone: a recoverable
    signature of 65 bytes whose recovery id is 0 to 3. *)
Definition RecoveryIdInRange (L : CryptoLib) (digest sk : bytes) : Prop :=
  forall (rec : byte) (rs : bytes),
    secp_sign L digest sk true None = Ok (rec :: rs) ->
    (byte_to_Z rec <= 3)%Z.

(** The signature of the fixture without its last byte [v], and with
    characters that are no hexadecimal digits after [s]. *)
Definition truncated_signature : jsstring := take 130 fixture_signature.
Definition garbled_signature : jsstring :=
  take 130 fixture_signature ++ str "zz!".

(** The recoverable signature behind [fixture_signature]. *)
Definition fixture_rs : bytes :=
  bytes_of_hex
    (str "0bf5e1bd0865f6e1c50dde2d03948f175071068181ff991efef0c118d43c0d6c46d4fd27d18676fa9007b779819c9369d3dd5e8acfad390fe280fd18c380a319").

(** The [n] bytes the random source of [w] delivers from position
    [offset] on. *)
Definition drawn (w : World) (offset n : nat) : bytes :=
  map (fun i => random_source w (offset + i)) (seq 0 n).

(** The world after [n] random bytes were drawn. *)
Definition advance (n : nat) (w : World) : World :=
  {| random_source := fun i => random_source w (n + i);
     clock := clock w;
     idb_available := idb_available w;
     signing_keys := signing_keys w;
     console := console w |}.

(** The AES key [encrypt] and [decrypt] derive from a password and a
    salt. *)
Definition encryption_key (L : CryptoLib) (password : jsstring) (salt : bytes)
    : bytes :=
  hkdf L (sha256 L) (TextEncoder_encode password) (Some salt)
       Encryption.info 32.

Definition importable (key : bytes) : bool :=
  ((length key =? 16) || (length key =? 24) || (length key =? 32))%nat.

(** The contract of AES-GCM at one key, nonce and plaintext: encryption
    succeeds and decryption of its output under the same key and nonce
    gives the plaintext back. *)
Definition AeadRoundTrip (L : CryptoLib) (key iv data : bytes) : Prop :=
  exists ct,
    aes_gcm_encrypt L key iv data = Ok ct
    /\ aes_gcm_decrypt L key iv ct = Ok data.


Definition password_one : jsstring := str "correct horse battery staple".
Definition password_two : jsstring := str "correct horse battery stapler".

(* ================================================================== *)
(** * 6b. Further notions: encodings and recovery                       *)
(* ================================================================== *)

(** A character of base64 text: one of the 64 of the alphabet, or the
    padding character [=]. *)
Definition is_base64_char (c : code_unit) : bool :=
  match base64_value c with
  | Some _ => true
  | None => (c =? 61)%N
  end.

Definition not_ascii_whitespace (c : code_unit) : bool :=
  negb (is_ascii_whitespace c).

(** The values of the byte [v] that [recoverPublicKey] can turn into a
    recovery id of 0 to 3: 0 to 3 themselves, and 27 to 30. *)
Definition accepted_v (v : option Z) : bool :=
  match v with
  | Some v => (((0 <=? v) && (v <=? 3)) || ((27 <=? v) && (v <=? 30)))%Z
  | None => false
  end.

(** The body of [recoverPublicKey] after hashing, as a computation
    without effects: parse [r], [s] and [v], build the recoverable
    signature, ask the library. *)
Definition recover_core (L : CryptoLib) (digest : bytes) (signature : jsstring)
    : Result bytes :=
  r <-? BigInt_0x (slice 0 64 (sig_hex signature)) ;;
  s <-? BigInt_0x (slice 64 128 (sig_hex signature)) ;;
  let recovery :=
    match parseInt16 (slice 128 130 (sig_hex signature)) with
    | Some v => if (27 <=? v)%Z then Int (v - 27) else Int v
    | None => NaN
    end in
  sig <-? Signature_new r s (Some recovery) ;;
  recoveredSig <-? Signature_toBytes sig Recovered ;;
  secp_recover L recoveredSig digest.

(** Worlds to run examples in: one whose database cannot be opened, and
    the one in which the fixture key has been stored. *)
Definition offline_world (seed : Z) (now : Z) : World :=
  {| random_source := fun i => byte_of_Z (seed + Z.of_nat i);
     clock := now;
     idb_available := false;
     signing_keys := ∅;
     console := [] |}.

Definition stored_world (seed : Z) (now : Z) : World :=
  snd (KeyStorage.storeKey RefLib fixture_credentialId fixture_key
         password_one None (example_world seed now)).

(** A record whose salt is no base64 text. *)
Definition damaged_record : SigningKeyRecord :=
  {| rec_id := fixture_credentialId;
     rec_encryptedKey := str "AAAA";
     rec_iv := str "AAAAAAAAAAAAAAAA";
     rec_salt := str "ab*d";
     rec_timestamp := 0;
     rec_metadata := None |}.

(** A hexadecimal digit [a]-[f] in upper case; other characters as they
    are. *)
Definition upper_hex (c : code_unit) : code_unit :=
  if ((97 <=? c) && (c <=? 102))%N then (c - 32)%N else c.

(** Two worlds that differ at most in what is on the console. *)
Definition same_but_console (w w' : World) : Prop :=
  random_source w' = random_source w
  /\ clock w' = clock w
  /\ idb_available w' = idb_available w
  /\ signing_keys w' = signing_keys w.

From stdpp Require Import sorting.

(* ================================================================== *)
(** * 6c. The session store and the component that uses the vault       *)
(* ================================================================== *)

(** ** The rest of the browser state *)

(** [interface SessionDataRecord] of keyStorage.ts.  [data] is what
    [JSON.stringify] returned: a text, or [undefined] for a value that
    has none.  Times are counts of milliseconds, integers. *)
Record SessionDataRecord : Type := {
  sess_id : jsstring;
  sess_data : option jsstring;
  sess_timestamp : Z;
  sess_expiresAt : option Z
}.

(** What [World] leaves out: the object store
    [session-data] of the same database (key path [id]),
    [window.sessionStorage], and the state variable [signingKey] of the
    component [PasskeyAuth]. *)
Record Browser : Type := {
  world : World;
  session_data : gmap jsstring SessionDataRecord;
  sessionStorage : gmap jsstring jsstring;
  signingKey : option bytes
}.

(** An operation on the browser state. *)
Definition B (A : Type) : Type := Browser -> Result A * Browser.

Definition retB {A} (a : A) : B A := fun b => (Ok a, b).
Definition throwB {A} (e : Exn) : B A := fun b => (Throw e, b).

Definition bindB {A C} (m : B A) (k : A -> B C) : B C :=
  fun b =>
    match m b with
    | (Ok a, b') => k a b'
    | (Throw e, b') => (Throw e, b')
    end.

Definition try_catchB {A} (m : B A) (h : Exn -> B A) : B A :=
  fun b =>
    match m b with
    | (Ok a, b') => (Ok a, b')
    | (Throw e, b') => h e b'
    end.

(** An operation on the [World], run in the browser. *)
Definition in_world {A} (m : M A) : B A :=
  fun b =>
    match m (world b) with
    | (r, w') =>
        (r, {| world := w';
               session_data := session_data b;
               sessionStorage := sessionStorage b;
               signingKey := signingKey b |})
    end.

Declare Scope browser_scope.
Delimit Scope browser_scope with browser.
Notation "x <- m ;; k" := (bindB m (fun x => k))
  (at level 100, m at next level, right associativity) : browser_scope.
Notation "m ;;; k" := (bindB m (fun _ => k))
  (at level 100, right associativity) : browser_scope.

Definition with_session_data
    (f : gmap jsstring SessionDataRecord -> gmap jsstring SessionDataRecord)
    (b : Browser) : Browser :=
  {| world := world b;
     session_data := f (session_data b);
     sessionStorage := sessionStorage b;
     signingKey := signingKey b |}.

(** [db.put('session-data', record)], [db.get], [db.delete],
    [db.clear] on the store [session-data]. *)
Definition session_put (record : SessionDataRecord) : B unit :=
  fun b => (Ok tt, with_session_data (insert (sess_id record) record) b).
Definition session_get (key : jsstring) : B (option SessionDataRecord) :=
  fun b => (Ok (session_data b !! key), b).
Definition session_delete (key : jsstring) : B unit :=
  fun b => (Ok tt, with_session_data (delete key) b).
Definition session_clear : B unit :=
  fun b => (Ok tt, with_session_data (fun _ => ∅) b).

(** The order of IndexedDB keys on strings: by code units. *)
Fixpoint string_leb (s t : jsstring) : bool :=
  match s, t with
  | [], _ => true
  | _ :: _, [] => false
  | c :: s', d :: t' => (c <? d)%N || ((c =? d)%N && string_leb s' t')
  end.

(** The index [expiresAt] of the store: the records whose [expiresAt]
    is a number (a record without one is not in the index), by
    ascending [expiresAt], then by ascending primary key. *)
Definition in_index (entry : jsstring * SessionDataRecord) : bool :=
  match sess_expiresAt (snd entry) with
  | Some _ => true
  | None => false
  end.

Definition index_leb (x y : jsstring * SessionDataRecord) : bool :=
  match sess_expiresAt (snd x), sess_expiresAt (snd y) with
  | Some a, Some b => (a <? b)%Z || ((a =? b)%Z && string_leb (fst x) (fst y))
  | _, _ => true
  end.

Definition index_expiresAt (store : gmap jsstring SessionDataRecord)
    : list (jsstring * SessionDataRecord) :=
  merge_sort (fun x y => Is_true (index_leb x y))
    (List.filter in_index (map_to_list store)).

(** [index.openCursor()]: the entries of the index the cursor will
    visit, in order. *)
Definition openCursor_expiresAt : B (list (jsstring * SessionDataRecord)) :=
  fun b => (Ok (index_expiresAt (session_data b)), b).

(** The truth value of a number: [0] is false. *)
Definition truthy (z : Z) : bool := negb (z =? 0)%Z.

(** [JSON.stringify] and [JSON.parse] for the values [any] that the
    application keeps.  [JSON.stringify] returns [undefined] ([None])
    for a value that has no JSON text, and may throw (a cyclic
    object); [JSON.parse] throws a [SyntaxError] on what is no JSON
    text. *)
Record JsonLib (any : Type) : Type := {
  JSON_stringify : any -> Result (option jsstring);
  JSON_parse : jsstring -> Result any
}.
Arguments JSON_stringify {any} _ _.
Arguments JSON_parse {any} _ _.

(** [window.sessionStorage] and the state of the component. *)
Definition sessionStorage_setItem (key value : jsstring) : B unit :=
  fun b =>
    (Ok tt,
     {| world := world b;
        session_data := session_data b;
        sessionStorage := <[key := value]> (sessionStorage b);
        signingKey := signingKey b |}).

(** [sessionStorage.getItem(key)]: [None] is [null]. *)
Definition sessionStorage_getItem (key : jsstring) : B (option jsstring) :=
  fun b => (Ok (sessionStorage b !! key), b).

(** [setSigningKey(key)] *)
Definition setSigningKey (key : option bytes) : B unit :=
  fun b =>
    (Ok tt,
     {| world := world b;
        session_data := session_data b;
        sessionStorage := sessionStorage b;
        signingKey := key |}).

(** ** keyStorage.ts, the session data *)
Module KeyStorageSession.
Local Open Scope browser_scope.

Section WithJson.
Context {any : Type} (J : JsonLib any).

Definition storeSessionData (key : jsstring) (data : any)
    (expiresIn : option Z) : B unit :=
  try_catchB
    (text <- in_world (liftR (JSON_stringify J data)) ;;
     timestamp <- in_world Date_now ;;
     expiresAt <-
       match expiresIn with
       | Some expiresIn =>
           if truthy expiresIn then
             (now <- in_world Date_now ;; retB (Some (now + expiresIn)%Z))
           else retB None
       | None => retB None
       end ;;
     let record :=
       {| sess_id := key; sess_data := text; sess_timestamp := timestamp;
          sess_expiresAt := expiresAt |} in
     in_world openDB ;;;
     session_put record)
    (fun error =>
       in_world (console_error (str "Failed to store session data:") error) ;;;
       throwB (Error "Failed to store session data")).

(** [null] is [None]; [JSON.parse] of a record without text parses the
    text [undefined]. *)
Definition getSessionData (key : jsstring) : B (option any) :=
  try_catchB
    (in_world openDB ;;;
     record <- session_get key ;;
     match record with
     | None => retB None
     | Some record =>
         expired <-
           match sess_expiresAt record with
           | Some expiresAt =>
               if truthy expiresAt then
                 (now <- in_world Date_now ;; retB (expiresAt <? now)%Z)
               else retB false
           | None => retB false
           end ;;
         if expired then
           session_delete key ;;;
           retB None
         else
           value <- in_world (liftR (JSON_parse J
                                (default (str "undefined") (sess_data record)))) ;;
           retB (Some value)
     end)
    (fun error =>
       in_world (console_error (str "Failed to retrieve session data:") error) ;;;
       retB None).

End WithJson.

Definition deleteSessionData (key : jsstring) : B unit :=
  try_catchB
    (in_world openDB ;;; session_delete key)
    (fun error =>
       in_world (console_error (str "Failed to delete session data:") error)).

Definition clearAllSessionData : B unit :=
  try_catchB
    (in_world openDB ;;; session_clear)
    (fun error =>
       in_world (console_error (str "Failed to clear session data:") error)).

(** The loop over the cursor: [cursor.delete()] removes the record at
    the cursor's primary key, [cursor.continue()] moves on. *)
Fixpoint cursor_loop (now : Z) (cursor : list (jsstring * SessionDataRecord))
    : B unit :=
  match cursor with
  | [] => retB tt
  | (primaryKey, value) :: rest =>
      (match sess_expiresAt value with
       | Some expiresAt =>
           if truthy expiresAt && (expiresAt <? now)%Z
           then session_delete primaryKey
           else retB tt
       | None => retB tt
       end) ;;;
      cursor_loop now rest
  end.

Definition cleanupExpiredSessions : B unit :=
  try_catchB
    (in_world openDB ;;;
     now <- in_world Date_now ;;
     cursor <- openCursor_expiresAt ;;
     cursor_loop now cursor)
    (fun error =>
       in_world
         (console_error (str "Failed to cleanup expired sessions:") error)).

End KeyStorageSession.

(** ** PasskeyAuth.tsx, the helpers around the vault *)

(** An operation that may still be running: [None] after the steps it
    was given (the key derivation has no bound). *)
Definition K (A : Type) : Type := Browser -> option (Result A * Browser).

Definition finished {A} (m : B A) : K A := fun b => Some (m b).

(** The value of a derivation, once it has returned. *)
Definition awaited {A} (o : option A) : K A :=
  fun b =>
    match o with
    | Some a => Some (Ok a, b)
    | None => None
    end.

Definition bindK {A C} (m : K A) (k : A -> K C) : K C :=
  fun b =>
    match m b with
    | Some (Ok a, b') => k a b'
    | Some (Throw e, b') => Some (Throw e, b')
    | None => None
    end.

Definition try_catchK {A} (m : K A) (h : Exn -> K A) : K A :=
  fun b =>
    match m b with
    | Some (Ok a, b') => Some (Ok a, b')
    | Some (Throw e, b') => h e b'
    | None => None
    end.

Declare Scope task_scope.
Delimit Scope task_scope with task.
Notation "x <- m ;; k" := (bindK m (fun x => k))
  (at level 100, m at next level, right associativity) : task_scope.
Notation "m ;;; k" := (bindK m (fun _ => k))
  (at level 100, right associativity) : task_scope.

Module PasskeyAuth.
Local Open Scope task_scope.

(** [`key-password-${credentialId}`] *)
Definition password_item (credentialId : jsstring) : jsstring :=
  str "key-password-" ++ credentialId.

(** [fuel] bounds the loop of the key derivation, as in
    [KeyDerivation.deriveSigningKey]. *)
Definition deriveAndStoreKey (L : CryptoLib) (fuel : nat)
    (credentialId userId : jsstring) : K unit :=
  try_catchK
    (privateKey <-
       awaited (KeyDerivation.deriveSigningKey L fuel credentialId userId None) ;;
     encryptionPassword <- finished (in_world (Encryption.generatePassword 32)) ;;
     finished
       (in_world
          (KeyStorage.storeKey L credentialId privateKey encryptionPassword
             (Some {| meta_userId := userId;
                      meta_credentialId := credentialId |}))) ;;;
     finished
       (sessionStorage_setItem (password_item credentialId)
          encryptionPassword) ;;;
     finished (setSigningKey (Some privateKey)))
    (fun err =>
       finished
         (in_world
            (console_error (str "Error deriving and storing key:") err)) ;;;
       finished (throwB (Error "Failed to derive signing key"))).

(** [!encryptionPassword] holds for [null] and for the empty string;
    [!privateKey] holds for [null] only. *)
Definition loadSigningKey (L : CryptoLib) (fuel : nat)
    (credentialId userId : jsstring) : K unit :=
  try_catchK
    (encryptionPassword <-
       finished (sessionStorage_getItem (password_item credentialId)) ;;
     match encryptionPassword with
     | None | Some [] => deriveAndStoreKey L fuel credentialId userId
     | Some encryptionPassword =>
         privateKey <-
           finished
             (in_world
                (KeyStorage.retrieveKey L credentialId encryptionPassword)) ;;
         match privateKey with
         | None => deriveAndStoreKey L fuel credentialId userId
         | Some privateKey => finished (setSigningKey (Some privateKey))
         end
     end)
    (fun err =>
       finished
         (in_world (console_error (str "Error loading signing key:") err)) ;;;
       finished (throwB (Error "Failed to load signing key"))).

End PasskeyAuth.

(** ** Notions used in the statements about the session store *)

(** The [expiresAt] that [storeSessionData] writes at time [now]. *)
Definition session_deadline (expiresIn : option Z) (now : Z) : option Z :=
  match expiresIn with
  | Some e => if truthy e then Some (now + e)%Z else None
  | None => None
  end.

(** The test of [getSessionData] and [cleanupExpiredSessions] on the
    [expiresAt] of a record. *)
Definition session_expired (expiresAt : option Z) (now : Z) : bool :=
  match expiresAt with
  | Some x => truthy x && (x <? now)%Z
  | None => false
  end.

(** The browser after a line on the console. *)
Definition logged (label : jsstring) (e : Exn) (b : Browser) : Browser :=
  snd (in_world (console_error label e) b).

(** A browser to run examples in: the example world, nothing stored. *)
Definition example_browser (seed : Z) (now : Z) : Browser :=
  {| world := example_world seed now;
     session_data := ∅;
     sessionStorage := ∅;
     signingKey := None |}.

Definition offline_browser (seed : Z) (now : Z) : Browser :=
  {| world := offline_world seed now;
     session_data := ∅;
     sessionStorage := ∅;
     signingKey := None |}.

(** The same browser at another time. *)
Definition at_time (now : Z) (b : Browser) : Browser :=
  {| world :=
       {| random_source := random_source (world b);
          clock := now;
          idb_available := idb_available (world b);
          signing_keys := signing_keys (world b);
          console := console (world b) |};
     session_data := session_data b;
     sessionStorage := sessionStorage b;
     signingKey := signingKey b |}.

(** A JSON library to run examples with: the values are the integers,
    written in decimal, and [undefined] ([None]), which has no text.
    Texts of other JSON values are not values of this type: they are
    answered like texts that are no JSON. *)
Definition is_json_whitespace (c : code_unit) : bool :=
  ((c =? 9) || (c =? 10) || (c =? 13) || (c =? 32))%N.

Fixpoint dropWhile_ws (s : jsstring) : jsstring :=
  match s with
  | c :: s' => if is_json_whitespace c then dropWhile_ws s' else s
  | [] => []
  end.

Fixpoint decimal_digits_value (acc : Z) (s : jsstring) : option Z :=
  match s with
  | [] => Some acc
  | c :: s' =>
      if ((48 <=? c) && (c <=? 57))%N
      then decimal_digits_value (acc * 10 + (Z.of_N c - 48))%Z s'
      else None
  end.

Definition json_natural (s : jsstring) : option Z :=
  match s with
  | [] => None
  | [48%N] => Some 0%Z
  | 48%N :: _ => None
  | _ => decimal_digits_value 0 s
  end.

Definition json_integer (s : jsstring) : option Z :=
  let t := dropWhile_ws (rev (dropWhile_ws (rev s))) in
  match t with
  | 45%N :: t' => option_map Z.opp (json_natural t')
  | _ => json_natural t
  end.

Definition IntJson : JsonLib (option Z) :=
  {| JSON_stringify := fun v => Ok (option_map (toString 10) v);
     JSON_parse := fun s =>
       match json_integer s with
       | Some z => Ok (Some z)
       | None => Throw SyntaxError
       end |}.

(** A session entry for the examples: the value 42 under the key
    [challenge], stored at time 5000. *)
Definition fixture_session_key : jsstring := str "challenge".

Definition session_browser (expiresIn : option Z) : Browser :=
  snd (KeyStorageSession.storeSessionData IntJson fixture_session_key
         (Some 42%Z) expiresIn (example_browser 0 5000)).

(** ** Notions used in the statements about the component *)

(** The browser with another world. *)
Definition set_world (w : World) (b : Browser) : Browser :=
  {| world := w;
     session_data := session_data b;
     sessionStorage := sessionStorage b;
     signingKey := signingKey b |}.

(** The password that [generatePassword()] returns in the world [w]:
    the base64 text of the next 32 random bytes. *)
Definition generated_password (w : World) : jsstring :=
  match fst (Encryption.generatePassword 32 w) with
  | Ok password => password
  | Throw _ => []
  end.

(** ** The server routes: the transports of a credential *)

(** [arr.join(sep)] on an array of strings. *)
Fixpoint join (sep : jsstring) (xs : list jsstring) : jsstring :=
  match xs with
  | [] => []
  | x :: rest =>
      match rest with
      | [] => x
      | _ :: _ => x ++ sep ++ join sep rest
      end
  end.

(** [s.split(sep)] for a separator of one character: the pieces between
    the separators; the empty string has one piece, the empty one. *)
Fixpoint split (sep : code_unit) (s : jsstring) : list jsstring :=
  match s with
  | [] => [[]]
  | c :: s' =>
      if (c =? sep)%N then [] :: split sep s'
      else
        match split sep s' with
        | piece :: pieces => (c :: piece) :: pieces
        | [] => [[c]]
        end
  end.

(** [arr.filter(Boolean)] on an array of strings: the empty strings are
    dropped. *)
Definition filter_Boolean (xs : list jsstring) : list jsstring :=
  List.filter (fun x => match x with [] => false | _ :: _ => true end) xs.

(** [a || b] on strings that may be [undefined]: [a] unless it is
    [undefined] or empty. *)
Definition or_else (a b : option jsstring) : option jsstring :=
  match a with
  | Some (_ :: _) => a
  | _ => b
  end.

(** register/verify/route.ts: the text stored with the credential,
    [verifiedCredential.transports?.join(',') ||
     credential.response.transports?.join(',') || ''].  [None] is a
    list that is [undefined]. *)
Module RegisterVerify.

Definition transports (verifiedTransports responseTransports
                       : option (list jsstring)) : jsstring :=
  default []
    (or_else
       (or_else (option_map (join (str ",")) verifiedTransports)
                (option_map (join (str ",")) responseTransports))
       (Some [])).

End RegisterVerify.

(** authenticate/options/route.ts, authenticate/verify/route.ts and
    register/options/route.ts: the list read back,
    [cred.transports.split(',').filter(Boolean)]. *)
Module AuthenticateOptions.

Definition transports (stored : jsstring) : list jsstring :=
  filter_Boolean (split 44%N stored).

End AuthenticateOptions.

(** The name of a transport: not empty, no comma. *)
Definition is_transport_name (t : jsstring) : Prop :=
  t <> [] /\ ~ In 44%N t.

(* ================================================================== *)
(** * 6a. The reference primitives on the test vectors of the standards *)
(* ================================================================== *)

Section KnownAnswers.

(** FIPS 180-4, the one-block message [abc]. *)
Example sha256_abc :
  hex_of_bytes (SHA256.digest (TextEncoder_encode (str "abc")))
  = str "ba7816bf8f01cfea414140de5dae2223b00361a396177a9cb410ff61f20015ad".
Proof. vm_compute. reflexivity. Qed.

(** FIPS 180-4, the two-block message. *)
Example sha256_two_blocks :
  hex_of_bytes
    (SHA256.digest
       (TextEncoder_encode
          (str "abcdbcdecdefdefgefghfghighijhijkijkljklmklmnlmnomnopnopq")))
  = str "248d6a61d20638b8e5c026930c3e6039a33ce45964ff2167f6ecedd419db06c1".
Proof. vm_compute. reflexivity. Qed.

(** RFC 5869, test case 1. *)
Example hkdf_rfc5869_case1 :
  hex_of_bytes
    (HKDF.hkdf SHA256.digest
       (bytes_of_hex (str "0b0b0b0b0b0b0b0b0b0b0b0b0b0b0b0b0b0b0b0b0b0b"))
       (Some (bytes_of_hex (str "000102030405060708090a0b0c")))
       (bytes_of_hex (str "f0f1f2f3f4f5f6f7f8f9")) 42)
  = str "3cb25f25faacd57a90434f64d0362f2a2d2d0a90cf1a5a4c5db02d56ecc4c5bf34007208d5b887185865".
Proof. vm_compute. reflexivity. Qed.

(** The generator is the public key of the secret key 1. *)
Example secp256k1_generator :
  Secp256k1.getPublicKey (numberToBytesBE 1 32) true
  = Ok (bytes_of_hex
          (str "0279be667ef9dcbbac55a06295ce870b07029bfcdb2dce28d959f2815b16f81798")).
Proof. vm_compute. reflexivity. Qed.

(** RFC 6979 signing with the secret key 1 of the SHA-256 digest of
    [Satoshi Nakamoto], a test vector shared by secp256k1 libraries. *)
Example secp256k1_rfc6979 :
  Secp256k1.sign
    (SHA256.digest (TextEncoder_encode (str "Satoshi Nakamoto")))
    (numberToBytesBE 1 32) true None
  = Ok (bytes_of_hex
          (str "01934b1ea10a4b3c1757e2b0c017d0b6143ce3c9a7e6a4a49860d7a6ab210ee3d82442ce9d2b916064108014783e923ec36b49743e2ffa1c4496f01a512aafd9e5")).
Proof. vm_compute. reflexivity. Qed.

(** Recovery gives the signer's public key back. *)
Example secp256k1_recover :
  Secp256k1.recover (x01 :: fixture_rs)
    (message_digest RefLib fixture_message)
  = Ok fixture_publicKey.
Proof. vm_compute. reflexivity. Qed.

(** FIPS 197, appendix C.3 (AES-256). *)
Example aes256_fips197 :
  AESGCM.cipher
    (AESGCM.round_keys
       (bytes_of_hex
          (str "000102030405060708090a0b0c0d0e0f101112131415161718191a1b1c1d1e1f")))
    (bytes_of_hex (str "00112233445566778899aabbccddeeff"))
  = bytes_of_hex (str "8ea2b7ca516745bfeafc49904b496089").
Proof. vm_compute. reflexivity. Qed.

(** The GCM specification, test case 15 (AES-256, 96-bit nonce). *)
Example aes256_gcm_case15 :
  AESGCM.encrypt
    (bytes_of_hex
       (str "feffe9928665731c6d6a8f9467308308feffe9928665731c6d6a8f9467308308"))
    (bytes_of_hex (str "cafebabefacedbaddecaf888"))
    (bytes_of_hex
       (str "d9313225f88406e5a55909c5aff5269a86a7a9531534f7da2e4c303d8a318a721c3c0c95956809532fcf0e2449a6b525b16aedf5aa0de657ba637b391aafd255"))
  = Ok (bytes_of_hex
          (str "522dc1f099567d07f47f37a32a84427d643a8cdcbfe5c0c97598a2bd2555d1aa8cb08e48590dbb3da7b08b1056828838c5f61e6393ba7a0abcc9f662898015adb094dac5d93471bdec1a502270e3cc6c")).
Proof. vm_compute. reflexivity. Qed.

(** A ciphertext with one bit flipped does not authenticate. *)
Example aes256_gcm_tamper :
  AESGCM.decrypt (repeat x00 32) (repeat x00 12)
    (bytes_of_hex
       (str "cea7403d4d606b6e074ec5d3baf39d18d0d1c8a799996bf0265b98b5d48ab918"))
  = Throw (DOMException "OperationError")
  /\ AESGCM.decrypt (repeat x00 32) (repeat x00 12)
       (bytes_of_hex
          (str "cea7403d4d606b6e074ec5d3baf39d18d0d1c8a799996bf0265b98b5d48ab919"))
     = Ok (repeat x00 16).
Proof. split; vm_compute; reflexivity. Qed.

(** The fixture of the specification: the derived key, its public key
    and the signature of [Hello World]. *)
Example fixture_values :
  KeyDerivation.deriveSigningKey RefLib 1 fixture_credentialId fixture_userId
    None = Some fixture_key
  /\ KeyDerivation.getPublicKey RefLib fixture_key = Ok fixture_publicKey
  /\ fst (MessageSigner.signMessage RefLib fixture_message fixture_key
            (example_world 0 0)) = Ok fixture_signature.
Proof. repeat apply conj; vm_compute; reflexivity. Qed.

(** The message hash of the fixture is the SHA-256 digest of the
    prefixed buffer, not its Keccak-256 digest
    [a1de9886...bb3b78f2], which is what Ethereum tooling signs. *)
Example fixture_digest :
  hex_of_bytes (message_digest RefLib fixture_message)
  = str "0c97d6a2fce887bfc0ee0f890e5597978fb20de9e666338a6075328c8bb739bb"
  /\ hex_of_bytes (message_digest RefLib fixture_message)
     <> str "a1de988600a42c4b4ab089b619297c17d53cffae5d5120d82d8a92d0bb3b78f2".
Proof. split; vm_compute; [reflexivity | discriminate]. Qed.

(** On real SHA-256 the loop does re-hash: 32 zero bytes are no valid
    scalar, their digest is one. *)
Example ensureValidPrivateKey_rehashes_once :
  KeyDerivation.ensureValidPrivateKey RefLib 1 (repeat x00 32) = None
  /\ KeyDerivation.ensureValidPrivateKey RefLib 2 (repeat x00 32)
     = Some (SHA256.digest (repeat x00 32)).
Proof. split; vm_compute; reflexivity. Qed.

(** Where the code does draw random bytes the world matters:
    [encrypt] gives different salts in worlds with different random
    sources, and so would [signAsync] asked for extra entropy. *)
Example entropy_reaches_encrypt_and_hedged_signatures :
  fst (Encryption.encrypt RefLib fixture_key password_one (example_world 0 0))
  <> fst (Encryption.encrypt RefLib fixture_key password_one (example_world 1 0))
  /\ fst (signAsync RefLib (message_digest RefLib fixture_message) fixture_key
            {| opt_prehash := Some false; opt_lowS := None;
               opt_format := Some Recovered; opt_extraEntropy := Some true |}
            (example_world 0 0))
     <> fst (signAsync RefLib (message_digest RefLib fixture_message) fixture_key
               {| opt_prehash := Some false; opt_lowS := None;
                  opt_format := Some Recovered; opt_extraEntropy := Some true |}
               (example_world 1 0)).
Proof. split; vm_compute; discriminate. Qed.

End KnownAnswers.

(* ================================================================== *)
(** * 7. Bytes, digits and text                                         *)
(* ================================================================== *)

Section Bytes.
Local Open Scope Z_scope.

Lemma byte_to_Z_range (b : byte) : 0 <= byte_to_Z b < 256.
Proof.
  unfold byte_to_Z. pose proof (Byte.to_N_bounded b). lia.
Qed.

Lemma byte_of_to_Z (b : byte) : byte_of_Z (byte_to_Z b) = b.
Proof.
  unfold byte_of_Z.
  rewrite Z.mod_small by apply byte_to_Z_range.
  unfold byte_to_Z. rewrite N2Z.id, Byte.of_to_N. reflexivity.
Qed.

Lemma byte_to_of_Z (z : Z) : byte_to_Z (byte_of_Z z) = z mod 256.
Proof.
  unfold byte_of_Z, byte_to_Z.
  pose proof (Z.mod_pos_bound z 256 eq_refl) as Hz.
  destruct (Byte.of_N (Z.to_N (z mod 256))) as [b|] eqn:E.
  - apply Byte.to_of_N in E. rewrite E. lia.
  - apply Byte.of_N_None_iff in E. lia.
Qed.

Lemma byte_to_Z_inj (a b : byte) : byte_to_Z a = byte_to_Z b -> a = b.
Proof.
  intros H. rewrite <- (byte_of_to_Z a), <- (byte_of_to_Z b), H. reflexivity.
Qed.

(** The big-endian value, one byte at a time from the right. *)
Lemma fold_BE_acc (bs : bytes) (acc : Z) :
  fold_left (fun a b => a * 256 + byte_to_Z b) bs acc
  = acc * 256 ^ Z.of_nat (length bs) + bytesToNumberBE bs.
Proof.
  unfold bytesToNumberBE. revert acc.
  induction bs as [|b bs IH]; intros acc; simpl fold_left.
  - simpl. lia.
  - rewrite IH, (IH (0 * 256 + byte_to_Z b)).
    replace (Z.of_nat (length (b :: bs))) with (Z.succ (Z.of_nat (length bs)))
      by (simpl length; lia).
    rewrite Z.pow_succ_r by lia. ring.
Qed.

Lemma bytesToNumberBE_cons (b : byte) (bs : bytes) :
  bytesToNumberBE (b :: bs)
  = byte_to_Z b * 256 ^ Z.of_nat (length bs) + bytesToNumberBE bs.
Proof.
  unfold bytesToNumberBE at 1. simpl fold_left. rewrite fold_BE_acc. ring.
Qed.

Lemma bytesToNumberBE_snoc (bs : bytes) (b : byte) :
  bytesToNumberBE (bs ++ [b]) = bytesToNumberBE bs * 256 + byte_to_Z b.
Proof.
  unfold bytesToNumberBE. rewrite fold_left_app. reflexivity.
Qed.

Lemma bytesToNumberBE_range (bs : bytes) :
  0 <= bytesToNumberBE bs < 256 ^ Z.of_nat (length bs).
Proof.
  induction bs as [|b bs IH].
  - cbn. lia.
  - rewrite bytesToNumberBE_cons.
    replace (Z.of_nat (length (b :: bs))) with (Z.succ (Z.of_nat (length bs)))
      by (simpl length; lia).
    rewrite Z.pow_succ_r by lia.
    pose proof (byte_to_Z_range b). nia.
Qed.

Lemma length_numberToBytesBE (n : Z) (len : nat) :
  length (numberToBytesBE n len) = len.
Proof. induction len; simpl; congruence. Qed.

Lemma div_mod_unique (b x y x' y' : Z) :
  0 <= x < b -> 0 <= x' < b -> x + b * y = x' + b * y' -> x = x' /\ y = y'.
Proof.
  intros Hx Hx' H.
  assert (y = y').
  { assert (E : (x + b * y) / b = (x' + b * y') / b) by (rewrite H; reflexivity).
    rewrite !(Z.mul_comm b), !Z.div_add, !Z.div_small in E by lia. lia. }
  subst y'. lia.
Qed.

Lemma numberToBytesBE_mod (n m : Z) (len : nat) :
  n mod 256 ^ Z.of_nat len = m mod 256 ^ Z.of_nat len ->
  numberToBytesBE n len = numberToBytesBE m len.
Proof.
  revert n m. induction len as [|k IH]; intros n m H; [reflexivity|].
  cbn [numberToBytesBE].
  replace (Z.of_nat (S k)) with (Z.succ (Z.of_nat k)) in H by lia.
  rewrite Z.pow_succ_r in H by lia.
  assert (Hp : 0 < 256 ^ Z.of_nat k) by (apply Z.pow_pos_nonneg; lia).
  rewrite <- (Z.mul_comm (256 ^ Z.of_nat k)) in H.
  rewrite !Z.rem_mul_r in H by lia.
  apply div_mod_unique in H; try (apply Z.mod_pos_bound; lia).
  destruct H as [H1 H2].
  f_equal.
  - unfold byte_of_Z. rewrite H2. reflexivity.
  - apply IH, H1.
Qed.

(** [numberToBytesBE] inverts [bytesToNumberBE] on the same length. *)
Lemma numberToBytesBE_bytesToNumberBE (bs : bytes) :
  numberToBytesBE (bytesToNumberBE bs) (length bs) = bs.
Proof.
  induction bs as [|b bs IH]; [reflexivity|].
  cbn [length numberToBytesBE].
  rewrite bytesToNumberBE_cons.
  pose proof (bytesToNumberBE_range bs) as Hr.
  assert (Hp : 0 < 256 ^ Z.of_nat (length bs)) by (apply Z.pow_pos_nonneg; lia).
  f_equal.
  - rewrite Z.div_add_l by lia. rewrite Z.div_small by lia.
    rewrite Z.add_0_r. apply byte_of_to_Z.
  - etransitivity; [|exact IH]. apply numberToBytesBE_mod.
    rewrite Z.add_comm, Z.mod_add by lia. reflexivity.
Qed.

End Bytes.

Section Digits.
Local Open Scope Z_scope.

Lemma length_fixed_le (base : Z) (k : nat) (n : Z) :
  length (fixed_le base k n) = k.
Proof. revert n. induction k; intros; simpl; auto. Qed.

Lemma fixed_le_zero (base : Z) (k : nat) :
  1 < base -> fixed_le base k 0 = repeat 0 k.
Proof.
  intros Hb. induction k as [|k IH]; [reflexivity|].
  cbn [fixed_le repeat]. rewrite Z.mod_0_l, Z.div_0_l by lia.
  f_equal. exact IH.
Qed.

Lemma fixed_le_range (base : Z) (k : nat) (n : Z) :
  1 < base -> Forall (fun d => 0 <= d < base) (fixed_le base k n).
Proof.
  intros Hb. revert n. induction k as [|k IH]; intros n; cbn [fixed_le].
  - constructor.
  - constructor; [apply Z.mod_pos_bound; lia | apply IH].
Qed.

(** The digits [toString] produces are those on [k] positions, with
    the leading zeros removed. *)
Lemma digits_le_fixed (base : Z) (fuel : nat) :
  1 < base ->
  forall (n : Z) (k : nat),
    0 <= n < base ^ Z.of_nat fuel -> n < base ^ Z.of_nat k -> (1 <= k)%nat ->
    (length (digits_le base fuel n) <= k)%nat
    /\ digits_le base fuel n
         ++ repeat 0 (k - length (digits_le base fuel n))
       = fixed_le base k n.
Proof.
  intros Hb. induction fuel as [|f IH]; intros n k Hn Hk Hk1.
  - assert (n = 0) by (simpl in Hn; lia). subst n.
    cbn [digits_le length app]. split; [lia|].
    rewrite Nat.sub_0_r. symmetry. apply fixed_le_zero, Hb.
  - cbn [digits_le]. destruct (n <? base) eqn:E.
    + apply Z.ltb_lt in E. destruct k as [|k']; [lia|].
      cbn [length fixed_le app]. split; [lia|].
      rewrite Z.mod_small, Z.div_small by lia.
      rewrite fixed_le_zero by lia.
      replace (S k' - 1)%nat with k' by lia. reflexivity.
    + apply Z.ltb_ge in E.
      destruct k as [|[|k']]; [lia| |].
      * change (Z.of_nat 1) with 1 in Hk. rewrite Z.pow_1_r in Hk. lia.
      * assert (Hq : 0 <= n / base < base ^ Z.of_nat f).
        { split; [apply Z.div_pos; lia|].
          apply Z.div_lt_upper_bound; [lia|].
          replace (Z.of_nat (S f)) with (Z.succ (Z.of_nat f)) in Hn by lia.
          rewrite Z.pow_succ_r in Hn by lia. lia. }
        assert (Hq' : n / base < base ^ Z.of_nat (S k')).
        { apply Z.div_lt_upper_bound; [lia|].
          replace (Z.of_nat (S (S k'))) with (Z.succ (Z.of_nat (S k'))) in Hk by lia.
          rewrite Z.pow_succ_r in Hk by lia. lia. }
        destruct (IH (n / base) (S k') Hq Hq' ltac:(lia)) as [Hl He].
        split; [cbn [length]; lia|].
        change (fixed_le base (S (S k')) n)
          with (n mod base :: fixed_le base (S k') (n / base)).
        rewrite <- He. cbn [app length]. reflexivity.
Qed.

Lemma digit_fuel_enough (base n : Z) :
  1 < base -> 0 <= n -> n < base ^ Z.of_nat (digit_fuel n).
Proof.
  intros Hb Hn. unfold digit_fuel.
  destruct (Z.eq_dec n 0) as [->|Hne].
  - cbn. lia.
  - pose proof (Z.log2_spec n ltac:(lia)) as [_ Hs].
    pose proof (Z.log2_nonneg n).
    replace (Z.of_nat (S (Z.to_nat (Z.log2 n)))) with (Z.succ (Z.log2 n)) by lia.
    eapply Z.lt_le_trans; [exact Hs|].
    apply Z.pow_le_mono_l. lia.
Qed.

Lemma toString_nonneg (radix n : Z) :
  0 <= n ->
  toString radix n
  = map digit_char (rev (digits_le radix (digit_fuel n) n)).
Proof.
  intros Hn. unfold toString.
  rewrite Z.abs_eq by lia.
  destruct (n <? 0) eqn:E; [apply Z.ltb_lt in E; lia | reflexivity].
Qed.

(** [n.toString(radix).padStart(k, '0')] is [n] on [k] digits. *)
Lemma padStart_toString (radix : Z) (k : nat) (n : Z) :
  1 < radix -> 0 <= n < radix ^ Z.of_nat k -> (1 <= k)%nat ->
  padStart k 48%N (toString radix n)
  = map digit_char (rev (fixed_le radix k n)).
Proof.
  intros Hb Hn Hk. rewrite toString_nonneg by lia.
  destruct (digits_le_fixed radix (digit_fuel n) Hb n k) as [Hl He];
    [split; [lia | apply digit_fuel_enough; lia] | lia | lia |].
  unfold padStart. rewrite <- He.
  rewrite rev_app_distr, map_app, rev_repeat, map_repeat.
  rewrite length_map, length_rev. reflexivity.
Qed.

Lemma padStart_toString_hex (k : nat) (n : Z) :
  0 <= n < 16 ^ Z.of_nat k -> (1 <= k)%nat ->
  padStart k 48%N (toString 16 n) = fixed_hex k n.
Proof. intros. apply padStart_toString; lia. Qed.

Lemma length_fixed_hex (k : nat) (n : Z) : length (fixed_hex k n) = k.
Proof.
  unfold fixed_hex. rewrite length_map, length_rev. apply length_fixed_le.
Qed.

Lemma hex_digit_cases (d : Z) (P : Z -> Prop) :
  0 <= d < 16 ->
  P 0 -> P 1 -> P 2 -> P 3 -> P 4 -> P 5 -> P 6 -> P 7 ->
  P 8 -> P 9 -> P 10 -> P 11 -> P 12 -> P 13 -> P 14 -> P 15 -> P d.
Proof.
  intros Hd. intros.
  assert (d = 0 \/ d = 1 \/ d = 2 \/ d = 3 \/ d = 4 \/ d = 5 \/ d = 6
          \/ d = 7 \/ d = 8 \/ d = 9 \/ d = 10 \/ d = 11 \/ d = 12
          \/ d = 13 \/ d = 14 \/ d = 15) as Hc by lia.
  repeat (destruct Hc as [->|Hc]; [assumption|]). subst d. assumption.
Qed.

Lemma hex_value_digit_char (d : Z) :
  0 <= d < 16 -> hex_value (digit_char d) = Some d.
Proof.
  intros Hd. pattern d. apply hex_digit_cases; [exact Hd|..]; reflexivity.
Qed.

Lemma digit_char_not_whitespace (d : Z) :
  0 <= d < 16 -> is_js_whitespace (digit_char d) = false.
Proof.
  intros Hd. pattern d. apply hex_digit_cases; [exact Hd|..]; reflexivity.
Qed.

Lemma digit_char_lower_hex (d : Z) :
  0 <= d < 16 -> is_lower_hex (digit_char d) = true.
Proof.
  intros Hd. pattern d. apply hex_digit_cases; [exact Hd|..]; reflexivity.
Qed.

Lemma fixed_hex_lower (k : nat) (n : Z) :
  Forall (fun c => is_lower_hex c = true) (fixed_hex k n).
Proof.
  unfold fixed_hex. apply Forall_map, Forall_rev.
  eapply Forall_impl; [apply (fixed_le_range 16 k n); lia|].
  intros d Hd. apply digit_char_lower_hex, Hd.
Qed.

Lemma hex_digits_value_app (acc : Z) (s t : jsstring) :
  hex_digits_value acc (s ++ t)
  = match hex_digits_value acc s with
    | Some v => hex_digits_value v t
    | None => None
    end.
Proof.
  revert acc. induction s as [|c s IH]; intros acc; cbn [app hex_digits_value].
  - reflexivity.
  - destruct (hex_value c); [apply IH | reflexivity].
Qed.

(** Reading back [k] digits gives the number they were written from. *)
Lemma hex_digits_value_fixed_hex (k : nat) (n acc : Z) :
  0 <= n ->
  hex_digits_value acc (fixed_hex k n)
  = Some (acc * 16 ^ Z.of_nat k + n mod 16 ^ Z.of_nat k).
Proof.
  intros Hn. revert n acc Hn. unfold fixed_hex.
  induction k as [|k IH]; intros n acc Hn.
  - cbn. f_equal. rewrite Z.mod_1_r. lia.
  - cbn [fixed_le rev]. rewrite map_app, hex_digits_value_app.
    rewrite IH by (apply Z.div_pos; lia).
    cbn [map hex_digits_value].
    rewrite hex_value_digit_char by (apply Z.mod_pos_bound; lia).
    f_equal.
    replace (Z.of_nat (S k)) with (Z.succ (Z.of_nat k)) by lia.
    rewrite Z.pow_succ_r by lia.
    rewrite (Z.rem_mul_r n 16 (16 ^ Z.of_nat k)) by (try apply Z.pow_nonzero; lia).
    assert (0 < 16 ^ Z.of_nat k) by (apply Z.pow_pos_nonneg; lia).
    ring.
Qed.

Lemma trim_end_fixed_hex (k : nat) (n : Z) :
  trim_end (fixed_hex k n) = fixed_hex k n.
Proof.
  unfold trim_end, fixed_hex.
  rewrite <- map_rev, rev_involutive.
  destruct k as [|k]; [reflexivity|].
  cbn [fixed_le map trim_start].
  rewrite digit_char_not_whitespace by (apply Z.mod_pos_bound; lia).
  cbn [rev]. rewrite map_app. cbn [map]. rewrite map_rev. reflexivity.
Qed.

(** [BigInt('0x' + h)] reads a number written on [k >= 1] digits. *)
Lemma BigInt_0x_fixed_hex (k : nat) (n : Z) :
  (1 <= k)%nat -> 0 <= n < 16 ^ Z.of_nat k ->
  BigInt_0x (fixed_hex k n) = Ok n.
Proof.
  intros Hk Hn. unfold BigInt_0x. rewrite trim_end_fixed_hex.
  destruct (fixed_hex k n) as [|c l] eqn:E.
  - apply (f_equal (@length _)) in E. rewrite length_fixed_hex in E.
    cbn in E. lia.
  - rewrite <- E, hex_digits_value_fixed_hex by lia.
    rewrite Z.mod_small by lia. reflexivity.
Qed.

(** The hexadecimal text of a byte string is its big-endian value on
    two digits per byte. *)
Lemma fixed_hex_bytesToNumberBE (bs : bytes) :
  fixed_hex (2 * length bs) (bytesToNumberBE bs) = hex_of_bytes bs.
Proof.
  unfold fixed_hex, hex_of_bytes.
  induction bs as [|b bs IH] using rev_ind; [reflexivity|].
  rewrite bytesToNumberBE_snoc, length_app. cbn [length].
  replace (2 * (length bs + 1))%nat with (S (S (2 * length bs))) by lia.
  cbn [fixed_le rev].
  pose proof (byte_to_Z_range b) as Hb.
  set (X := bytesToNumberBE bs) in *.
  replace ((X * 256 + byte_to_Z b) mod 16) with (byte_to_Z b mod 16).
  2: { replace (X * 256 + byte_to_Z b) with (byte_to_Z b + (X * 16) * 16) by ring.
       rewrite Z.mod_add by lia. reflexivity. }
  replace ((X * 256 + byte_to_Z b) / 16) with (X * 16 + byte_to_Z b / 16).
  2: { replace (X * 256 + byte_to_Z b) with (byte_to_Z b + (X * 16) * 16) by ring.
       rewrite Z.div_add by lia. ring. }
  replace ((X * 16 + byte_to_Z b / 16) mod 16) with (byte_to_Z b / 16).
  2: { rewrite Z.add_comm, Z.mod_add by lia.
       rewrite Z.mod_small; [reflexivity|].
       split; [apply Z.div_pos; lia | apply Z.div_lt_upper_bound; lia]. }
  replace ((X * 16 + byte_to_Z b / 16) / 16) with X.
  2: { rewrite Z.add_comm, Z.div_add by lia.
       rewrite Z.div_small; [lia|].
       split; [apply Z.div_pos; lia | apply Z.div_lt_upper_bound; lia]. }
  rewrite !map_app, IH, concat_app. cbn [map concat app].
  rewrite <- app_assoc. reflexivity.
Qed.

Lemma length_hex_of_bytes (bs : bytes) :
  length (hex_of_bytes bs) = (2 * length bs)%nat.
Proof.
  rewrite <- fixed_hex_bytesToNumberBE. apply length_fixed_hex.
Qed.

Lemma pow_256_16 (k : nat) : 256 ^ Z.of_nat k = 16 ^ Z.of_nat (2 * k).
Proof.
  replace (Z.of_nat (2 * k)) with (2 * Z.of_nat k) by lia.
  rewrite Z.pow_mul_r by lia. reflexivity.
Qed.

(** A big-endian value formatted by [toString(16).padStart] on two
    digits per byte is the hexadecimal text of the bytes. *)
Lemma padStart_toString_bytes (bs : bytes) :
  (1 <= length bs)%nat ->
  padStart (2 * length bs) 48%N (toString 16 (bytesToNumberBE bs))
  = hex_of_bytes bs.
Proof.
  intros Hl. rewrite padStart_toString_hex.
  - apply fixed_hex_bytesToNumberBE.
  - rewrite <- pow_256_16. apply bytesToNumberBE_range.
  - lia.
Qed.

End Digits.

Section Base64.
Local Open Scope Z_scope.

Lemma list_ind3 {A} (P : list A -> Prop) :
  P [] -> (forall a, P [a]) -> (forall a b, P [a; b]) ->
  (forall a b c l, P l -> P (a :: b :: c :: l)) ->
  forall l, P l.
Proof.
  intros H0 H1 H2 H3 l.
  assert (P l /\ (forall a, P (a :: l)) /\ (forall a b, P (a :: b :: l))) as [H _].
  { induction l as [|x l (IHa & IHb & IHc)]; [auto|].
    split; [apply IHb|]. split; [intros; apply IHc|].
    intros a b. apply H3, IHa. }
  exact H.
Qed.

Lemma sextet_cases (x : Z) (P : Z -> Prop) :
  0 <= x < 64 -> (forall n : nat, (n < 64)%nat -> P (Z.of_nat n)) -> P x.
Proof.
  intros Hx H. rewrite <- (Z2Nat.id x) by lia. apply H. lia.
Qed.

Lemma base64_value_char (x : Z) :
  0 <= x < 64 -> base64_value (base64_char x) = Some x.
Proof.
  intros Hx. pattern x. apply sextet_cases; [exact Hx|].
  intros n Hn. do 64 (destruct n as [|n]; [reflexivity|]). lia.
Qed.

Lemma base64_char_not_whitespace (x : Z) :
  0 <= x < 64 -> is_ascii_whitespace (base64_char x) = false.
Proof.
  intros Hx. pattern x. apply sextet_cases; [exact Hx|].
  intros n Hn. do 64 (destruct n as [|n]; [reflexivity|]). lia.
Qed.

Lemma base64_char_not_pad (x : Z) :
  0 <= x < 64 -> (base64_char x =? 61)%N = false.
Proof.
  intros Hx. pattern x. apply sextet_cases; [exact Hx|].
  intros n Hn. do 64 (destruct n as [|n]; [reflexivity|]). lia.
Qed.

Lemma sextets_of_bytes_range (bs : list Z) :
  Forall is_octet bs -> Forall is_sextet (sextets_of_bytes bs).
Proof.
  unfold is_octet, is_sextet.
  induction bs as [|a|a b|a b c l IH] using list_ind3; intros H;
    cbn [sextets_of_bytes].
  - constructor.
  - inversion_clear H as [|? ? Ha _].
    repeat constructor; Z.div_mod_to_equations; lia.
  - inversion_clear H as [|? ? Ha H']. inversion_clear H' as [|? ? Hb _].
    repeat constructor; Z.div_mod_to_equations; lia.
  - inversion_clear H as [|? ? Ha H']. inversion_clear H' as [|? ? Hb H''].
    inversion_clear H'' as [|? ? Hc Hl].
    repeat (constructor; [Z.div_mod_to_equations; lia|]).
    apply IH, Hl.
Qed.

(** Regrouping the 6-bit groups gives the bytes back. *)
Lemma bytes_of_sextets_of_bytes (bs : list Z) :
  Forall is_octet bs -> bytes_of_sextets (sextets_of_bytes bs) = bs.
Proof.
  unfold is_octet.
  induction bs as [|a|a b|a b c l IH] using list_ind3; intros H;
    cbn [sextets_of_bytes bytes_of_sextets].
  - reflexivity.
  - inversion_clear H as [|? ? Ha _].
    f_equal. Z.div_mod_to_equations; lia.
  - inversion_clear H as [|? ? Ha H']. inversion_clear H' as [|? ? Hb _].
    f_equal; [|f_equal]; Z.div_mod_to_equations; lia.
  - inversion_clear H as [|? ? Ha H']. inversion_clear H' as [|? ? Hb H''].
    inversion_clear H'' as [|? ? Hc Hl].
    rewrite (IH Hl).
    f_equal; [|f_equal; [|f_equal]]; Z.div_mod_to_equations; lia.
Qed.

Lemma length_sextets_of_bytes (bs : list Z) :
  exists q : nat,
    (length bs = 3 * q /\ length (sextets_of_bytes bs) = 4 * q)%nat
    \/ (length bs = 3 * q + 1 /\ length (sextets_of_bytes bs) = 4 * q + 2)%nat
    \/ (length bs = 3 * q + 2 /\ length (sextets_of_bytes bs) = 4 * q + 3)%nat.
Proof.
  induction bs as [|a|a b|a b c l IH] using list_ind3.
  - exists 0%nat. left. split; reflexivity.
  - exists 0%nat. right. left. split; reflexivity.
  - exists 0%nat. right. right. split; reflexivity.
  - destruct IH as [q IH]. exists (S q).
    cbn [sextets_of_bytes length]. lia.
Qed.

Lemma base64_values_chars (ss : list Z) :
  Forall is_sextet ss -> base64_values (map base64_char ss) = Some ss.
Proof.
  induction 1 as [|s ss Hs _ IH]; [reflexivity|].
  cbn [map base64_values]. rewrite (base64_value_char s Hs), IH. reflexivity.
Qed.

Lemma filter_whitespace_chars (ss : list Z) (pad : jsstring) :
  Forall is_sextet ss ->
  Forall (fun c => c = 61%N) pad ->
  List.filter (fun c => negb (is_ascii_whitespace c)) (map base64_char ss ++ pad)
  = map base64_char ss ++ pad.
Proof.
  intros Hs Hp.
  induction Hs as [|s ss Hs _ IH]; cbn [map app List.filter].
  - induction Hp as [|c pad -> _ IH]; [reflexivity|].
    cbn [List.filter]. cbn. f_equal. exact IH.
  - rewrite (base64_char_not_whitespace s Hs). cbn [negb]. f_equal. exact IH.
Qed.

Lemma base64_padding_spec (n : nat) :
  Forall (fun c => c = 61%N) (base64_padding n).
Proof.
  unfold base64_padding. destruct (n mod 3)%nat as [|[|[|]]]; repeat constructor.
Qed.

(** Removing the padding of an encoded string leaves its characters. *)
Lemma strip_padding_encoded (bs : list Z) :
  Forall is_octet bs ->
  strip_padding (map base64_char (sextets_of_bytes bs)
                   ++ base64_padding (length bs))
  = map base64_char (sextets_of_bytes bs).
Proof.
  intros Hb. pose proof (sextets_of_bytes_range bs Hb) as Hs.
  set (ss := sextets_of_bytes bs) in *.
  assert (Hlast : forall cs, rev (map base64_char ss) = cs ->
            match cs with
            | a :: _ => (a =? 61)%N = false
            | [] => True
            end).
  { intros cs <-. rewrite <- map_rev.
    apply Forall_rev in Hs. destruct Hs as [|s r Hs _]; [exact I|].
    cbn [map]. apply base64_char_not_pad, Hs. }
  destruct (length_sextets_of_bytes bs) as [q [[Hl Hq]|[[Hl Hq]|[Hl Hq]]]];
    fold ss in Hq; unfold strip_padding, base64_padding;
    rewrite length_app, length_map, Hq, Hl.
  - replace (3 * q)%nat with (0 + q * 3)%nat by lia.
    rewrite Nat.Div0.mod_add. change (0 mod 3)%nat with 0%nat.
    cbv iota. cbn [length].
    replace (4 * q + 0)%nat with (0 + q * 4)%nat by lia.
    rewrite Nat.Div0.mod_add. change (0 mod 4 =? 0)%nat with true. cbv iota.
    rewrite app_nil_r.
    specialize (Hlast _ eq_refl).
    destruct (rev (map base64_char ss)) as [|a r]; [reflexivity|].
    rewrite Hlast. reflexivity.
  - replace (3 * q + 1)%nat with (1 + q * 3)%nat by lia.
    rewrite Nat.Div0.mod_add. change (1 mod 3)%nat with 1%nat.
    cbv iota. cbn [length].
    replace (4 * q + 2 + 2)%nat with (0 + (q + 1) * 4)%nat by lia.
    rewrite Nat.Div0.mod_add. change (0 mod 4 =? 0)%nat with true. cbv iota.
    rewrite rev_app_distr. cbn [rev app].
    change (61 =? 61)%N with true. cbv iota.
    apply rev_involutive.
  - replace (3 * q + 2)%nat with (2 + q * 3)%nat by lia.
    rewrite Nat.Div0.mod_add. change (2 mod 3)%nat with 2%nat.
    cbv iota. cbn [length].
    replace (4 * q + 3 + 1)%nat with (0 + (q + 1) * 4)%nat by lia.
    rewrite Nat.Div0.mod_add. change (0 mod 4 =? 0)%nat with true. cbv iota.
    rewrite rev_app_distr. cbn [rev app].
    change (61 =? 61)%N with true. cbv iota.
    specialize (Hlast _ eq_refl).
    destruct (rev (map base64_char ss)) as [|a r] eqn:E.
    + apply (f_equal (@length _)) in E.
      rewrite length_rev, length_map, Hq in E. cbn in E. lia.
    + rewrite Hlast, <- E. apply rev_involutive.
Qed.

(** [atob] inverts [btoa]. *)
Lemma atob_btoa (s r : jsstring) : btoa s = Ok r -> atob r = Ok s.
Proof.
  unfold btoa.
  destruct (forallb (fun c => (c <=? 255)%N) s) eqn:Hall; [|discriminate].
  intros E. injection E as <-.
  assert (Hb : Forall is_octet (map Z.of_N s)).
  { apply Forall_map. rewrite forallb_forall in Hall.
    apply List.Forall_forall. intros c Hc. apply Hall in Hc.
    apply N.leb_le in Hc. unfold is_octet. lia. }
  pose proof (sextets_of_bytes_range _ Hb) as Hs.
  unfold atob.
  replace (base64_padding (length s))
    with (base64_padding (length (map Z.of_N s)))
    by (rewrite length_map; reflexivity).
  rewrite filter_whitespace_chars by (auto using base64_padding_spec).
  rewrite strip_padding_encoded by exact Hb.
  rewrite length_map.
  destruct (length_sextets_of_bytes (map Z.of_N s))
    as [q [[_ Hq]|[[_ Hq]|[_ Hq]]]]; rewrite Hq.
  - replace (4 * q)%nat with (0 + q * 4)%nat by lia.
    rewrite Nat.Div0.mod_add. change (0 mod 4 =? 1)%nat with false. cbv iota.
    rewrite base64_values_chars, bytes_of_sextets_of_bytes by assumption.
    rewrite map_map. f_equal. rewrite <- (map_id s) at 2.
    apply map_ext. intros c. apply N2Z.id.
  - replace (4 * q + 2)%nat with (2 + q * 4)%nat by lia.
    rewrite Nat.Div0.mod_add. change (2 mod 4 =? 1)%nat with false. cbv iota.
    rewrite base64_values_chars, bytes_of_sextets_of_bytes by assumption.
    rewrite map_map. f_equal. rewrite <- (map_id s) at 2.
    apply map_ext. intros c. apply N2Z.id.
  - replace (4 * q + 3)%nat with (3 + q * 4)%nat by lia.
    rewrite Nat.Div0.mod_add. change (3 mod 4 =? 1)%nat with false. cbv iota.
    rewrite base64_values_chars, bytes_of_sextets_of_bytes by assumption.
    rewrite map_map. f_equal. rewrite <- (map_id s) at 2.
    apply map_ext. intros c. apply N2Z.id.
Qed.

Lemma btoa_bytes (bs : bytes) :
  exists r, btoa (String_fromCharCode bs) = Ok r.
Proof.
  unfold btoa, String_fromCharCode.
  replace (forallb (fun c => (c <=? 255)%N) (map Byte.to_N bs)) with true;
    [eexists; reflexivity|].
  symmetry. apply forallb_forall. intros c Hc.
  apply in_map_iff in Hc as (b & <- & _).
  apply N.leb_le, Byte.to_N_bounded.
Qed.

Lemma charCodes_of_bytes (bs : bytes) :
  charCodes_to_bytes (String_fromCharCode bs) = bs.
Proof.
  unfold charCodes_to_bytes, String_fromCharCode.
  rewrite map_map. rewrite <- (map_id bs) at 2.
  apply map_ext. intros b. apply (byte_of_to_Z b).
Qed.

End Base64.

Section DecimalText.
Local Open Scope Z_scope.

Lemma digits_le_value (base : Z) (fuel : nat) (n : Z) :
  1 < base -> 0 <= n < base ^ Z.of_nat fuel ->
  value_le base (digits_le base fuel n) = n
  /\ Forall (fun d => 0 <= d < base) (digits_le base fuel n)
  /\ (n <> 0 -> last (digits_le base fuel n) <> Some 0)
  /\ (n = 0 -> (1 <= fuel)%nat -> digits_le base fuel n = [0]).
Proof.
  intros Hb. revert n. induction fuel as [|f IH]; intros n Hn.
  - assert (n = 0) by (simpl in Hn; lia). subst n. cbn.
    repeat split; [constructor | congruence | lia].
  - cbn [digits_le]. destruct (n <? base) eqn:E.
    + apply Z.ltb_lt in E. cbn [value_le last].
      repeat split; [lia | repeat constructor; lia | congruence | congruence].
    + apply Z.ltb_ge in E.
      assert (Hq : 0 <= n / base < base ^ Z.of_nat f).
      { split; [apply Z.div_pos; lia|].
        apply Z.div_lt_upper_bound; [lia|].
        replace (Z.of_nat (S f)) with (Z.succ (Z.of_nat f)) in Hn by lia.
        rewrite Z.pow_succ_r in Hn by lia. lia. }
      destruct (IH (n / base) Hq) as (Hv & Hr & Hl & _).
      assert (Hq0 : n / base <> 0).
      { intros H0. apply Z.div_small_iff in H0; lia. }
      repeat split.
      * cbn [value_le]. rewrite Hv.
        pose proof (Z.div_mod n base ltac:(lia)). lia.
      * constructor; [apply Z.mod_pos_bound; lia | exact Hr].
      * intros _. specialize (Hl Hq0).
        destruct (digits_le base f (n / base)) as [|d ds] eqn:Ed;
          [|exact Hl].
        cbn in Hv. lia.
      * lia.
Qed.

Lemma decimal_digit_cases (d : Z) (P : Z -> Prop) :
  0 <= d < 10 ->
  P 0 -> P 1 -> P 2 -> P 3 -> P 4 -> P 5 -> P 6 -> P 7 -> P 8 -> P 9 -> P d.
Proof.
  intros Hd. intros.
  assert (d = 0 \/ d = 1 \/ d = 2 \/ d = 3 \/ d = 4 \/ d = 5 \/ d = 6
          \/ d = 7 \/ d = 8 \/ d = 9) as Hc by lia.
  repeat (destruct Hc as [->|Hc]; [assumption|]). subst d. assumption.
Qed.

(** The UTF-8 encoding of decimal digits is their ASCII codes. *)
Lemma TextEncoder_encode_digits (ds : list Z) :
  Forall (fun d => 0 <= d < 10) ds ->
  TextEncoder_encode (map digit_char ds)
  = map (fun d => byte_of_Z (48 + d)) ds.
Proof.
  induction 1 as [|d ds Hd _ IH]; [reflexivity|].
  cbn [map]. rewrite <- IH. clear IH.
  generalize (map digit_char ds). intros rest.
  pattern d. apply decimal_digit_cases; [exact Hd|..]; reflexivity.
Qed.




End DecimalText.

Section Buffers.

Lemma drop_repeat {A} (x : A) (n m : nat) :
  drop n (repeat x m) = repeat x (m - n).
Proof.
  revert m. induction n as [|n IH]; intros m.
  - rewrite Nat.sub_0_r. reflexivity.
  - destruct m as [|m]; [reflexivity|]. cbn. apply IH.
Qed.

(** A write into the zero-filled tail of an array. *)
Lemma Uint8Array_set_zeros (pre src : bytes) (n : nat) :
  length src <= n ->
  Uint8Array_set (pre ++ repeat x00 n) src (length pre)
  = Ok (pre ++ src ++ repeat x00 (n - length src)).
Proof.
  intros Hn. unfold Uint8Array_set.
  rewrite length_app, repeat_length.
  replace (length pre + length src <=? length pre + n) with true
    by (symmetry; apply Nat.leb_le; lia).
  rewrite take_app_length, drop_app_add, drop_repeat. reflexivity.
Qed.

(** Writing the three pieces into the zero-filled array gives their
    concatenation; no write is out of range. *)
Lemma prefixMessage_spec (message : bytes) :
  MessageSigner.prefixMessage message = Ok (eip191_buffer message).
Proof.
  unfold MessageSigner.prefixMessage, eip191_buffer, Uint8Array_new.
  set (p := TextEncoder_encode MessageSigner.prefix).
  set (l := TextEncoder_encode (toString 10 (Z.of_nat (length message)))).
  set (N := length p + length l + length message).
  pose proof (Uint8Array_set_zeros [] p N ltac:(lia)) as H1.
  cbn [app length] in H1. rewrite H1. cbn [bindR].
  pose proof (Uint8Array_set_zeros p l (N - length p) ltac:(lia)) as H2.
  rewrite H2. cbn [bindR].
  pose proof (Uint8Array_set_zeros (p ++ l) message
                (N - length p - length l) ltac:(lia)) as H3.
  rewrite length_app, <- app_assoc in H3. rewrite H3. cbn [bindR].
  replace (N - length p - length l - length message) with 0 by lia.
  cbn [repeat]. rewrite app_nil_r. reflexivity.
Qed.

Lemma base64ToBytes_bytesToBase64 (bs : bytes) :
  exists r, Encryption.bytesToBase64 bs = Ok r
            /\ Encryption.base64ToBytes r = Ok bs.
Proof.
  unfold Encryption.bytesToBase64, Encryption.base64ToBytes.
  destruct (btoa_bytes bs) as [r Hr]. exists r. split; [exact Hr|].
  rewrite (atob_btoa _ _ Hr). cbn [bindR].
  rewrite charCodes_of_bytes. reflexivity.
Qed.

End Buffers.

(* ================================================================== *)
(** * 8. Key derivation                                                 *)
(* ================================================================== *)

Section RetryLoop.
Variable L : CryptoLib.

Lemma rehash_succ (i : nat) (key : bytes) :
  rehash L (S i) key = rehash L i (sha256 L key).
Proof. unfold rehash. apply Nat.iter_succ_r. Qed.




(** What the loop returns is a candidate of the chain, and valid. *)
Lemma ensureValidPrivateKey_Some (fuel : nat) :
  forall key k : bytes,
    KeyDerivation.ensureValidPrivateKey L fuel key = Some k ->
    exists i, (i < fuel)%nat /\ first_valid L key i /\ k = rehash L i key.
Proof.
  induction fuel as [|fuel IH]; intros key k H; [discriminate|].
  cbn [KeyDerivation.ensureValidPrivateKey] in H.
  destruct (isValidSecretKey key) eqn:E.
  - injection H as <-. exists 0%nat.
    split; [lia|]. split; [|reflexivity].
    split; [exact E | intros j Hj; lia].
  - destruct (IH _ _ H) as (i & Hi & [Hv Hl] & Hk).
    exists (S i). split; [lia|]. split.
    + split; [rewrite rehash_succ; exact Hv|].
      intros [|j] Hj; [exact E|]. rewrite rehash_succ. apply Hl. lia.
    + rewrite rehash_succ. exact Hk.
Qed.

Lemma deriveSigningKey_loop (fuel : nat) (credentialId userId : jsstring)
    (salt : option bytes) :
  KeyDerivation.deriveSigningKey L fuel credentialId userId salt
  = KeyDerivation.ensureValidPrivateKey L fuel
      (derived_candidate L credentialId userId salt).
Proof. reflexivity. Qed.

Lemma first_valid_unique (key : bytes) (i j : nat) :
  first_valid L key i -> first_valid L key j -> i = j.
Proof.
  intros [Hi Hil] [Hj Hjl].
  destruct (Nat.lt_trichotomy i j) as [H|[H|H]]; [|exact H|].
  - rewrite (Hjl i H) in Hi. discriminate.
  - rewrite (Hil j H) in Hj. discriminate.
Qed.

Lemma isValidSecretKey_spec (k : bytes) :
  isValidSecretKey k = true ->
  length k = 32%nat /\ (1 <= bytesToNumberBE k < curve_order)%Z.
Proof.
  unfold isValidSecretKey. intros H.
  apply andb_prop in H as [H H3]. apply andb_prop in H as [H1 H2].
  apply Nat.eqb_eq in H1. apply Z.leb_le in H2. apply Z.ltb_lt in H3.
  auto.
Qed.

End RetryLoop.

(* ================================================================== *)
(** * 9. Signing and verification                                       *)
(* ================================================================== *)

Section Signing.
Variable L : CryptoLib.

(** [signMessage] is [sign_digest] at the message hash. *)
Lemma signMessage_digest (m : MessageSigner.Message) (k : bytes) (w : World) :
  MessageSigner.signMessage L m k w = sign_digest L (message_digest L m) k w.
Proof.
  unfold MessageSigner.signMessage, sign_digest, message_digest.
  unfold bind at 1, liftR at 1.
  rewrite prefixMessage_spec. reflexivity.
Qed.

Lemma verifySignature_digest (m : MessageSigner.Message) (sig : jsstring)
    (pk : bytes) (w : World) :
  MessageSigner.verifySignature L m sig pk w
  = verify_digest L (message_digest L m) sig pk w.
Proof.
  unfold MessageSigner.verifySignature, verify_digest, message_digest.
  unfold try_catch, verify_core, sig_hex.
  unfold bind at 1, liftR at 1.
  rewrite prefixMessage_spec.
  unfold bind, liftR, verifyAsync, prepMsg. cbn [MessageSigner.verify_opts
    opt_prehash opt_lowS default from_option id].
  destruct (BigInt_0x _) as [r|e]; [|reflexivity]. cbn [bindR].
  destruct (BigInt_0x _) as [s|e]; [|reflexivity]. cbn [bindR].
  destruct (Signature_new r s None) as [sg|e]; [|reflexivity]. cbn [bindR].
  destruct (Signature_toBytes sg Compact) as [c|e]; [|reflexivity].
  cbn [bindR]. reflexivity.
Qed.

Lemma recoverPublicKey_digest (m : MessageSigner.Message) (sig : jsstring)
    (w : World) :
  MessageSigner.recoverPublicKey L m sig w
  = recover_digest L (message_digest L m) sig w.
Proof.
  unfold MessageSigner.recoverPublicKey, recover_digest, message_digest.
  unfold bind at 1, liftR at 1.
  rewrite prefixMessage_spec. reflexivity.
Qed.

(** Signing does not read or change the world. *)
Lemma sign_digest_run (digest k : bytes) (w : World) :
  sign_digest L digest k w
  = (sb <-? secp_sign L digest k true None ;;
     sg <-? Signature_fromBytes sb Recovered ;;
     Ok (MessageSigner.formatSignature sg), w).
Proof.
  unfold sign_digest, signAsync, prepMsg, bind, liftR, ret.
  cbn [MessageSigner.sign_opts opt_prehash opt_lowS opt_format
       opt_extraEntropy default from_option id].
  destruct (secp_sign L digest k true None) as [sb|e]; [|reflexivity].
  cbn [bindR].
  destruct (Signature_fromBytes sb Recovered) as [sg|e]; reflexivity.
Qed.

(** Verification changes nothing but the console, and only when
    something was thrown. *)
Lemma verify_digest_run (digest : bytes) (sig : jsstring) (pk : bytes)
    (w : World) :
  verify_digest L digest sig pk w
  = match verify_core L digest sig pk with
    | Ok b => (Ok b, w)
    | Throw e =>
        (Ok false,
         snd (console_error (str "Signature verification failed:") e w))
    end.
Proof.
  unfold verify_digest, try_catch, liftR.
  destruct (verify_core L digest sig pk); reflexivity.
Qed.

End Signing.

Section WireFormat.
Local Open Scope Z_scope.

Lemma slice_take (rs : bytes) :
  length rs = 64%nat ->
  slice 0 32 rs = take 32 rs /\ slice 32 64 rs = drop 32 rs.
Proof.
  intros Hl. unfold slice. cbn [Nat.sub]. rewrite drop_0.
  split; [reflexivity|].
  apply take_ge. rewrite length_drop. lia.
Qed.

(** The recoverable signature the library returns, as the [Signature]
    object the code formats. *)
Lemma Signature_fromBytes_recovered (rec : byte) (rs : bytes) :
  length rs = 64%nat ->
  valid_scalar (bytesToNumberBE (take 32 rs)) = true ->
  valid_scalar (bytesToNumberBE (drop 32 rs)) = true ->
  Signature_fromBytes (rec :: rs) Recovered
  = Ok {| sig_r := bytesToNumberBE (take 32 rs);
          sig_s := bytesToNumberBE (drop 32 rs);
          sig_recovery := Some (Int (byte_to_Z rec)) |}.
Proof.
  intros Hl Hr Hs. unfold Signature_fromBytes.
  rewrite Hl. cbn [Nat.eqb].
  destruct (slice_take rs Hl) as [-> ->].
  unfold Signature_new. rewrite Hr, Hs. reflexivity.
Qed.

(** A successful [Signature.fromBytes] determines the layout. *)
Lemma Signature_fromBytes_recovered_inv (sb : bytes) (sg : Signature) :
  Signature_fromBytes sb Recovered = Ok sg ->
  exists (rec : byte) (rs : bytes),
    sb = rec :: rs /\ length rs = 64%nat
    /\ valid_scalar (bytesToNumberBE (take 32 rs)) = true
    /\ valid_scalar (bytesToNumberBE (drop 32 rs)) = true
    /\ sg = {| sig_r := bytesToNumberBE (take 32 rs);
               sig_s := bytesToNumberBE (drop 32 rs);
               sig_recovery := Some (Int (byte_to_Z rec)) |}.
Proof.
  unfold Signature_fromBytes. destruct sb as [|rec rs]; [discriminate|].
  destruct (length rs =? 64)%nat eqn:El; [|discriminate].
  apply Nat.eqb_eq in El.
  destruct (slice_take rs El) as [-> ->].
  unfold Signature_new.
  destruct (valid_scalar (bytesToNumberBE (take 32 rs))) eqn:Hr;
    [|discriminate].
  destruct (valid_scalar (bytesToNumberBE (drop 32 rs))) eqn:Hs;
    [|discriminate].
  cbn [andb]. intros E. injection E as <-.
  exists rec, rs. auto.
Qed.

Lemma hex_of_bytes_app (a b : bytes) :
  hex_of_bytes (a ++ b) = hex_of_bytes a ++ hex_of_bytes b.
Proof. unfold hex_of_bytes. rewrite map_app, concat_app. reflexivity. Qed.

Lemma hex_of_byte_fixed (v : Z) :
  0 <= v < 256 -> fixed_hex 2 v = hex_of_bytes [byte_of_Z v].
Proof.
  intros Hv. unfold fixed_hex, hex_of_bytes.
  cbn [fixed_le rev app map concat].
  rewrite byte_to_of_Z, (Z.mod_small v 256) by lia.
  rewrite (Z.mod_small (v / 16) 16); [reflexivity|].
  split; [apply Z.div_pos; lia | apply Z.div_lt_upper_bound; lia].
Qed.

(** The text [formatSignature] builds from a recoverable signature:
    the hexadecimal of the 32 bytes of [r], of the 32 bytes of [s], and
    of the byte [recovery + 27]. *)
Lemma formatSignature_recovered (rec : byte) (rs : bytes) :
  length rs = 64%nat -> byte_to_Z rec <= 3 ->
  MessageSigner.formatSignature
    {| sig_r := bytesToNumberBE (take 32 rs);
       sig_s := bytesToNumberBE (drop 32 rs);
       sig_recovery := Some (Int (byte_to_Z rec)) |}
  = str "0x" ++ hex_of_bytes (take 32 rs) ++ hex_of_bytes (drop 32 rs)
      ++ hex_of_bytes [byte_of_Z (byte_to_Z rec + 27)].
Proof.
  intros Hl Hrec. unfold MessageSigner.formatSignature.
  cbn [sig_r sig_s sig_recovery number_toString].
  assert (Ht : length (take 32 rs) = 32%nat) by (rewrite length_take; lia).
  assert (Hd : length (drop 32 rs) = 32%nat) by (rewrite length_drop; lia).
  pose proof (padStart_toString_bytes (take 32 rs)) as H1.
  pose proof (padStart_toString_bytes (drop 32 rs)) as H2.
  rewrite Ht in H1. rewrite Hd in H2.
  change (2 * 32)%nat with 64%nat in H1, H2.
  rewrite H1, H2 by lia.
  pose proof (byte_to_Z_range rec).
  rewrite (padStart_toString_hex 2) by (change (16 ^ Z.of_nat 2) with 256; lia).
  rewrite hex_of_byte_fixed by lia. reflexivity.
Qed.

Lemma startsWith_0x (s : jsstring) : startsWith (str "0x") (str "0x" ++ s) = true.
Proof. reflexivity. Qed.

Lemma sig_hex_0x (s : jsstring) : sig_hex (str "0x" ++ s) = s.
Proof. reflexivity. Qed.

(** Parsing the first 128 hexadecimal digits of a formatted signature
    gives back [r] and [s]. *)
Lemma parse_formatted (rs : bytes) (tail : jsstring) :
  length rs = 64%nat ->
  let hex := hex_of_bytes (take 32 rs) ++ hex_of_bytes (drop 32 rs) ++ tail in
  BigInt_0x (slice 0 64 hex) = Ok (bytesToNumberBE (take 32 rs))
  /\ BigInt_0x (slice 64 128 hex) = Ok (bytesToNumberBE (drop 32 rs)).
Proof.
  intros Hl hex. subst hex.
  assert (Ht : length (take 32 rs) = 32%nat) by (rewrite length_take; lia).
  assert (Hd : length (drop 32 rs) = 32%nat) by (rewrite length_drop; lia).
  assert (Hht : length (hex_of_bytes (take 32 rs)) = 64%nat)
    by (rewrite length_hex_of_bytes; lia).
  assert (Hhd : length (hex_of_bytes (drop 32 rs)) = 64%nat)
    by (rewrite length_hex_of_bytes; lia).
  unfold slice. cbn [Nat.sub]. rewrite drop_0. split.
  - rewrite take_app_length' by lia.
    rewrite <- fixed_hex_bytesToNumberBE, Ht.
    apply BigInt_0x_fixed_hex; [lia|].
    pose proof (bytesToNumberBE_range (take 32 rs)) as Hr.
    rewrite Ht, pow_256_16 in Hr. exact Hr.
  - rewrite drop_app_length' by lia.
    rewrite take_app_length' by lia.
    rewrite <- fixed_hex_bytesToNumberBE, Hd.
    apply BigInt_0x_fixed_hex; [lia|].
    pose proof (bytesToNumberBE_range (drop 32 rs)) as Hr.
    rewrite Hd, pow_256_16 in Hr. exact Hr.
Qed.

(** The compact signature rebuilt from [r] and [s] is the library's. *)
Lemma compact_of_parsed (rs : bytes) :
  length rs = 64%nat ->
  numberToBytesBE (bytesToNumberBE (take 32 rs)) 32
    ++ numberToBytesBE (bytesToNumberBE (drop 32 rs)) 32 = rs.
Proof.
  intros Hl.
  assert (Ht : length (take 32 rs) = 32%nat) by (rewrite length_take; lia).
  assert (Hd : length (drop 32 rs) = 32%nat) by (rewrite length_drop; lia).
  pose proof (numberToBytesBE_bytesToNumberBE (take 32 rs)) as H1.
  pose proof (numberToBytesBE_bytesToNumberBE (drop 32 rs)) as H2.
  rewrite Ht in H1. rewrite Hd in H2. rewrite H1, H2.
  apply take_drop.
Qed.

End WireFormat.

(* ================================================================== *)
(** * 10. Encryption and the key vault                                  *)
(* ================================================================== *)

Section Vault.
Variable L : CryptoLib.

Lemma getRandomValues_run (n : nat) (w : World) :
  getRandomValues n w = (Ok (drawn w 0 n), advance n w).
Proof. reflexivity. Qed.

Lemma drawn_advance (w : World) (k offset n : nat) :
  drawn (advance k w) offset n = drawn w (k + offset) n.
Proof.
  unfold drawn, advance. cbn [random_source].
  apply map_ext. intros i. f_equal. lia.
Qed.

Lemma length_drawn (w : World) (offset n : nat) : length (drawn w offset n) = n.
Proof. unfold drawn. rewrite length_map, length_seq. reflexivity. Qed.

(** [encrypt] draws the salt, then the nonce, and calls AES-GCM with the
    key derived from the password and the salt. *)
Lemma encrypt_run (data : bytes) (password : jsstring) (w : World) :
  Encryption.encrypt L data password w
  = (if importable (encryption_key L password (drawn w 0 16)) then
       ct <-? aes_gcm_encrypt L (encryption_key L password (drawn w 0 16))
                (drawn w 16 12) data ;;
       Ok {| Encryption.encryptedData := ct;
             Encryption.iv := drawn w 16 12;
             Encryption.salt := drawn w 0 16 |}
     else Throw (DOMException "DataError"),
     advance 12 (advance 16 w)).
Proof.
  unfold Encryption.encrypt.
  unfold bind at 1. rewrite getRandomValues_run.
  unfold bind at 1. rewrite getRandomValues_run, drawn_advance.
  change (16 + 0)%nat with 16%nat.
  fold (encryption_key L password (drawn w 0 16)).
  unfold subtle_importKey, importable, bind.
  destruct ((length (encryption_key L password (drawn w 0 16)) =? 16)%nat
            || (length (encryption_key L password (drawn w 0 16)) =? 24)%nat
            || (length (encryption_key L password (drawn w 0 16)) =? 32)%nat);
    [|reflexivity].
  unfold ret, subtle_encrypt. cbn [has_usage existsb key_usages orb key_data].
  unfold liftR.
  destruct (aes_gcm_encrypt L _ _ data); reflexivity.
Qed.

(** [decrypt] re-derives the key and calls AES-GCM; it leaves the world
    alone. *)
Lemma decrypt_run (ed iv salt : bytes) (password : jsstring) (w : World) :
  Encryption.decrypt L ed iv salt password w
  = (if importable (encryption_key L password salt) then
       aes_gcm_decrypt L (encryption_key L password salt) iv ed
     else Throw (DOMException "DataError"), w).
Proof.
  unfold Encryption.decrypt.
  fold (encryption_key L password salt).
  unfold subtle_importKey, importable, bind.
  destruct ((length (encryption_key L password salt) =? 16)%nat
            || (length (encryption_key L password salt) =? 24)%nat
            || (length (encryption_key L password salt) =? 32)%nat);
    [|reflexivity].
  unfold ret, subtle_decrypt. cbn [has_usage existsb key_usages orb key_data].
  unfold liftR.
  destruct (aes_gcm_decrypt L _ iv ed); reflexivity.
Qed.

Lemma importable_32 (key : bytes) : length key = 32 -> importable key = true.
Proof. unfold importable. intros ->. reflexivity. Qed.


(** With the database open and a record under [credentialId],
    [retrieveKey] decodes the record and decrypts it; every failure on
    the way is [null]. *)
Lemma retrieveKey_run (credentialId password : jsstring) (w : World)
    (record : SigningKeyRecord) :
  idb_available w = true ->
  signing_keys w !! credentialId = Some record ->
  fst (KeyStorage.retrieveKey L credentialId password w)
  = Ok match
         (ed <-? Encryption.base64ToBytes (rec_encryptedKey record) ;;
          iv <-? Encryption.base64ToBytes (rec_iv record) ;;
          salt <-? Encryption.base64ToBytes (rec_salt record) ;;
          fst (Encryption.decrypt L ed iv salt password w))
       with
       | Ok key => Some key
       | Throw _ => None
       end.
Proof.
  intros Ha Hr.
  unfold KeyStorage.retrieveKey, try_catch.
  unfold bind at 1, openDB. rewrite Ha.
  unfold bind at 1, db_get. rewrite Hr.
  unfold bind at 1, liftR at 1.
  destruct (Encryption.base64ToBytes (rec_encryptedKey record)) as [ed|e];
    [|reflexivity].
  unfold bind at 1, liftR at 1.
  destruct (Encryption.base64ToBytes (rec_iv record)) as [iv|e];
    [|reflexivity].
  unfold bind at 1, liftR at 1.
  destruct (Encryption.base64ToBytes (rec_salt record)) as [salt|e];
    [|reflexivity].
  cbn [bindR]. unfold bind at 1. rewrite decrypt_run. cbn [fst].
  destruct (importable (encryption_key L password salt));
    [|reflexivity].
  destruct (aes_gcm_decrypt L _ iv ed); reflexivity.
Qed.

(** Without a record, [retrieveKey] is [null]. *)
Lemma retrieveKey_missing (credentialId password : jsstring) (w : World) :
  signing_keys w !! credentialId = None ->
  fst (KeyStorage.retrieveKey L credentialId password w) = Ok None.
Proof.
  intros Hr.
  unfold KeyStorage.retrieveKey, try_catch.
  unfold bind at 1, openDB.
  destruct (idb_available w); [|reflexivity].
  unfold bind at 1, db_get. rewrite Hr. reflexivity.
Qed.

(** With the database open and AES-GCM succeeding, [storeKey] puts one
    record under [credentialId]: the base64 text of the ciphertext, of
    the nonce and of the salt, and the time. *)
Lemma storeKey_run (credentialId : jsstring) (privateKey : bytes)
    (password : jsstring) (md : option KeyMetadata) (w : World) (ct : bytes) :
  idb_available w = true ->
  importable (encryption_key L password (drawn w 0 16)) = true ->
  aes_gcm_encrypt L (encryption_key L password (drawn w 0 16))
    (drawn w 16 12) privateKey = Ok ct ->
  exists record,
    Encryption.base64ToBytes (rec_encryptedKey record) = Ok ct
    /\ Encryption.base64ToBytes (rec_iv record) = Ok (drawn w 16 12)
    /\ Encryption.base64ToBytes (rec_salt record) = Ok (drawn w 0 16)
    /\ rec_id record = credentialId
    /\ rec_timestamp record = clock w
    /\ rec_metadata record = md
    /\ KeyStorage.storeKey L credentialId privateKey password md w
       = (Ok tt,
          with_signing_keys (insert credentialId record)
            (advance 12 (advance 16 w))).
Proof.
  intros Ha Hk He.
  destruct (base64ToBytes_bytesToBase64 ct) as (ek & Hek & Hek').
  destruct (base64ToBytes_bytesToBase64 (drawn w 16 12)) as (iv & Hiv & Hiv').
  destruct (base64ToBytes_bytesToBase64 (drawn w 0 16)) as (sa & Hsa & Hsa').
  exists {| rec_id := credentialId; rec_encryptedKey := ek; rec_iv := iv;
            rec_salt := sa; rec_timestamp := clock w; rec_metadata := md |}.
  cbn [rec_id rec_encryptedKey rec_iv rec_salt rec_timestamp rec_metadata].
  repeat (split; [assumption || reflexivity|]).
  unfold KeyStorage.storeKey, try_catch.
  unfold bind at 1. rewrite encrypt_run, Hk, He. cbn [bindR].
  cbn [Encryption.encryptedData Encryption.iv Encryption.salt].
  unfold bind at 1, liftR at 1. rewrite Hek.
  unfold bind at 1, liftR at 1. rewrite Hiv.
  unfold bind at 1, liftR at 1. rewrite Hsa.
  unfold bind at 1, Date_now.
  unfold bind at 1, openDB. cbn [idb_available advance]. rewrite Ha.
  reflexivity.
Qed.

End Vault.

Section ReferenceLengths.

Lemma sha256_round_length (st : list Z) (kw : Z * Z) :
  length st = 8 -> length (SHA256.round st kw) = 8.
Proof.
  intros H.
  destruct st as [|a [|b [|c [|d [|e [|f [|g [|h [|i st]]]]]]]]];
    try discriminate; reflexivity.
Qed.

Lemma sha256_compress_length (h : list Z) (block : bytes) :
  length h = 8 -> length (SHA256.compress h block) = 8.
Proof.
  intros H. unfold SHA256.compress.
  rewrite length_map, length_combine, H.
  assert (Hst : forall kws st, length st = 8 ->
            length (fold_left SHA256.round kws st) = 8).
  { induction kws as [|kw kws IH]; intros st Hs; [exact Hs|].
    cbn [fold_left]. apply IH, sha256_round_length, Hs. }
  rewrite Hst by exact H. reflexivity.
Qed.

(** A SHA-256 digest has 32 bytes. *)
Lemma sha256_digest_length (msg : bytes) : length (SHA256.digest msg) = 32.
Proof.
  unfold SHA256.digest.
  assert (Hh : forall blocks h, length h = 8 ->
            length (fold_left SHA256.compress blocks h) = 8).
  { induction blocks as [|b blocks IH]; intros h Hl; [exact Hl|].
    cbn [fold_left]. apply IH, sha256_compress_length, Hl. }
  specialize (Hh (SHA256.chunks (length (SHA256.pad msg)) 64 (SHA256.pad msg))
                SHA256.H0 eq_refl).
  destruct (fold_left SHA256.compress _ SHA256.H0)
    as [|a [|b [|c [|d [|e [|f [|g [|h [|i st]]]]]]]]];
    try discriminate.
  cbn [map concat]. rewrite !length_app, !length_numberToBytesBE.
  reflexivity.
Qed.

(** HKDF over a hash function with 32-byte output returns the 32 bytes
    asked for. *)
Lemma hkdf_length_32 (hash : bytes -> bytes) (ikm : bytes)
    (salt : option bytes) (info : bytes) :
  (forall x, length (hash x) = 32) ->
  length (HKDF.hkdf hash ikm salt info 32) = 32.
Proof.
  intros Hh. unfold HKDF.hkdf, HKDF.expand.
  change ((32 + 31) / 32) with 1.
  cbn [HKDF.expand_blocks]. rewrite app_nil_r.
  unfold HKDF.hmac at 1. rewrite length_take, Hh. reflexivity.
Qed.

Lemma RefLib_encryption_key_length (password : jsstring) (salt : bytes) :
  length (encryption_key RefLib password salt) = 32.
Proof. apply hkdf_length_32, sha256_digest_length. Qed.

End ReferenceLengths.

Section ReferenceAesGcm.

Lemma lxor_octet (a b : Z) :
  is_octet a -> is_octet b -> is_octet (Z.lxor a b).
Proof.
  unfold is_octet. intros Ha Hb.
  assert (Hn : (0 <= Z.lxor a b)%Z) by (apply Z.lxor_nonneg; lia).
  split; [exact Hn|].
  destruct (Z.eq_dec (Z.lxor a b) 0%Z) as [->|Hne]; [lia|].
  apply (Z.log2_lt_pow2 _ 8%Z); [lia|].
  pose proof (Z.log2_lxor a b ltac:(lia) ltac:(lia)) as Hl.
  assert (Z.log2 a < 8)%Z.
  { destruct (Z.eq_dec a 0%Z) as [->|]; [cbn; lia|].
    apply Z.log2_lt_pow2; lia. }
  assert (Z.log2 b < 8)%Z.
  { destruct (Z.eq_dec b 0%Z) as [->|]; [cbn; lia|].
    apply Z.log2_lt_pow2; lia. }
  lia.
Qed.

Lemma xor_byte_involutive (a k : byte) :
  HKDF.xor_byte (HKDF.xor_byte a k) k = a.
Proof.
  unfold HKDF.xor_byte.
  pose proof (byte_to_Z_range a) as Ha.
  pose proof (byte_to_Z_range k) as Hk.
  pose proof (lxor_octet _ _ Ha Hk) as Hx. unfold is_octet in Hx.
  rewrite byte_to_of_Z, Z.mod_small by exact Hx.
  rewrite Z.lxor_assoc, Z.lxor_nilpotent, Z.lxor_0_r.
  apply byte_of_to_Z.
Qed.

Lemma xor_bytes_involutive (a k : bytes) :
  length a <= length k ->
  AESGCM.xor_bytes (AESGCM.xor_bytes a k) k = a.
Proof.
  unfold AESGCM.xor_bytes. revert k.
  induction a as [|x a IH]; intros [|y k] Hl; cbn in Hl |- *;
    [reflexivity | reflexivity | lia |].
  rewrite xor_byte_involutive, IH by lia. reflexivity.
Qed.

Lemma length_xor_bytes (a b : bytes) :
  length (AESGCM.xor_bytes a b) = length a `min` length b.
Proof. apply length_zip_with. Qed.

(** Every round key has 16 bytes. *)
Lemma group_round_keys_length (ws : list AESGCM.word) :
  Forall (fun rk => length rk = 16) (AESGCM.group_round_keys ws).
Proof.
  assert (H : forall n ws, length ws <= n ->
            Forall (fun rk => length rk = 16) (AESGCM.group_round_keys ws)).
  { induction n as [|n IH]; intros l Hl.
    - destruct l; [constructor | cbn in Hl; lia].
    - destruct l as [|a [|b [|c [|d rest]]]]; try constructor.
      + destruct a as [[[? ?] ?] ?], b as [[[? ?] ?] ?],
                 c as [[[? ?] ?] ?], d as [[[? ?] ?] ?]. reflexivity.
      + apply IH. cbn in Hl. lia. }
  apply (H (length ws)). lia.
Qed.

Lemma length_shift_rows (st : bytes) : length (AESGCM.shift_rows st) = 16.
Proof. reflexivity. Qed.

Lemma length_mix_columns_shift_rows (st : bytes) :
  length (AESGCM.mix_columns (AESGCM.shift_rows st)) = 16.
Proof. reflexivity. Qed.

Lemma length_rounds (rks : list bytes) :
  Forall (fun rk => length rk = 16) rks ->
  forall st, length st = 16 -> length (AESGCM.rounds st rks) = 16.
Proof.
  induction 1 as [|rk rks Hrk Hrks IH]; intros st Hst; [exact Hst|].
  destruct rks as [|rk2 rks].
  - cbn [AESGCM.rounds].
    rewrite length_xor_bytes, length_shift_rows, Hrk. reflexivity.
  - change (AESGCM.rounds st (rk :: rk2 :: rks))
      with (AESGCM.rounds
              (AESGCM.xor_bytes
                 (AESGCM.mix_columns (AESGCM.shift_rows (map AESGCM.sub_byte st)))
                 rk) (rk2 :: rks)).
    apply IH.
    rewrite length_xor_bytes, length_mix_columns_shift_rows, Hrk. reflexivity.
Qed.

(** The cipher maps blocks of 16 bytes to blocks of 16 bytes. *)
Lemma length_cipher (key block : bytes) :
  length block = 16 ->
  length (AESGCM.cipher (AESGCM.round_keys key) block) = 16.
Proof.
  intros Hb. unfold AESGCM.round_keys.
  pose proof (group_round_keys_length
                (AESGCM.expand_key
                   (4 * (length key / 4 + 7) - length key / 4)
                   (length key / 4) (AESGCM.words_of_bytes key) x01)) as Hk.
  destruct (AESGCM.group_round_keys _) as [|rk0 rks]; [exact Hb|].
  inversion_clear Hk as [|? ? H0 Hr].
  cbn [AESGCM.cipher]. apply length_rounds; [exact Hr|].
  rewrite length_xor_bytes, Hb, H0. reflexivity.
Qed.

Lemma length_inc32 (cb : bytes) :
  length cb = 16 -> length (AESGCM.inc32 cb) = 16.
Proof.
  intros H. unfold AESGCM.inc32.
  rewrite length_app, length_take, length_numberToBytesBE, H. reflexivity.
Qed.

Lemma length_j0 (h : Z) (iv : bytes) : length (AESGCM.j0 h iv) = 16.
Proof.
  unfold AESGCM.j0. destruct (length iv =? 12) eqn:E.
  - apply Nat.eqb_eq in E. rewrite length_app, E. reflexivity.
  - apply length_numberToBytesBE.
Qed.

Lemma length_tag (key : bytes) (h : Z) (J0 c : bytes) :
  length J0 = 16 ->
  length (AESGCM.tag (AESGCM.round_keys key) h J0 c) = 16.
Proof.
  intros H. unfold AESGCM.tag.
  rewrite length_xor_bytes, length_numberToBytesBE, length_cipher by exact H.
  reflexivity.
Qed.

(** Counter mode keeps the length and is its own inverse. *)
Lemma gctr_involutive (key : bytes) (fuel : nat) :
  forall cb data : bytes,
    length cb = 16 -> length data <= fuel ->
    length (AESGCM.gctr fuel (AESGCM.round_keys key) cb data) = length data
    /\ AESGCM.gctr fuel (AESGCM.round_keys key) cb
         (AESGCM.gctr fuel (AESGCM.round_keys key) cb data) = data.
Proof.
  induction fuel as [|f IH]; intros cb data Hcb Hd.
  - destruct data; [split; reflexivity | cbn in Hd; lia].
  - destruct data as [|d ds]; [split; reflexivity|].
    cbn [AESGCM.gctr].
    set (data := d :: ds) in *.
    set (E := AESGCM.cipher (AESGCM.round_keys key) cb).
    assert (HE : length E = 16) by (apply length_cipher, Hcb).
    set (x := AESGCM.xor_bytes (take 16 data) E).
    assert (Hx : length x = length (take 16 data)).
    { unfold x. rewrite length_xor_bytes, HE, length_take. lia. }
    assert (Hrest : length (drop 16 data) <= f).
    { rewrite length_drop. unfold data in *. cbn [length] in *. lia. }
    destruct (IH (AESGCM.inc32 cb) (drop 16 data) (length_inc32 _ Hcb) Hrest)
      as [Hl Hi].
    set (rest := AESGCM.gctr f (AESGCM.round_keys key) (AESGCM.inc32 cb)
                   (drop 16 data)) in *.
    assert (Hsplit : take 16 (x ++ rest) = x /\ drop 16 (x ++ rest) = rest).
    { destruct (Nat.le_gt_cases 16 (length data)) as [Hge|Hlt].
      - assert (length x = 16) by (rewrite Hx, length_take; lia).
        split; [apply take_app_length'; lia | apply drop_app_length'; lia].
      - assert (Hr0 : rest = []).
        { apply length_zero_iff_nil. rewrite Hl, length_drop. lia. }
        rewrite Hr0, app_nil_r.
        assert (length x < 16) by (rewrite Hx, length_take; lia).
        split; [apply take_ge; lia | apply drop_ge; lia]. }
    split.
    + rewrite length_app, Hx, Hl, <- length_app, take_drop. reflexivity.
    + destruct (x ++ rest) as [|y ys] eqn:Exr.
      * apply (f_equal (@length _)) in Exr.
        rewrite length_app, Hx, length_take in Exr.
        unfold data in Exr. cbn [length] in Exr. lia.
      * rewrite <- Exr in Hsplit |- *. destruct Hsplit as [-> ->].
        unfold x at 1. rewrite xor_bytes_involutive
          by (rewrite HE, length_take; lia).
        fold rest. rewrite Hi. apply take_drop.
Qed.

Lemma bytes_eqb_refl (t : bytes) : AESGCM.bytes_eqb t t = true.
Proof.
  unfold AESGCM.bytes_eqb. rewrite Nat.eqb_refl. cbn [andb].
  induction t as [|b t IH]; [reflexivity|].
  cbn [combine forallb fst snd]. rewrite IH, (Byte.byte_dec_lb eq_refl).
  reflexivity.
Qed.

(** AES-GCM decrypts what it encrypted, for every key, nonce and
    plaintext it accepts. *)
Lemma aes_gcm_round_trip (key iv data ct : bytes) :
  AESGCM.encrypt key iv data = Ok ct -> AESGCM.decrypt key iv ct = Ok data.
Proof.
  unfold AESGCM.encrypt, AESGCM.decrypt.
  destruct (AESGCM.valid_key_length key && negb (length iv =? 0)) eqn:Hv;
    [|discriminate].
  intros E.
  apply (f_equal (fun r => match r with Ok x => x | Throw _ => [] end)) in E.
  cbv beta iota zeta in E. subst ct. cbv zeta.
  set (rks := AESGCM.round_keys key).
  set (h := bytesToNumberBE (AESGCM.cipher rks (repeat x00 16))).
  set (J0 := AESGCM.j0 h iv).
  assert (HJ : length J0 = 16) by apply length_j0.
  destruct (gctr_involutive key (length data) (AESGCM.inc32 J0) data
              (length_inc32 _ HJ) ltac:(lia)) as [Hl Hi].
  fold rks in Hl, Hi.
  set (c := AESGCM.gctr (length data) rks (AESGCM.inc32 J0) data) in *.
  assert (Ht : length (AESGCM.tag rks h J0 c) = 16) by (apply length_tag, HJ).
  rewrite length_app, Ht.
  replace (16 <=? length c + 16) with true
    by (symmetry; apply Nat.leb_le; lia).
  cbn [andb].
  replace (length c + 16 - 16) with (length c) by lia.
  rewrite take_app_length, drop_app_length, bytes_eqb_refl.
  rewrite Hl, Hi. reflexivity.
Qed.

Lemma aes_gcm_encrypt_total (key iv data : bytes) :
  length key = 32 -> length iv = 12 ->
  exists ct, AESGCM.encrypt key iv data = Ok ct.
Proof.
  intros Hk Hiv. unfold AESGCM.encrypt, AESGCM.valid_key_length.
  rewrite Hk, Hiv. cbn. eauto.
Qed.

(** The reference library keeps the AES-GCM contract at every key of 32
    bytes and nonce of 12 bytes. *)
Lemma RefLib_AeadRoundTrip (key iv data : bytes) :
  length key = 32 -> length iv = 12 -> AeadRoundTrip RefLib key iv data.
Proof.
  intros Hk Hiv.
  destruct (aes_gcm_encrypt_total key iv data Hk Hiv) as [ct Hct].
  exists ct. split; [exact Hct|]. apply aes_gcm_round_trip, Hct.
Qed.

End ReferenceAesGcm.

Section Derivation.






End Derivation.

Section SigningClaims.

(** C3.  Derivation and signing are deterministic end to end.  Two runs
    of [deriveSigningKey] on the same identifiers that return (however
    long each was left to run) return the same 32-byte key; [signMessage]
    completes with the same result, a signature or an exception, in any
    two worlds (random source, clock, database, console), and leaves the
    world as it found it; so the identifiers and the message determine
    the signature. *)
Theorem derivation_and_signing_deterministic (L : CryptoLib)
    (credentialId userId : jsstring) (salt : option bytes)
    (m : MessageSigner.Message) (fuel1 fuel2 : nat) (k1 k2 : bytes)
    (w1 w2 : World) :
  KeyDerivation.deriveSigningKey L fuel1 credentialId userId salt = Some k1 ->
  KeyDerivation.deriveSigningKey L fuel2 credentialId userId salt = Some k2 ->
  k1 = k2
  /\ length k1 = 32%nat
  /\ (forall key,
        fst (MessageSigner.signMessage L m key w1)
        = fst (MessageSigner.signMessage L m key w2))
  /\ (forall key w, snd (MessageSigner.signMessage L m key w) = w)
  /\ fst (MessageSigner.signMessage L m k1 w1)
     = fst (MessageSigner.signMessage L m k2 w2).
Proof.
  intros H1 H2. rewrite deriveSigningKey_loop in H1, H2.
  destruct (ensureValidPrivateKey_Some L _ _ _ H1) as (i1 & _ & Hf1 & ->).
  destruct (ensureValidPrivateKey_Some L _ _ _ H2) as (i2 & _ & Hf2 & ->).
  rewrite (first_valid_unique L _ _ _ Hf1 Hf2).
  assert (Hsame : forall key,
            fst (MessageSigner.signMessage L m key w1)
            = fst (MessageSigner.signMessage L m key w2)).
  { intros key. rewrite !signMessage_digest, !sign_digest_run. reflexivity. }
  repeat split.
  - apply isValidSecretKey_spec, Hf2.
  - exact Hsame.
  - intros key w. rewrite signMessage_digest, sign_digest_run. reflexivity.
  - apply Hsame.
Qed.

(** The fixture, derived twice and signed in two different worlds. *)
Lemma derivation_and_signing_deterministic_witness :
  fst (MessageSigner.signMessage RefLib fixture_message fixture_key
         (example_world 0 0))
  = fst (MessageSigner.signMessage RefLib fixture_message fixture_key
           (example_world 77 1000)).
Proof.
  assert (H1 : KeyDerivation.deriveSigningKey RefLib 1 fixture_credentialId
                 fixture_userId None = Some fixture_key)
    by (vm_compute; reflexivity).
  assert (H2 : KeyDerivation.deriveSigningKey RefLib 5 fixture_credentialId
                 fixture_userId None = Some fixture_key)
    by (vm_compute; reflexivity).
  exact (proj2 (proj2 (proj2 (proj2
           (derivation_and_signing_deterministic RefLib fixture_credentialId
              fixture_userId None fixture_message 1 5 fixture_key fixture_key
              (example_world 0 0) (example_world 77 1000) H1 H2))))).
Defined.

(** C5.  The wire format.  When [signMessage] returns a signature for a
    key for which the library's recovery id is 0 to 3, the text is [0x]
    followed by 130 lowercase hexadecimal characters: the 32 bytes of
    [r] (its big-endian value on 64 digits), the 32 bytes of [s], and one
    byte [v = recovery id + 27]. *)
Theorem signature_wire_format (L : CryptoLib) (m : MessageSigner.Message)
    (k : bytes) (w w' : World) (sig : jsstring) :
  RecoveryIdInRange L (message_digest L m) k ->
  MessageSigner.signMessage L m k w = (Ok sig, w') ->
  exists (rec : byte) (r s : bytes),
    secp_sign L (message_digest L m) k true None = Ok (rec :: r ++ s)
    /\ length r = 32%nat /\ length s = 32%nat
    /\ sig = str "0x" ++ hex_of_bytes r ++ hex_of_bytes s
               ++ hex_of_bytes [byte_of_Z (byte_to_Z rec + 27)]
    /\ hex_of_bytes r = fixed_hex 64 (bytesToNumberBE r)
    /\ hex_of_bytes s = fixed_hex 64 (bytesToNumberBE s)
    /\ length sig = 132%nat
    /\ Forall (fun c => is_lower_hex c = true) (drop 2 sig).
Proof.
  intros Hrec Hsign.
  rewrite signMessage_digest, sign_digest_run in Hsign.
  destruct (secp_sign L (message_digest L m) k true None) as [sb|e] eqn:Es;
    [|discriminate].
  cbn [bindR] in Hsign.
  destruct (Signature_fromBytes sb Recovered) as [sg|e] eqn:Ef;
    [|discriminate].
  cbn [bindR] in Hsign. injection Hsign as <- _.
  destruct (Signature_fromBytes_recovered_inv _ _ Ef)
    as (rec & rs & -> & Hl & Hr & Hs & ->).
  specialize (Hrec rec rs Es).
  assert (Ht : length (take 32 rs) = 32%nat) by (rewrite length_take; lia).
  assert (Hd : length (drop 32 rs) = 32%nat) by (rewrite length_drop; lia).
  exists rec, (take 32 rs), (drop 32 rs).
  rewrite take_drop, formatSignature_recovered by assumption.
  repeat split; try assumption.
  - rewrite <- fixed_hex_bytesToNumberBE, Ht. reflexivity.
  - rewrite <- fixed_hex_bytesToNumberBE, Hd. reflexivity.
  - rewrite !length_app, !length_hex_of_bytes, Ht, Hd. reflexivity.
  - change (drop 2 (str "0x" ++ ?x)) with x.
    rewrite <- !fixed_hex_bytesToNumberBE.
    repeat apply Forall_app_2; apply fixed_hex_lower.
Qed.

(** The fixture: the signature of [Hello World] under the derived key. *)
Lemma signature_wire_format_witness :
  exists (rec : byte) (r s : bytes),
    secp_sign RefLib (message_digest RefLib fixture_message) fixture_key
      true None = Ok (rec :: r ++ s)
    /\ length r = 32%nat /\ length s = 32%nat
    /\ fixture_signature
       = str "0x" ++ hex_of_bytes r ++ hex_of_bytes s
           ++ hex_of_bytes [byte_of_Z (byte_to_Z rec + 27)]
    /\ hex_of_bytes r = fixed_hex 64 (bytesToNumberBE r)
    /\ hex_of_bytes s = fixed_hex 64 (bytesToNumberBE s)
    /\ length fixture_signature = 132%nat
    /\ Forall (fun c => is_lower_hex c = true) (drop 2 fixture_signature).
Proof.
  apply (signature_wire_format RefLib fixture_message fixture_key
           (example_world 0 0) (example_world 0 0)).
  - intros rec rs Hs.
    assert (E : secp_sign RefLib (message_digest RefLib fixture_message)
                  fixture_key true None = Ok (x01 :: fixture_rs))
      by (vm_compute; reflexivity).
    rewrite E in Hs. injection Hs as <- _. vm_compute. discriminate.
  - vm_compute. reflexivity.
Defined.

(** C4.  Sign, then verify.  For a valid private key at which the ECDSA
    library keeps its contract ([EcdsaSound]), [signMessage] returns a
    signature, [getPublicKey] returns the public key, and
    [verifySignature] of that signature against that public key on the
    same message returns [true], in any world. *)
Theorem sign_verify_round_trip (L : CryptoLib) (m : MessageSigner.Message)
    (k : bytes) (w : World) :
  isValidSecretKey k = true ->
  EcdsaSound L (message_digest L m) k ->
  exists (sig : jsstring) (pk : bytes),
    MessageSigner.signMessage L m k w = (Ok sig, w)
    /\ KeyDerivation.getPublicKey L k = Ok pk
    /\ forall w2, MessageSigner.verifySignature L m sig pk w2 = (Ok true, w2).
Proof.
  intros _ (rec & rs & pk & Hsign & Hl & Hr & Hs & Hrec & Hpk & Hver).
  exists (MessageSigner.formatSignature
            {| sig_r := bytesToNumberBE (take 32 rs);
               sig_s := bytesToNumberBE (drop 32 rs);
               sig_recovery := Some (Int (byte_to_Z rec)) |}), pk.
  split; [|split].
  - rewrite signMessage_digest, sign_digest_run, Hsign. cbn [bindR].
    rewrite Signature_fromBytes_recovered by assumption. reflexivity.
  - exact Hpk.
  - intros w2.
    rewrite verifySignature_digest, verify_digest_run.
    rewrite formatSignature_recovered by assumption.
    unfold verify_core. rewrite sig_hex_0x.
    destruct (parse_formatted rs
                (hex_of_bytes [byte_of_Z (byte_to_Z rec + 27)]) Hl)
      as [-> ->].
    cbn [bindR]. unfold Signature_new. rewrite Hr, Hs.
    cbn [andb bindR Signature_toBytes sig_r sig_s].
    rewrite compact_of_parsed by assumption.
    rewrite Hver. reflexivity.
Qed.

(** The fixture, with ECDSA over secp256k1 as the standards define it. *)
Lemma sign_verify_round_trip_witness :
  exists (sig : jsstring) (pk : bytes),
    MessageSigner.signMessage RefLib fixture_message fixture_key
      (example_world 0 0) = (Ok sig, example_world 0 0)
    /\ KeyDerivation.getPublicKey RefLib fixture_key = Ok pk
    /\ forall w2,
         MessageSigner.verifySignature RefLib fixture_message sig pk w2
         = (Ok true, w2).
Proof.
  apply (sign_verify_round_trip RefLib fixture_message fixture_key
           (example_world 0 0)).
  - vm_compute. reflexivity.
  - exists x01, fixture_rs, fixture_publicKey.
    repeat apply conj; vm_compute; first [reflexivity | discriminate].
Defined.

End SigningClaims.

Section HashingClaims.

Lemma slices_of_take {A} (x : list A) :
  slice 0 64 x = take 64 (take 128 x)
  /\ slice 64 128 x = drop 64 (take 128 x).
Proof.
  unfold slice. cbn [Nat.sub]. rewrite drop_0. split.
  - rewrite take_take. reflexivity.
  - rewrite take_drop_commute. reflexivity.
Qed.

(** Only the first 128 characters after the optional [0x] are read. *)
Lemma verify_core_take (L : CryptoLib) (digest : bytes) (sig sig2 : jsstring)
    (pk : bytes) :
  take 128 (sig_hex sig2) = take 128 (sig_hex sig) ->
  verify_core L digest sig2 pk = verify_core L digest sig pk.
Proof.
  intros H. unfold verify_core.
  destruct (slices_of_take (sig_hex sig)) as [-> ->].
  destruct (slices_of_take (sig_hex sig2)) as [-> ->].
  rewrite H. reflexivity.
Qed.


(** C7, as the code has it.  [verifySignature] never throws and always
    returns a boolean.  It returns [true] exactly when the first 64 and
    the next 64 characters after an optional [0x] parse as hexadecimal
    numbers [r] and [s] in [[1, n-1]] and the library accepts [(r, s)]
    for the message hash and the public key; a parse error, a range
    error, an exception of the library and a rejection all give
    [false].  Nothing after those 128 characters is read: two signature
    texts that agree on them get the same answer, whatever their
    length and whatever follows. *)
Theorem verifySignature_never_throws (L : CryptoLib)
    (m : MessageSigner.Message) (sig : jsstring) (pk : bytes) (w : World) :
  exists (b : bool) (w' : World),
    MessageSigner.verifySignature L m sig pk w = (Ok b, w')
    /\ (b = true <-> verify_core L (message_digest L m) sig pk = Ok true)
    /\ (forall sig2,
          take 128 (sig_hex sig2) = take 128 (sig_hex sig) ->
          fst (MessageSigner.verifySignature L m sig2 pk w) = Ok b).
Proof.
  assert (Hrun : forall s,
            fst (MessageSigner.verifySignature L m s pk w)
            = Ok match verify_core L (message_digest L m) s pk with
                 | Ok b => b
                 | Throw _ => false
                 end).
  { intros s. rewrite verifySignature_digest, verify_digest_run.
    destruct (verify_core L (message_digest L m) s pk); reflexivity. }
  rewrite verifySignature_digest, verify_digest_run.
  destruct (verify_core L (message_digest L m) sig pk) as [b|e] eqn:E.
  - exists b, w. split; [reflexivity|]. split.
    + split; [intros ->; reflexivity | intros H; injection H; auto].
    + intros sig2 H2. rewrite Hrun, (verify_core_take _ _ _ _ _ H2), E.
      reflexivity.
  - eexists false, _. split; [reflexivity|]. split.
    + split; discriminate.
    + intros sig2 H2. rewrite Hrun, (verify_core_take _ _ _ _ _ H2), E.
      reflexivity.
Qed.

(** C7, counterexample.  Malformed signatures that verify: the fixture
    signature cut after [s] (130 characters instead of 132, no [v]), and
    the same followed by characters that are no hexadecimal digits, are
    both accepted for the fixture message and public key. *)
Lemma verifySignature_accepts_malformed :
  length truncated_signature = 130%nat
  /\ fst (MessageSigner.verifySignature RefLib fixture_message
            truncated_signature fixture_publicKey (example_world 0 0))
     = Ok true
  /\ fst (MessageSigner.verifySignature RefLib fixture_message
            garbled_signature fixture_publicKey (example_world 0 0))
     = Ok true.
Proof.
  repeat apply conj; vm_compute; reflexivity.
Qed.

End HashingClaims.

Section VaultClaims.

(** C8.  The cipher round trip.  [encrypt] draws a 16-byte salt and a
    12-byte nonce from the random source; where HKDF returns the 32
    bytes asked for and AES-GCM keeps its contract at the derived key
    and that nonce ([AeadRoundTrip]), [encrypt] returns a ciphertext
    with that salt and nonce, and [decrypt] of the returned ciphertext,
    nonce and salt with the same password returns the original bytes. *)
Theorem encrypt_decrypt_round_trip (L : CryptoLib) (data : bytes)
    (password : jsstring) (w : World) :
  length (encryption_key L password (drawn w 0 16)) = 32%nat ->
  AeadRoundTrip L (encryption_key L password (drawn w 0 16))
    (drawn w 16 12) data ->
  exists (enc : Encryption.EncryptResult) (w1 : World),
    Encryption.encrypt L data password w = (Ok enc, w1)
    /\ Encryption.salt enc = drawn w 0 16
    /\ Encryption.iv enc = drawn w 16 12
    /\ length (Encryption.salt enc) = 16%nat
    /\ length (Encryption.iv enc) = 12%nat
    /\ forall w2,
         Encryption.decrypt L (Encryption.encryptedData enc)
           (Encryption.iv enc) (Encryption.salt enc) password w2
         = (Ok data, w2).
Proof.
  intros Hlen (ct & Henc & Hdec).
  exists {| Encryption.encryptedData := ct;
            Encryption.iv := drawn w 16 12;
            Encryption.salt := drawn w 0 16 |}, (advance 12 (advance 16 w)).
  cbn [Encryption.encryptedData Encryption.iv Encryption.salt].
  split; [|split; [reflexivity|split; [reflexivity|split; [|split]]]].
  - rewrite encrypt_run, (importable_32 _ Hlen), Henc. reflexivity.
  - apply length_drawn.
  - apply length_drawn.
  - intros w2. rewrite decrypt_run, (importable_32 _ Hlen), Hdec.
    reflexivity.
Qed.

(** The fixture key encrypted under a password, with HKDF and AES-GCM as
    the standards define them. *)
Lemma encrypt_decrypt_round_trip_witness :
  exists (enc : Encryption.EncryptResult) (w1 : World),
    Encryption.encrypt RefLib fixture_key password_one (example_world 7 0)
    = (Ok enc, w1)
    /\ Encryption.salt enc = drawn (example_world 7 0) 0 16
    /\ Encryption.iv enc = drawn (example_world 7 0) 16 12
    /\ length (Encryption.salt enc) = 16%nat
    /\ length (Encryption.iv enc) = 12%nat
    /\ forall w2,
         Encryption.decrypt RefLib (Encryption.encryptedData enc)
           (Encryption.iv enc) (Encryption.salt enc) password_one w2
         = (Ok fixture_key, w2).
Proof.
  apply (encrypt_decrypt_round_trip RefLib fixture_key password_one
           (example_world 7 0)).
  - vm_compute. reflexivity.
  - exists (match aes_gcm_encrypt RefLib
                    (encryption_key RefLib password_one
                       (drawn (example_world 7 0) 0 16))
                    (drawn (example_world 7 0) 16 12) fixture_key with
            | Ok ct => ct
            | Throw _ => []
            end).
    apply conj; vm_compute; reflexivity.
Defined.

(** C8 for the standard algorithms, with nothing assumed: with HKDF over
    SHA-256 and AES-256-GCM as the standards define them, [decrypt]
    returns the original bytes for every payload, every password and
    every state of the random source. *)
Corollary encrypt_decrypt_round_trip_reference (data : bytes)
    (password : jsstring) (w : World) :
  exists (enc : Encryption.EncryptResult) (w1 : World),
    Encryption.encrypt RefLib data password w = (Ok enc, w1)
    /\ forall w2,
         Encryption.decrypt RefLib (Encryption.encryptedData enc)
           (Encryption.iv enc) (Encryption.salt enc) password w2
         = (Ok data, w2).
Proof.
  pose proof (RefLib_encryption_key_length password (drawn w 0 16)) as Hlen.
  destruct (RefLib_AeadRoundTrip _ _ data Hlen (length_drawn w 16 12))
    as (ct & Henc & Hdec).
  exists {| Encryption.encryptedData := ct;
            Encryption.iv := drawn w 16 12;
            Encryption.salt := drawn w 0 16 |}, (advance 12 (advance 16 w)).
  cbn [Encryption.encryptedData Encryption.iv Encryption.salt].
  split.
  - rewrite encrypt_run, (importable_32 _ Hlen), Henc. reflexivity.
  - intros w2. rewrite decrypt_run, (importable_32 _ Hlen), Hdec.
    reflexivity.
Qed.



(** C10.  [getEthereumAddress] is a function of the private key alone
    (the library, no world).  Where the library returns the uncompressed
    public key and the hash has 32 bytes, the address is [0x] followed by
    the 40 lowercase hexadecimal characters of the last 20 bytes of the
    SHA-256 hash of the public key without its first byte. *)
Theorem getEthereumAddress_sha256 (L : CryptoLib) (privateKey pk : bytes) :
  secp_getPublicKey L privateKey false = Ok pk ->
  length (sha256 L (drop 1 pk)) = 32%nat ->
  exists address : jsstring,
    KeyDerivation.getEthereumAddress L privateKey = Ok address
    /\ address = str "0x" ++ hex_of_bytes (drop 12 (sha256 L (drop 1 pk)))
    /\ length address = 42%nat
    /\ Forall (fun c => is_lower_hex c = true) (drop 2 address).
Proof.
  intros Hpk Hlen.
  assert (Haddr :
    concat (map (fun b => padStart 2 48%N (toString 16 (byte_to_Z b)))
                (slice_last 20 (sha256 L (slice_from 1 pk))))
    = hex_of_bytes (drop 12 (sha256 L (drop 1 pk)))).
  { unfold slice_last, slice_from, hex_of_bytes. rewrite Hlen.
    change (32 - 20)%nat with 12%nat. f_equal.
    apply map_ext. intros b.
    pose proof (byte_to_Z_range b) as Hb.
    rewrite (padStart_toString_hex 2)
      by (change (16 ^ Z.of_nat 2)%Z with 256%Z; lia).
    rewrite hex_of_byte_fixed, byte_of_to_Z by lia. reflexivity. }
  exists (str "0x" ++ hex_of_bytes (drop 12 (sha256 L (drop 1 pk)))).
  split; [|split; [reflexivity|split]].
  - unfold KeyDerivation.getEthereumAddress. rewrite Hpk. cbn [bindR].
    rewrite Haddr. reflexivity.
  - rewrite length_app, length_hex_of_bytes, length_drop, Hlen. reflexivity.
  - change (drop 2 (str "0x" ++ ?x)) with x.
    rewrite <- fixed_hex_bytesToNumberBE. apply fixed_hex_lower.
Qed.

(** The private key 1: the address computed with SHA-256, which is not
    the address [0x7e5f4552091a69125d5dfcb7b8c2659029395bdf] that
    Keccak-256 gives this key on Ethereum. *)
Lemma getEthereumAddress_sha256_witness :
  exists address : jsstring,
    KeyDerivation.getEthereumAddress RefLib (numberToBytesBE 1 32) = Ok address
    /\ address = str "0xb46a7a1a23f3897cc83a94521a96da5c23bc58db"
    /\ address <> str "0x7e5f4552091a69125d5dfcb7b8c2659029395bdf".
Proof.
  destruct (getEthereumAddress_sha256 RefLib (numberToBytesBE 1 32)
              (match secp_getPublicKey RefLib (numberToBytesBE 1 32) false with
               | Ok pk => pk
               | Throw _ => []
               end))
    as (address & Hrun & Heq & _).
  - vm_compute. reflexivity.
  - vm_compute. reflexivity.
  - exists address. split; [exact Hrun|].
    assert (E : address = str "0xb46a7a1a23f3897cc83a94521a96da5c23bc58db")
      by (rewrite Heq; vm_compute; reflexivity).
    split; [exact E|]. rewrite E. vm_compute. discriminate.
Defined.

End VaultClaims.

(* ================================================================== *)
(** * 13. Base64 text                                                   *)
(* ================================================================== *)

Section Base64Text.

Lemma length_base64_text (bs : list Z) :
  length (sextets_of_bytes bs) + length (base64_padding (length bs))
  = 4 * ((length bs + 2) / 3).
Proof.
  destruct (length_sextets_of_bytes bs) as [q [[Hb Hq]|[[Hb Hq]|[Hb Hq]]]];
    rewrite Hq, Hb; unfold base64_padding.
  - replace (3 * q) with (0 + q * 3) by lia.
    rewrite Nat.Div0.mod_add. change (0 mod 3) with 0. cbv iota. cbn [length].
    replace (0 + q * 3 + 2) with (q * 3 + 2) by lia.
    rewrite Nat.div_add_l by lia. change (2 / 3) with 0. lia.
  - replace (3 * q + 1) with (1 + q * 3) by lia.
    rewrite Nat.Div0.mod_add. change (1 mod 3) with 1. cbv iota. cbn [length].
    replace (1 + q * 3 + 2) with ((q + 1) * 3 + 0) by lia.
    rewrite Nat.div_add_l by lia. change (0 / 3) with 0. lia.
  - replace (3 * q + 2) with (2 + q * 3) by lia.
    rewrite Nat.Div0.mod_add. change (2 mod 3) with 2. cbv iota. cbn [length].
    replace (2 + q * 3 + 2) with ((q + 1) * 3 + 1) by lia.
    rewrite Nat.div_add_l by lia. change (1 / 3) with 0. lia.
Qed.

Lemma octets_of_bytes (bs : bytes) :
  Forall is_octet (map Z.of_N (String_fromCharCode bs)).
Proof.
  unfold String_fromCharCode. rewrite map_map. apply Forall_map.
  apply List.Forall_forall. intros b _. apply (byte_to_Z_range b).
Qed.

(** What [bytesToBase64] returns: the characters of the 6-bit groups,
    then the padding. *)
Lemma bytesToBase64_run (bs : bytes) :
  Encryption.bytesToBase64 bs
  = Ok (map base64_char (sextets_of_bytes (map Z.of_N (String_fromCharCode bs)))
          ++ base64_padding (length bs)).
Proof.
  unfold Encryption.bytesToBase64, btoa.
  replace (forallb (fun c => (c <=? 255)%N) (String_fromCharCode bs)) with true.
  - replace (length (String_fromCharCode bs)) with (length bs)
      by (unfold String_fromCharCode; rewrite length_map; reflexivity).
    reflexivity.
  - symmetry. apply forallb_forall. intros c Hc.
    apply in_map_iff in Hc as (b & <- & _).
    apply N.leb_le, Byte.to_N_bounded.
Qed.

Lemma bytesToBase64_spec (bs : bytes) :
  exists text : jsstring,
    Encryption.bytesToBase64 bs = Ok text
    /\ Encryption.base64ToBytes text = Ok bs
    /\ length text = 4 * ((length bs + 2) / 3)
    /\ Forall (fun c => is_base64_char c = true) text.
Proof.
  destruct (base64ToBytes_bytesToBase64 bs) as (text & Henc & Hdec).
  exists text. split; [exact Henc|]. split; [exact Hdec|].
  rewrite bytesToBase64_run in Henc. injection Henc as <-.
  split.
  - rewrite length_app, length_map.
    pose proof (length_base64_text (map Z.of_N (String_fromCharCode bs))) as H.
    unfold String_fromCharCode in H |- *. rewrite !length_map in H.
    exact H.
  - apply Forall_app_2.
    + apply Forall_map.
      eapply Forall_impl; [apply sextets_of_bytes_range, octets_of_bytes|].
      intros x Hx. cbn beta. unfold is_base64_char.
      rewrite base64_value_char by exact Hx. reflexivity.
    + eapply Forall_impl; [apply base64_padding_spec|].
      intros c ->. reflexivity.
Qed.

Lemma filter_not_whitespace_idemp (s : jsstring) :
  List.filter (fun c => negb (is_ascii_whitespace c))
    (List.filter (fun c => negb (is_ascii_whitespace c)) s)
  = List.filter (fun c => negb (is_ascii_whitespace c)) s.
Proof.
  induction s as [|c s IH]; [reflexivity|]. cbn [List.filter].
  destruct (negb (is_ascii_whitespace c)) eqn:E; [|exact IH].
  cbn [List.filter]. rewrite E, IH. reflexivity.
Qed.

(** [atob] sees its argument only through what is left once the white
    space is removed. *)
Lemma atob_whitespace (s t : jsstring) :
  List.filter (fun c => negb (is_ascii_whitespace c)) s
  = List.filter (fun c => negb (is_ascii_whitespace c)) t ->
  atob s = atob t.
Proof. intros H. unfold atob. rewrite H. reflexivity. Qed.

Lemma strip_padding_keeps (c : code_unit) (l : jsstring) :
  In c l -> c <> 61%N -> In c (strip_padding l).
Proof.
  intros Hin Hc. unfold strip_padding.
  destruct (length l mod 4 =? 0); [|exact Hin].
  assert (Hrev : In c (rev l)) by (apply in_rev; rewrite rev_involutive; exact Hin).
  destruct (rev l) as [|a r] eqn:E; [exact Hin|].
  destruct (a =? 61)%N eqn:Ea; [|exact Hin].
  apply N.eqb_eq in Ea. subst a.
  destruct Hrev as [E1|Hr]; [exfalso; apply Hc; symmetry; exact E1|].
  destruct r as [|b r']; [destruct Hr|].
  destruct (b =? 61)%N eqn:Eb.
  - apply N.eqb_eq in Eb. subst b.
    destruct Hr as [E1|Hr]; [exfalso; apply Hc; symmetry; exact E1|].
    apply in_rev in Hr. exact Hr.
  - apply in_rev in Hr. exact Hr.
Qed.

Lemma base64_values_foreign (c : code_unit) (l : jsstring) :
  In c l -> base64_value c = None -> base64_values l = None.
Proof.
  intros Hin Hc. induction l as [|a l IH]; [destruct Hin|].
  cbn [base64_values]. destruct Hin as [->|Hin].
  - rewrite Hc. reflexivity.
  - rewrite (IH Hin). destruct (base64_value a); reflexivity.
Qed.

Lemma atob_foreign (s : jsstring) (c : code_unit) :
  In c s -> base64_value c = None -> c <> 61%N ->
  is_ascii_whitespace c = false ->
  atob s = Throw (DOMException "InvalidCharacterError").
Proof.
  intros Hin Hv Hpad Hws. unfold atob.
  set (data := strip_padding _).
  assert (Hd : In c data).
  { apply strip_padding_keeps; [|exact Hpad].
    apply filter_In. split; [exact Hin|]. rewrite Hws. reflexivity. }
  rewrite (base64_values_foreign c data Hd Hv).
  destruct (length data mod 4 =? 1); reflexivity.
Qed.

(** [generatePassword(n)]: the base64 text of the next [n] random
    bytes. *)
Lemma generatePassword_run (n : nat) (w : World) :
  exists password : jsstring,
    Encryption.generatePassword n w = (Ok password, advance n w)
    /\ Encryption.base64ToBytes password = Ok (drawn w 0 n)
    /\ length password = 4 * ((n + 2) / 3).
Proof.
  destruct (bytesToBase64_spec (drawn w 0 n)) as (pw & Henc & Hdec & Hlen & _).
  rewrite length_drawn in Hlen.
  exists pw. split; [|split; [exact Hdec|exact Hlen]].
  unfold Encryption.generatePassword, bind.
  rewrite getRandomValues_run. unfold liftR. rewrite Henc. reflexivity.
Qed.

End Base64Text.

(* ================================================================== *)
(** * 14. Parsing a signature                                           *)
(* ================================================================== *)

Section Recovery.
Variable L : CryptoLib.
Local Open Scope Z_scope.

Lemma BigInt_0x_throws (s : jsstring) (e : Exn) :
  BigInt_0x s = Throw e -> e = SyntaxError.
Proof.
  unfold BigInt_0x. destruct (trim_end s) as [|c l].
  - intros [= <-]. reflexivity.
  - destruct (hex_digits_value 0 (c :: l)); intros [= <-]. reflexivity.
Qed.

Lemma slice_beyond {A} (a b : nat) (l : list A) :
  (length l <= a)%nat -> slice a b l = [].
Proof.
  intros H. unfold slice. rewrite drop_ge by lia. apply take_nil.
Qed.

Lemma recoverPublicKey_run (m : MessageSigner.Message) (sig : jsstring)
    (w : World) :
  MessageSigner.recoverPublicKey L m sig w
  = (recover_core L (message_digest L m) sig, w).
Proof.
  rewrite recoverPublicKey_digest.
  unfold recover_digest, recover_core, bind, liftR, recoverPublicKeyAsync.
  fold (sig_hex sig).
  destruct (BigInt_0x (slice 0 64 (sig_hex sig))) as [r|e]; [|reflexivity].
  destruct (BigInt_0x (slice 64 128 (sig_hex sig))) as [s|e]; [|reflexivity].
  cbn [bindR].
  destruct (Signature_new r s _) as [sg|e]; [|reflexivity].
  cbn [bindR].
  destruct (Signature_toBytes sg Recovered) as [rb|e]; reflexivity.
Qed.

(** The byte [v] of a formatted signature reads back as the recovery id
    plus 27. *)
Lemma parseInt16_v (rec : byte) :
  byte_to_Z rec <= 3 ->
  parseInt16 (hex_of_bytes [byte_of_Z (byte_to_Z rec + 27)])
  = Some (byte_to_Z rec + 27).
Proof.
  intros H. pose proof (byte_to_Z_range rec) as Hr.
  assert (C : byte_to_Z rec = 0 \/ byte_to_Z rec = 1
              \/ byte_to_Z rec = 2 \/ byte_to_Z rec = 3) by lia.
  destruct C as [->|[->|[->| ->]]]; vm_compute; reflexivity.
Qed.

Lemma slice_v (rs : bytes) (tail : jsstring) :
  length rs = 64%nat -> length tail = 2%nat ->
  slice 128 130
    (hex_of_bytes (take 32 rs) ++ hex_of_bytes (drop 32 rs) ++ tail)
  = tail.
Proof.
  intros Hl Ht. unfold slice. change (130 - 128)%nat with 2%nat.
  rewrite app_assoc, drop_app_length'.
  - apply take_ge. lia.
  - rewrite length_app, !length_hex_of_bytes, length_take, length_drop. lia.
Qed.

(** What [recoverPublicKey] rebuilds from a formatted signature: the 65
    bytes it was formatted from. *)
Lemma recover_core_formatted (digest : bytes) (rec : byte) (rs : bytes) :
  length rs = 64%nat ->
  valid_scalar (bytesToNumberBE (take 32 rs)) = true ->
  valid_scalar (bytesToNumberBE (drop 32 rs)) = true ->
  byte_to_Z rec <= 3 ->
  recover_core L digest
    (str "0x" ++ hex_of_bytes (take 32 rs) ++ hex_of_bytes (drop 32 rs)
       ++ hex_of_bytes [byte_of_Z (byte_to_Z rec + 27)])
  = secp_recover L (rec :: rs) digest.
Proof.
  intros Hl Hr Hs Hrec. unfold recover_core. rewrite sig_hex_0x.
  destruct (parse_formatted rs
              (hex_of_bytes [byte_of_Z (byte_to_Z rec + 27)]) Hl) as [-> ->].
  rewrite (slice_v rs _ Hl) by reflexivity.
  rewrite (parseInt16_v rec Hrec). cbn [bindR].
  pose proof (byte_to_Z_range rec) as Hb.
  replace (27 <=? byte_to_Z rec + 27) with true by (symmetry; apply Z.leb_le; lia).
  replace (byte_to_Z rec + 27 - 27) with (byte_to_Z rec) by lia.
  unfold Signature_new. rewrite Hr, Hs. cbn [andb bindR].
  unfold Signature_toBytes. cbn [sig_recovery sig_r sig_s].
  replace (0 <=? byte_to_Z rec) with true by (symmetry; apply Z.leb_le; lia).
  replace (byte_to_Z rec <=? 3) with true by (symmetry; apply Z.leb_le; lia).
  cbn [andb bindR]. rewrite byte_of_to_Z, compact_of_parsed by exact Hl.
  reflexivity.
Qed.

End Recovery.

Section UpperCase.
Local Open Scope N_scope.

Lemma upper_hex_cases (c : code_unit) :
  (97 <= c <= 102 /\ upper_hex c = c - 32) \/ (~ 97 <= c <= 102 /\ upper_hex c = c).
Proof.
  unfold upper_hex.
  destruct (97 <=? c) eqn:E1; destruct (c <=? 102) eqn:E2; cbn [andb];
    try apply N.leb_le in E1; try apply N.leb_le in E2;
    try apply N.leb_gt in E1; try apply N.leb_gt in E2;
    [left|right|right|right]; split; try reflexivity; lia.
Qed.

Lemma hex_value_upper (c : code_unit) : hex_value (upper_hex c) = hex_value c.
Proof.
  destruct (upper_hex_cases c) as [[Hc ->]|[_ ->]]; [|reflexivity].
  unfold hex_value.
  replace ((48 <=? c - 32) && (c - 32 <=? 57)) with false
    by (symmetry; apply andb_false_iff; right; apply N.leb_gt; lia).
  replace ((97 <=? c - 32) && (c - 32 <=? 102)) with false
    by (symmetry; apply andb_false_iff; left; apply N.leb_gt; lia).
  replace ((65 <=? c - 32) && (c - 32 <=? 70)) with true
    by (symmetry; apply andb_true_iff; split; apply N.leb_le; lia).
  replace ((48 <=? c) && (c <=? 57)) with false
    by (symmetry; apply andb_false_iff; right; apply N.leb_gt; lia).
  replace ((97 <=? c) && (c <=? 102)) with true
    by (symmetry; apply andb_true_iff; split; apply N.leb_le; lia).
  f_equal. lia.
Qed.

Lemma is_js_whitespace_upper (c : code_unit) :
  is_js_whitespace (upper_hex c) = is_js_whitespace c.
Proof.
  destruct (upper_hex_cases c) as [[Hc ->]|[_ ->]]; [|reflexivity].
  assert (Hsmall : forall d, 65 <= d <= 102 -> is_js_whitespace d = false).
  { intros d Hd. unfold is_js_whitespace.
    repeat match goal with
           | |- context [(d =? ?n)] =>
               replace (d =? n) with false by (symmetry; apply N.eqb_neq; lia)
           end.
    replace (8192 <=? d) with false by (symmetry; apply N.leb_gt; lia).
    reflexivity. }
  rewrite !Hsmall by lia. reflexivity.
Qed.

Lemma trim_start_upper (s : jsstring) :
  trim_start (map upper_hex s) = map upper_hex (trim_start s).
Proof.
  induction s as [|c s IH]; [reflexivity|].
  cbn [map trim_start]. rewrite is_js_whitespace_upper.
  destruct (is_js_whitespace c); [exact IH|reflexivity].
Qed.

Lemma trim_end_upper (s : jsstring) :
  trim_end (map upper_hex s) = map upper_hex (trim_end s).
Proof.
  unfold trim_end. rewrite <- map_rev, trim_start_upper, map_rev. reflexivity.
Qed.

Lemma hex_digits_value_upper (s : jsstring) (acc : Z) :
  hex_digits_value acc (map upper_hex s) = hex_digits_value acc s.
Proof.
  revert acc. induction s as [|c s IH]; intros acc; [reflexivity|].
  cbn [map hex_digits_value]. rewrite hex_value_upper.
  destruct (hex_value c); [apply IH|reflexivity].
Qed.

Lemma BigInt_0x_upper (s : jsstring) :
  BigInt_0x (map upper_hex s) = BigInt_0x s.
Proof.
  unfold BigInt_0x. rewrite trim_end_upper.
  destruct (trim_end s) as [|c l] eqn:E; [reflexivity|].
  cbn [map].
  change (upper_hex c :: map upper_hex l) with (map upper_hex (c :: l)).
  rewrite hex_digits_value_upper. reflexivity.
Qed.

Lemma slice_map {A B} (f : A -> B) (a b : nat) (s : list A) :
  slice a b (map f s) = map f (slice a b s).
Proof. unfold slice. rewrite skipn_map, firstn_map. reflexivity. Qed.

End UpperCase.

Section DecimalLength.
Local Open Scope Z_scope.

(** A larger number has at least as many digits. *)
Lemma digits_le_length_mono (base : Z) :
  1 < base ->
  forall (fuel1 fuel2 : nat) (n1 n2 : Z),
    0 <= n1 <= n2 ->
    n1 < base ^ Z.of_nat fuel1 -> n2 < base ^ Z.of_nat fuel2 ->
    (1 <= fuel2)%nat ->
    (length (digits_le base fuel1 n1) <= length (digits_le base fuel2 n2))%nat.
Proof.
  intros Hb. induction fuel1 as [|f1 IH]; intros fuel2 n1 n2 Hn H1 H2 Hf.
  - cbn [digits_le length]. lia.
  - destruct fuel2 as [|f2]; [lia|].
    cbn [digits_le].
    destruct (n1 <? base) eqn:E1.
    + destruct (n2 <? base); cbn [length]; lia.
    + apply Z.ltb_ge in E1.
      destruct (n2 <? base) eqn:E2; [apply Z.ltb_lt in E2; lia|].
      cbn [length]. apply le_n_S.
      rewrite Nat2Z.inj_succ, Z.pow_succ_r in H1, H2 by lia.
      apply IH.
      * split; [apply Z.div_pos; lia | apply Z.div_le_mono; lia].
      * apply Z.div_lt_upper_bound; lia.
      * apply Z.div_lt_upper_bound; lia.
      * destruct f2 as [|f2]; [|lia].
        change (base ^ Z.of_nat 0) with 1 in H2. lia.
Qed.

Lemma length_decimal_text (n : Z) :
  0 <= n ->
  length (TextEncoder_encode (toString 10 n))
  = length (digits_le 10 (digit_fuel n) n).
Proof.
  intros Hn. rewrite toString_nonneg by exact Hn.
  destruct (digits_le_value 10 (digit_fuel n) n ltac:(lia)) as (_ & Hd & _).
  { split; [exact Hn | apply digit_fuel_enough; lia]. }
  rewrite TextEncoder_encode_digits.
  - rewrite length_map, length_rev. reflexivity.
  - apply Forall_rev. exact Hd.
Qed.

Lemma length_decimal_text_mono (n1 n2 : Z) :
  0 <= n1 <= n2 ->
  (length (TextEncoder_encode (toString 10 n1))
   <= length (TextEncoder_encode (toString 10 n2)))%nat.
Proof.
  intros H. rewrite !length_decimal_text by lia.
  apply digits_le_length_mono; try lia.
  - apply digit_fuel_enough; lia.
  - apply digit_fuel_enough; lia.
  - unfold digit_fuel. lia.
Qed.

Lemma eip191_buffer_inj (m1 m2 : bytes) :
  eip191_buffer m1 = eip191_buffer m2 -> m1 = m2.
Proof.
  unfold eip191_buffer. intros H. apply app_inv_head in H.
  assert (Hlen : length m1 = length m2).
  { pose proof (f_equal (@length _) H) as Hl. rewrite !length_app in Hl.
    destruct (Nat.lt_trichotomy (length m1) (length m2)) as [Hlt|[Heq|Hgt]];
      [|exact Heq|].
    - pose proof (length_decimal_text_mono (Z.of_nat (length m1))
                    (Z.of_nat (length m2)) ltac:(lia)). lia.
    - pose proof (length_decimal_text_mono (Z.of_nat (length m2))
                    (Z.of_nat (length m1)) ltac:(lia)). lia. }
  rewrite Hlen in H. apply app_inv_head in H. exact H.
Qed.

End DecimalLength.

(* ================================================================== *)
(** * 15. The object store of signing keys                              *)
(* ================================================================== *)

Section KeyStore.
Variable L : CryptoLib.

Lemma hasKey_run (credentialId : jsstring) (w : World) :
  idb_available w = true ->
  KeyStorage.hasKey credentialId w
  = (Ok (bool_decide (is_Some (signing_keys w !! credentialId))), w).
Proof.
  intros Ha. unfold KeyStorage.hasKey, try_catch.
  unfold bind at 1, openDB. rewrite Ha.
  unfold bind at 1, db_get, ret.
  destruct (signing_keys w !! credentialId) as [r|]; reflexivity.
Qed.

Lemma deleteKey_run (credentialId : jsstring) (w : World) :
  idb_available w = true ->
  KeyStorage.deleteKey credentialId w
  = (Ok tt, with_signing_keys (delete credentialId) w).
Proof.
  intros Ha. unfold KeyStorage.deleteKey, try_catch, bind, openDB.
  rewrite Ha. reflexivity.
Qed.

Lemma clearAllKeys_run (w : World) :
  idb_available w = true ->
  KeyStorage.clearAllKeys w = (Ok tt, with_signing_keys (fun _ => ∅) w).
Proof.
  intros Ha. unfold KeyStorage.clearAllKeys, try_catch, bind, openDB.
  rewrite Ha. reflexivity.
Qed.

(** What [encrypt] does to the world: it draws 28 bytes. *)
Lemma encrypt_world (data : bytes) (password : jsstring) (w : World) :
  snd (Encryption.encrypt L data password w) = advance 12 (advance 16 w).
Proof. rewrite encrypt_run. reflexivity. Qed.

Local Ltac store_fails :=
  intros [= <- <-]; right; eexists; split;
  [reflexivity
  |split; [reflexivity|cbn; rewrite length_app; cbn; lia]].

(** [storeKey] either succeeds or throws its own error; when it throws,
    the store is as it was and the cause is on the console. *)
Lemma storeKey_outcomes (credentialId : jsstring) (privateKey : bytes)
    (password : jsstring) (md : option KeyMetadata) (w : World) :
  (exists w', KeyStorage.storeKey L credentialId privateKey password md w
              = (Ok tt, w'))
  \/ (exists w',
        KeyStorage.storeKey L credentialId privateKey password md w
        = (Throw (Error "Failed to store signing key"), w')
        /\ signing_keys w' = signing_keys w
        /\ length (console w') = S (length (console w))).
Proof.
  destruct (KeyStorage.storeKey L credentialId privateKey password md w)
    as [r w'] eqn:E.
  revert E. unfold KeyStorage.storeKey, try_catch.
  unfold bind at 1. rewrite encrypt_run.
  destruct (importable _); [|store_fails].
  destruct (aes_gcm_encrypt L _ _ privateKey) as [ct|e]; [|store_fails].
  cbn [bindR Encryption.encryptedData Encryption.iv Encryption.salt].
  unfold bind at 1, liftR at 1.
  destruct (Encryption.bytesToBase64 ct) as [ek|e]; [|store_fails].
  unfold bind at 1, liftR at 1.
  destruct (Encryption.bytesToBase64 (drawn w 16 12)) as [iv|e];
    [|store_fails].
  unfold bind at 1, liftR at 1.
  destruct (Encryption.bytesToBase64 (drawn w 0 16)) as [sa|e];
    [|store_fails].
  unfold bind at 1, Date_now.
  unfold bind at 1, openDB.
  destruct (idb_available _); [|store_fails].
  intros [= <- <-]. left. eexists. reflexivity.
Qed.

Lemma storeKey_unavailable (credentialId : jsstring) (privateKey : bytes)
    (password : jsstring) (md : option KeyMetadata) (w : World) :
  idb_available w = false ->
  exists w',
    KeyStorage.storeKey L credentialId privateKey password md w
    = (Throw (Error "Failed to store signing key"), w')
    /\ signing_keys w' = signing_keys w.
Proof.
  intros Ha.
  destruct (storeKey_outcomes credentialId privateKey password md w)
    as [[w' H]|(w' & H & Hs & _)]; [|eauto].
  exfalso. revert H.
  unfold KeyStorage.storeKey, try_catch.
  unfold bind at 1. rewrite encrypt_run.
  destruct (importable _); [|discriminate].
  destruct (aes_gcm_encrypt L _ _ privateKey) as [ct|e]; [|discriminate].
  cbn [bindR Encryption.encryptedData Encryption.iv Encryption.salt].
  unfold bind at 1, liftR at 1.
  destruct (Encryption.bytesToBase64 ct) as [ek|e]; [|discriminate].
  unfold bind at 1, liftR at 1.
  destruct (Encryption.bytesToBase64 (drawn w 16 12)) as [iv|e];
    [|discriminate].
  unfold bind at 1, liftR at 1.
  destruct (Encryption.bytesToBase64 (drawn w 0 16)) as [sa|e];
    [|discriminate].
  unfold bind at 1, Date_now.
  unfold bind at 1, openDB. cbn [idb_available advance]. rewrite Ha.
  discriminate.
Qed.

Lemma retrieveKey_unavailable (credentialId password : jsstring) (w : World) :
  idb_available w = false ->
  exists w' : World,
    KeyStorage.retrieveKey L credentialId password w = (Ok None, w')
    /\ idb_available w' = false.
Proof.
  intros Ha. unfold KeyStorage.retrieveKey, try_catch, bind, openDB.
  rewrite Ha. eexists. split; [reflexivity|exact Ha].
Qed.

Lemma same_but_console_refl (w : World) : same_but_console w w.
Proof. repeat split. Qed.

Lemma same_but_console_logged (label : jsstring) (e : Exn) (w : World) :
  same_but_console w (snd (console_error label e w)).
Proof. repeat split. Qed.

(** [retrieveKey] reads: it leaves everything but the console as it
    is. *)
Lemma retrieveKey_read_only (credentialId password : jsstring) (w : World) :
  same_but_console w
    (snd (KeyStorage.retrieveKey L credentialId password w)).
Proof.
  unfold KeyStorage.retrieveKey, try_catch.
  unfold bind at 1, openDB.
  destruct (idb_available w); [|apply same_but_console_logged].
  unfold bind at 1, db_get.
  destruct (signing_keys w !! credentialId) as [record|];
    [|apply same_but_console_refl].
  unfold bind at 1, liftR at 1.
  destruct (Encryption.base64ToBytes (rec_encryptedKey record)) as [ed|e];
    [|apply same_but_console_logged].
  unfold bind at 1, liftR at 1.
  destruct (Encryption.base64ToBytes (rec_iv record)) as [iv|e];
    [|apply same_but_console_logged].
  unfold bind at 1, liftR at 1.
  destruct (Encryption.base64ToBytes (rec_salt record)) as [salt|e];
    [|apply same_but_console_logged].
  unfold bind at 1. rewrite decrypt_run.
  destruct (importable _); [|apply same_but_console_logged].
  destruct (aes_gcm_decrypt L _ iv ed);
    [apply same_but_console_refl|apply same_but_console_logged].
Qed.


End KeyStore.

(* ================================================================== *)
(** * 16. The object store of session data                              *)
(* ================================================================== *)

Section SessionStore.
Context {any : Type} (J : JsonLib any).

(** An operation of the world that leaves the world as it is leaves the
    browser as it is. *)
Lemma in_world_pure {A} (m : M A) (b : Browser) (r : Result A) :
  m (world b) = (r, world b) -> in_world m b = (r, b).
Proof. destruct b. unfold in_world. cbn. intros ->. reflexivity. Qed.

Lemma with_session_data_id (b : Browser) :
  with_session_data (fun m => m) b = b.
Proof. destruct b. reflexivity. Qed.

Lemma logged_session_data (label : jsstring) (e : Exn) (b : Browser) :
  session_data (logged label e b) = session_data b
  /\ signing_keys (world (logged label e b)) = signing_keys (world b)
  /\ sessionStorage (logged label e b) = sessionStorage b
  /\ signingKey (logged label e b) = signingKey b.
Proof. repeat split. Qed.

Lemma storeSessionData_run (key : jsstring) (data : any)
    (expiresIn : option Z) (b : Browser) (text : option jsstring) :
  idb_available (world b) = true ->
  JSON_stringify J data = Ok text ->
  KeyStorageSession.storeSessionData J key data expiresIn b
  = (Ok tt,
     with_session_data
       (insert key
          {| sess_id := key; sess_data := text;
             sess_timestamp := clock (world b);
             sess_expiresAt := session_deadline expiresIn (clock (world b)) |})
       b).
Proof.
  intros Ha Hj.
  unfold KeyStorageSession.storeSessionData, try_catchB.
  unfold bindB at 1.
  rewrite (in_world_pure _ b (Ok text)) by (unfold liftR; rewrite Hj; reflexivity).
  unfold bindB at 1.
  rewrite (in_world_pure _ b (Ok (clock (world b)))) by reflexivity.
  unfold bindB at 1.
  assert (Hexp :
    match expiresIn with
    | Some e =>
        if truthy e then
          bindB (in_world Date_now) (fun now => retB (Some (now + e)%Z))
        else retB None
    | None => retB None
    end b = (Ok (session_deadline expiresIn (clock (world b))), b)).
  { unfold session_deadline. destruct expiresIn as [e|]; [|reflexivity].
    destruct (truthy e); [|reflexivity].
    unfold bindB.
    rewrite (in_world_pure _ b (Ok (clock (world b)))) by reflexivity.
    reflexivity. }
  rewrite Hexp.
  unfold bindB at 1.
  rewrite (in_world_pure _ b (Ok tt)) by (unfold openDB; rewrite Ha; reflexivity).
  reflexivity.
Qed.

Lemma openDB_unavailable (b : Browser) :
  idb_available (world b) = false ->
  in_world openDB b = (Throw (DOMException "UnknownError"), b).
Proof.
  intros Ha. apply in_world_pure. unfold openDB. rewrite Ha. reflexivity.
Qed.

(** Whatever fails in [storeSessionData], the caller sees the same
    [Error], the cause is on the console and the store is untouched;
    without a database it always fails. *)
Lemma storeSessionData_unavailable (key : jsstring) (data : any)
    (expiresIn : option Z) (b : Browser) :
  idb_available (world b) = false ->
  exists e : Exn,
    KeyStorageSession.storeSessionData J key data expiresIn b
    = (Throw (Error "Failed to store session data"),
       logged (str "Failed to store session data:") e b).
Proof.
  intros Ha. unfold KeyStorageSession.storeSessionData, try_catchB.
  unfold bindB at 1.
  rewrite (in_world_pure _ b (JSON_stringify J data)) by reflexivity.
  destruct (JSON_stringify J data) as [text|e]; [|exists e; reflexivity].
  unfold bindB at 1.
  rewrite (in_world_pure _ b (Ok (clock (world b)))) by reflexivity.
  unfold bindB at 1.
  assert (Hexp :
    match expiresIn with
    | Some e =>
        if truthy e then
          bindB (in_world Date_now) (fun now => retB (Some (now + e)%Z))
        else retB None
    | None => retB None
    end b = (Ok (session_deadline expiresIn (clock (world b))), b)).
  { unfold session_deadline. destruct expiresIn as [e|]; [|reflexivity].
    destruct (truthy e); [|reflexivity].
    unfold bindB.
    rewrite (in_world_pure _ b (Ok (clock (world b)))) by reflexivity.
    reflexivity. }
  rewrite Hexp. unfold bindB at 1. rewrite (openDB_unavailable b Ha).
  eexists. reflexivity.
Qed.

Lemma getSessionData_missing (key : jsstring) (b : Browser) :
  session_data b !! key = None ->
  fst (KeyStorageSession.getSessionData J key b) = Ok None.
Proof.
  intros Hk. unfold KeyStorageSession.getSessionData, try_catchB.
  unfold bindB at 1.
  destruct (idb_available (world b)) eqn:Ha.
  - rewrite (in_world_pure _ b (Ok tt))
      by (unfold openDB; rewrite Ha; reflexivity).
    unfold bindB at 1, session_get. rewrite Hk. reflexivity.
  - destruct b as [w sd ss sk]. unfold in_world, openDB. cbn in Ha |- *.
    rewrite Ha. reflexivity.
Qed.

(** With the database open and a record under [key]: an expired record
    is deleted and [null] is returned; otherwise the text is parsed. *)
Lemma getSessionData_run (key : jsstring) (b : Browser)
    (record : SessionDataRecord) :
  idb_available (world b) = true ->
  session_data b !! key = Some record ->
  KeyStorageSession.getSessionData J key b
  = if session_expired (sess_expiresAt record) (clock (world b)) then
      (Ok None, with_session_data (delete key) b)
    else
      match JSON_parse J (default (str "undefined") (sess_data record)) with
      | Ok value => (Ok (Some value), b)
      | Throw e =>
          (Ok None, logged (str "Failed to retrieve session data:") e b)
      end.
Proof.
  intros Ha Hk. unfold KeyStorageSession.getSessionData, try_catchB.
  unfold bindB at 1.
  rewrite (in_world_pure _ b (Ok tt)) by (unfold openDB; rewrite Ha; reflexivity).
  unfold bindB at 1, session_get. rewrite Hk.
  unfold bindB at 1.
  assert (Hexp :
    match sess_expiresAt record with
    | Some x =>
        if truthy x then
          bindB (in_world Date_now) (fun now => retB (x <? now)%Z)
        else retB false
    | None => retB false
    end b = (Ok (session_expired (sess_expiresAt record) (clock (world b))), b)).
  { unfold session_expired. destruct (sess_expiresAt record) as [x|];
      [|reflexivity].
    destruct (truthy x); [|reflexivity].
    unfold bindB.
    rewrite (in_world_pure _ b (Ok (clock (world b)))) by reflexivity.
    reflexivity. }
  rewrite Hexp.
  destruct (session_expired _ _); [reflexivity|].
  unfold bindB at 1.
  rewrite (in_world_pure _ b
             (JSON_parse J (default (str "undefined") (sess_data record))))
    by reflexivity.
  destruct (JSON_parse J _) as [value|e]; [reflexivity|].
  reflexivity.
Qed.

End SessionStore.

Section SessionCursor.

(** The entries of the index: the records of the store that have an
    [expiresAt]. *)
Lemma index_expiresAt_spec (store : gmap jsstring SessionDataRecord)
    (k : jsstring) (r : SessionDataRecord) :
  In (k, r) (index_expiresAt store)
  <-> store !! k = Some r /\ in_index (k, r) = true.
Proof.
  unfold index_expiresAt. rewrite <- list_elem_of_In.
  rewrite merge_sort_Permutation, list_elem_of_In, filter_In.
  rewrite <- list_elem_of_In, elem_of_map_to_list. reflexivity.
Qed.

(** The loop deletes the expired records among the entries it visits
    and nothing else. *)
Lemma cursor_loop_spec (now : Z) (cursor : list (jsstring * SessionDataRecord)) :
  forall b : Browser,
  exists b' : Browser,
    KeyStorageSession.cursor_loop now cursor b = (Ok tt, b')
    /\ world b' = world b
    /\ sessionStorage b' = sessionStorage b
    /\ signingKey b' = signingKey b
    /\ (forall k r,
          In (k, r) cursor ->
          session_expired (sess_expiresAt r) now = true ->
          session_data b' !! k = None)
    /\ (forall k,
          (forall r, In (k, r) cursor ->
                     session_expired (sess_expiresAt r) now = false) ->
          session_data b' !! k = session_data b !! k).
Proof.
  induction cursor as [|[key value] rest IH]; intros b.
  - exists b. cbn [KeyStorageSession.cursor_loop]. unfold retB.
    repeat split; try reflexivity. intros k r [].
  - cbn [KeyStorageSession.cursor_loop]. unfold bindB at 1.
    destruct (session_expired (sess_expiresAt value) now) eqn:Ex.
    + assert (Hstep :
        match sess_expiresAt value with
        | Some expiresAt =>
            if truthy expiresAt && (expiresAt <? now)%Z
            then session_delete key else retB tt
        | None => retB tt
        end b = (Ok tt, with_session_data (delete key) b)).
      { unfold session_expired in Ex.
        destruct (sess_expiresAt value); [|discriminate].
        rewrite Ex. reflexivity. }
      rewrite Hstep.
      destruct (IH (with_session_data (delete key) b))
        as (b' & Hrun & Hw & Hss & Hsk & Hdel & Hkeep).
      exists b'. split; [exact Hrun|].
      split; [exact Hw|]. split; [exact Hss|]. split; [exact Hsk|]. split.
      * intros k r [[= <- <-]|Hin] Hr; [|eapply Hdel; eauto].
        destruct (List.existsb
                    (fun kr => bool_decide (fst kr = key)
                               && session_expired (sess_expiresAt (snd kr)) now)
                    rest) eqn:Eex.
        -- apply existsb_exists in Eex as ([k' r'] & Hin' & Hc).
           apply andb_prop in Hc as [Hk Hx]. apply bool_decide_eq_true in Hk.
           cbn in Hk, Hx. subst k'. eapply Hdel; eauto.
        -- rewrite Hkeep.
           ++ cbn. apply lookup_delete_eq.
           ++ intros r' Hin'.
              destruct (session_expired (sess_expiresAt r') now) eqn:Er;
                [|reflexivity].
              exfalso.
              assert (Hc : List.existsb
                      (fun kr => bool_decide (fst kr = key)
                                 && session_expired (sess_expiresAt (snd kr)) now)
                      rest = true).
              { apply existsb_exists. exists (key, r'). split; [exact Hin'|].
                cbn. rewrite Er, bool_decide_eq_true_2; reflexivity. }
              congruence.
      * intros k Hall. rewrite Hkeep by (intros r Hin; apply Hall; right; exact Hin).
        cbn. apply lookup_delete_ne. intros <-.
        specialize (Hall value (or_introl eq_refl)). congruence.
    + assert (Hstep :
        match sess_expiresAt value with
        | Some expiresAt =>
            if truthy expiresAt && (expiresAt <? now)%Z
            then session_delete key else retB tt
        | None => retB tt
        end b = (Ok tt, b)).
      { unfold session_expired in Ex.
        destruct (sess_expiresAt value); [|reflexivity].
        rewrite Ex. reflexivity. }
      rewrite Hstep.
      destruct (IH b) as (b' & Hrun & Hw & Hss & Hsk & Hdel & Hkeep).
      exists b'. split; [exact Hrun|].
      split; [exact Hw|]. split; [exact Hss|]. split; [exact Hsk|]. split.
      * intros k r [[= <- <-]|Hin] Hr; [congruence|eapply Hdel; eauto].
      * intros k Hall. apply Hkeep. intros r Hin. apply Hall. right. exact Hin.
Qed.

(** With the database open, [cleanupExpiredSessions] removes from the
    store the records that are expired at the time of the call, and
    only those. *)
Lemma cleanupExpiredSessions_run (b : Browser) :
  idb_available (world b) = true ->
  exists b1 : Browser,
    KeyStorageSession.cleanupExpiredSessions b = (Ok tt, b1)
    /\ world b1 = world b
    /\ sessionStorage b1 = sessionStorage b
    /\ signingKey b1 = signingKey b
    /\ forall key,
         session_data b1 !! key
         = match session_data b !! key with
           | Some r =>
               if session_expired (sess_expiresAt r) (clock (world b))
               then None else Some r
           | None => None
           end.
Proof.
  intros Ha. unfold KeyStorageSession.cleanupExpiredSessions, try_catchB.
  unfold bindB at 1.
  rewrite (in_world_pure _ b (Ok tt)) by (unfold openDB; rewrite Ha; reflexivity).
  unfold bindB at 1.
  rewrite (in_world_pure _ b (Ok (clock (world b)))) by reflexivity.
  unfold bindB at 1, openCursor_expiresAt.
  destruct (cursor_loop_spec (clock (world b))
              (index_expiresAt (session_data b)) b)
    as (b1 & Hrun & Hw & Hss & Hsk & Hdel & Hkeep).
  rewrite Hrun. exists b1.
  split; [reflexivity|]. split; [exact Hw|]. split; [exact Hss|].
  split; [exact Hsk|].
  intros key. destruct (session_data b !! key) as [r|] eqn:Hk.
  - destruct (session_expired (sess_expiresAt r) (clock (world b))) eqn:Ex.
    + apply (Hdel key r); [|exact Ex].
      apply index_expiresAt_spec. split; [exact Hk|].
      unfold in_index, session_expired in *. cbn.
      destruct (sess_expiresAt r); [reflexivity|discriminate].
    + rewrite Hkeep; [exact Hk|].
      intros r' Hin. apply index_expiresAt_spec in Hin as [Hk' _].
      rewrite Hk in Hk'. injection Hk' as <-. exact Ex.
  - rewrite Hkeep; [exact Hk|].
    intros r' Hin. apply index_expiresAt_spec in Hin as [Hk' _]. congruence.
Qed.

End SessionCursor.

(* ================================================================== *)
(** * 17. The helpers of the component                                  *)
(* ================================================================== *)

Section Component.
Variable L : CryptoLib.

Lemma in_world_run {A} (m : M A) (b : Browser) (r : Result A) (w' : World) :
  m (world b) = (r, w') -> in_world m b = (r, set_world w' b).
Proof. unfold in_world. intros ->. reflexivity. Qed.

Lemma generated_password_run (w : World) :
  Encryption.generatePassword 32 w = (Ok (generated_password w), advance 32 w)
  /\ generated_password w <> [].
Proof.
  destruct (generatePassword_run 32 w) as (pw & Hrun & _ & Hlen).
  unfold generated_password. rewrite Hrun. split; [reflexivity|].
  cbn [fst]. intros ->. discriminate.
Qed.

(** The browser after a successful [deriveAndStoreKey]. *)
Lemma deriveAndStoreKey_run (fuel : nat) (credentialId userId : jsstring)
    (b : Browser) (k ct : bytes) :
  KeyDerivation.deriveSigningKey L fuel credentialId userId None = Some k ->
  idb_available (world b) = true ->
  length (encryption_key L (generated_password (world b))
            (drawn (world b) 32 16)) = 32 ->
  aes_gcm_encrypt L
    (encryption_key L (generated_password (world b)) (drawn (world b) 32 16))
    (drawn (world b) 48 12) k = Ok ct ->
  exists (b1 : Browser) (record : SigningKeyRecord),
    PasskeyAuth.deriveAndStoreKey L fuel credentialId userId b
    = Some (Ok tt, b1)
    /\ signingKey b1 = Some k
    /\ sessionStorage b1
       = <[PasskeyAuth.password_item credentialId
           := generated_password (world b)]> (sessionStorage b)
    /\ session_data b1 = session_data b
    /\ signing_keys (world b1)
       = <[credentialId := record]> (signing_keys (world b))
    /\ idb_available (world b1) = true
    /\ Encryption.base64ToBytes (rec_encryptedKey record) = Ok ct
    /\ Encryption.base64ToBytes (rec_iv record) = Ok (drawn (world b) 48 12)
    /\ Encryption.base64ToBytes (rec_salt record) = Ok (drawn (world b) 32 16).
Proof.
  intros Hk Ha Hlen Henc.
  destruct (generated_password_run (world b)) as [Hpw _].
  set (pw := generated_password (world b)) in *.
  set (w1 := advance 32 (world b)).
  assert (Hsalt : drawn w1 0 16 = drawn (world b) 32 16)
    by (unfold w1; rewrite drawn_advance; reflexivity).
  assert (Hiv : drawn w1 16 12 = drawn (world b) 48 12)
    by (unfold w1; rewrite drawn_advance; reflexivity).
  rewrite <- Hsalt in Hlen, Henc. rewrite <- Hiv in Henc.
  destruct (storeKey_run L credentialId k pw
              (Some {| meta_userId := userId;
                       meta_credentialId := credentialId |})
              w1 ct Ha (importable_32 _ Hlen) Henc)
    as (record & Hek & Hriv & Hrsalt & _ & _ & _ & Hstore).
  eexists _, record.
  split.
  - unfold PasskeyAuth.deriveAndStoreKey, try_catchK.
    unfold bindK at 1, awaited. rewrite Hk.
    unfold bindK at 1, finished at 1.
    rewrite (in_world_run _ b _ _ Hpw).
    unfold bindK at 1, finished at 1.
    rewrite (in_world_run
               (KeyStorage.storeKey L credentialId k pw
                  (Some {| meta_userId := userId;
                           meta_credentialId := credentialId |}))
               (set_world (advance 32 (world b)) b) _ _ Hstore).
    reflexivity.
  - split; [reflexivity|]. split; [reflexivity|]. split; [reflexivity|].
    split; [reflexivity|]. split; [exact Ha|].
    rewrite <- Hsalt, <- Hiv. auto.
Qed.

(** [retrieveKey] on a record that decodes and decrypts: the key, and
    the world as it was. *)
Lemma retrieveKey_success (credentialId password : jsstring) (w : World)
    (record : SigningKeyRecord) (ed iv salt key : bytes) :
  idb_available w = true ->
  signing_keys w !! credentialId = Some record ->
  Encryption.base64ToBytes (rec_encryptedKey record) = Ok ed ->
  Encryption.base64ToBytes (rec_iv record) = Ok iv ->
  Encryption.base64ToBytes (rec_salt record) = Ok salt ->
  length (encryption_key L password salt) = 32 ->
  aes_gcm_decrypt L (encryption_key L password salt) iv ed = Ok key ->
  KeyStorage.retrieveKey L credentialId password w = (Ok (Some key), w).
Proof.
  intros Ha Hr Hed Hiv Hsalt Hlen Hdec.
  unfold KeyStorage.retrieveKey, try_catch.
  unfold bind at 1, openDB. rewrite Ha.
  unfold bind at 1, db_get. rewrite Hr.
  unfold bind at 1, liftR at 1. rewrite Hed.
  unfold bind at 1, liftR at 1. rewrite Hiv.
  unfold bind at 1, liftR at 1. rewrite Hsalt.
  unfold bind at 1. rewrite decrypt_run, (importable_32 _ Hlen), Hdec.
  reflexivity.
Qed.

Lemma retrieveKey_missing_run (credentialId password : jsstring) (w : World) :
  idb_available w = true ->
  signing_keys w !! credentialId = None ->
  KeyStorage.retrieveKey L credentialId password w = (Ok None, w).
Proof.
  intros Ha Hr. unfold KeyStorage.retrieveKey, try_catch.
  unfold bind at 1, openDB. rewrite Ha.
  unfold bind at 1, db_get. rewrite Hr. reflexivity.
Qed.

(** What is drawn depends on the random source only. *)
Lemma drawn_same_source (w w' : World) (offset n : nat) :
  random_source w' = random_source w -> drawn w' offset n = drawn w offset n.
Proof. intros H. unfold drawn. rewrite H. reflexivity. Qed.

Lemma generated_password_same_source (w w' : World) :
  random_source w' = random_source w ->
  generated_password w' = generated_password w.
Proof.
  intros H. unfold generated_password.
  destruct (generatePassword_run 32 w) as (pw & Hrun & _).
  destruct (generatePassword_run 32 w') as (pw' & Hrun' & _).
  rewrite Hrun, Hrun'. cbn [fst].
  revert Hrun Hrun'.
  unfold Encryption.generatePassword, bind, getRandomValues, liftR.
  rewrite H.
  destruct (Encryption.bytesToBase64 _); intros [= <-] [= <-]. reflexivity.
Qed.

(** Without a database, [deriveAndStoreKey] throws its own error and
    sets neither the password nor the signing key. *)
Lemma deriveAndStoreKey_unavailable (fuel : nat)
    (credentialId userId : jsstring) (b : Browser) (k : bytes) :
  KeyDerivation.deriveSigningKey L fuel credentialId userId None = Some k ->
  idb_available (world b) = false ->
  exists b1 : Browser,
    PasskeyAuth.deriveAndStoreKey L fuel credentialId userId b
    = Some (Throw (Error "Failed to derive signing key"), b1)
    /\ signingKey b1 = signingKey b
    /\ sessionStorage b1 = sessionStorage b
    /\ session_data b1 = session_data b
    /\ signing_keys (world b1) = signing_keys (world b).
Proof.
  intros Hk Ha.
  destruct (generated_password_run (world b)) as [Hpw _].
  destruct (storeKey_unavailable L credentialId k
              (generated_password (world b))
              (Some {| meta_userId := userId;
                       meta_credentialId := credentialId |})
              (advance 32 (world b)) Ha)
    as (w' & Hstore & Hkeys).
  eexists. split.
  - unfold PasskeyAuth.deriveAndStoreKey, try_catchK.
    unfold bindK at 1, awaited. rewrite Hk.
    unfold bindK at 1, finished at 1.
    rewrite (in_world_run _ b _ _ Hpw).
    unfold bindK at 1, finished at 1.
    rewrite (in_world_run
               (KeyStorage.storeKey L credentialId k
                  (generated_password (world b))
                  (Some {| meta_userId := userId;
                           meta_credentialId := credentialId |}))
               (set_world (advance 32 (world b)) b) _ _ Hstore).
    reflexivity.
  - repeat split. exact Hkeys.
Qed.

End Component.

(* ================================================================== *)
(** * 18. Lists written as text                                         *)
(* ================================================================== *)

Section JoinSplit.

Lemma split_plain (sep : code_unit) (x : jsstring) :
  ~ In sep x -> split sep x = [x].
Proof.
  induction x as [|c x IH]; intros Hx; [reflexivity|].
  cbn [split].
  destruct (c =? sep)%N eqn:E.
  - apply N.eqb_eq in E. subst c. exfalso. apply Hx. left. reflexivity.
  - rewrite IH by (intros Hin; apply Hx; right; exact Hin). reflexivity.
Qed.

Lemma split_app (sep : code_unit) (x rest : jsstring) :
  ~ In sep x -> split sep (x ++ sep :: rest) = x :: split sep rest.
Proof.
  induction x as [|c x IH]; intros Hx.
  - cbn [app split]. rewrite N.eqb_refl. reflexivity.
  - cbn [app split].
    destruct (c =? sep)%N eqn:E.
    + apply N.eqb_eq in E. subst c. exfalso. apply Hx. left. reflexivity.
    + rewrite IH by (intros Hin; apply Hx; right; exact Hin). reflexivity.
Qed.

Lemma split_join (ts : list jsstring) :
  ts <> [] -> Forall is_transport_name ts ->
  split 44%N (join (str ",") ts) = ts.
Proof.
  induction ts as [|t ts IH]; intros Hne Hall; [congruence|].
  apply Forall_cons_1 in Hall as [[_ Ht] Hall].
  destruct ts as [|u ts].
  - cbn [join]. apply split_plain, Ht.
  - change (join (str ",") (t :: u :: ts))
      with (t ++ 44%N :: join (str ",") (u :: ts)).
    rewrite split_app by exact Ht.
    rewrite IH by (congruence || exact Hall). reflexivity.
Qed.

Lemma join_not_empty (ts : list jsstring) :
  ts <> [] -> Forall is_transport_name ts -> join (str ",") ts <> [].
Proof.
  destruct ts as [|t ts]; intros Hne Hall; [congruence|].
  apply Forall_cons_1 in Hall as [[Ht _] _].
  destruct ts as [|u ts]; cbn [join]; [exact Ht|].
  destruct t; [congruence|discriminate].
Qed.

Lemma filter_Boolean_names (ts : list jsstring) :
  Forall is_transport_name ts -> filter_Boolean ts = ts.
Proof.
  induction 1 as [|t ts [Ht _] _ IH]; [reflexivity|].
  unfold filter_Boolean in *. cbn [List.filter].
  destruct t; [congruence|]. rewrite IH. reflexivity.
Qed.

(** A list of names, written and read back. *)
Lemma transports_of_join (ts : list jsstring) :
  Forall is_transport_name ts ->
  AuthenticateOptions.transports (join (str ",") ts) = ts.
Proof.
  intros Hall. unfold AuthenticateOptions.transports.
  destruct ts as [|t ts]; [reflexivity|].
  rewrite split_join by (congruence || exact Hall).
  apply filter_Boolean_names, Hall.
Qed.

End JoinSplit.

(* ================================================================== *)
(** * 20. Properties of the encodings                                   *)
(* ================================================================== *)

Section EncodingProperties.

(** X1.  [base64ToBytes] inverts [bytesToBase64] on every byte string,
    the empty one included.  The text has 4 characters for every 3
    bytes begun, all of the base64 alphabet or [=], and decodes to the
    same bytes when ASCII white space is inserted anywhere in it.  (The
    bound an engine puts on the number of arguments of
    [String.fromCharCode] is not part of the model.) *)
Theorem base64_round_trip (bs : bytes) :
  exists text : jsstring,
    Encryption.bytesToBase64 bs = Ok text
    /\ Encryption.base64ToBytes text = Ok bs
    /\ length text = (4 * ((length bs + 2) / 3))%nat
    /\ Forall (fun c => is_base64_char c = true) text
    /\ forall spaced : jsstring,
         List.filter not_ascii_whitespace spaced = text ->
         Encryption.base64ToBytes spaced = Ok bs.
Proof.
  destruct (bytesToBase64_spec bs) as (text & Henc & Hdec & Hlen & Hall).
  exists text. repeat split; try assumption.
  intros spaced Hs. unfold Encryption.base64ToBytes in *.
  rewrite (atob_whitespace spaced text); [exact Hdec|].
  subst text. symmetry. apply filter_not_whitespace_idemp.
Qed.

(** X2.  [base64ToBytes] throws [InvalidCharacterError] on every text
    that holds a character which is neither of the base64 alphabet, nor
    [=], nor ASCII white space, wherever it stands. *)
Theorem base64ToBytes_rejects_foreign_characters (s : jsstring)
    (c : code_unit) :
  In c s -> is_base64_char c = false -> is_ascii_whitespace c = false ->
  Encryption.base64ToBytes s = Throw (DOMException "InvalidCharacterError").
Proof.
  intros Hin Hc Hws. unfold is_base64_char in Hc.
  destruct (base64_value c) eqn:Hv; [discriminate|].
  apply N.eqb_neq in Hc.
  unfold Encryption.base64ToBytes.
  rewrite (atob_foreign s c Hin Hv Hc Hws). reflexivity.
Qed.

(** The text [ab*d]: the asterisk is no base64 character. *)
Lemma base64ToBytes_rejects_foreign_characters_witness :
  Encryption.base64ToBytes (str "ab*d")
  = Throw (DOMException "InvalidCharacterError").
Proof.
  apply (base64ToBytes_rejects_foreign_characters (str "ab*d") 42%N).
  - vm_compute. auto.
  - vm_compute. reflexivity.
  - vm_compute. reflexivity.
Defined.


End EncodingProperties.

(* ================================================================== *)
(** * 21. Properties of signing, verification and recovery              *)
(* ================================================================== *)

Section SigningProperties.

(** X4.  Sign, then recover.  From a signature that [signMessage]
    returned, [recoverPublicKey] on the same message rebuilds exactly
    the 65 bytes the library's [sign] produced (recovery id, [r], [s]),
    and returns what the library's [recover] answers for them and the
    message hash, in any world and without changing it. *)
Theorem recoverPublicKey_of_signMessage (L : CryptoLib)
    (m : MessageSigner.Message) (k : bytes) (w w' : World) (sig : jsstring) :
  RecoveryIdInRange L (message_digest L m) k ->
  MessageSigner.signMessage L m k w = (Ok sig, w') ->
  exists signatureBytes : bytes,
    secp_sign L (message_digest L m) k true None = Ok signatureBytes
    /\ length signatureBytes = 65%nat
    /\ forall w2,
         MessageSigner.recoverPublicKey L m sig w2
         = (secp_recover L signatureBytes (message_digest L m), w2).
Proof.
  intros Hrec Hsign.
  rewrite signMessage_digest, sign_digest_run in Hsign.
  destruct (secp_sign L (message_digest L m) k true None) as [sb|e] eqn:Es;
    [|discriminate].
  cbn [bindR] in Hsign.
  destruct (Signature_fromBytes sb Recovered) as [sg|e] eqn:Ef;
    [|discriminate].
  cbn [bindR] in Hsign. injection Hsign as <- _.
  destruct (Signature_fromBytes_recovered_inv _ _ Ef)
    as (rec & rs & -> & Hl & Hr & Hs & ->).
  specialize (Hrec rec rs Es).
  exists (rec :: rs). split; [reflexivity|]. split; [cbn [length]; lia|].
  intros w2. rewrite recoverPublicKey_run.
  rewrite formatSignature_recovered by assumption.
  rewrite recover_core_formatted by assumption. reflexivity.
Qed.

(** The fixture: the public key recovered from the signature of
    [Hello World] is the public key of the derived key. *)
Lemma recoverPublicKey_of_signMessage_witness :
  exists signatureBytes : bytes,
    secp_sign RefLib (message_digest RefLib fixture_message) fixture_key
      true None = Ok signatureBytes
    /\ length signatureBytes = 65%nat
    /\ forall w2,
         MessageSigner.recoverPublicKey RefLib fixture_message
           fixture_signature w2
         = (secp_recover RefLib signatureBytes
              (message_digest RefLib fixture_message), w2).
Proof.
  apply (recoverPublicKey_of_signMessage RefLib fixture_message fixture_key
           (example_world 0 0) (example_world 0 0)).
  - intros rec rs Hs.
    assert (E : secp_sign RefLib (message_digest RefLib fixture_message)
                  fixture_key true None = Ok (x01 :: fixture_rs))
      by (vm_compute; reflexivity).
    rewrite E in Hs. injection Hs as <- _. vm_compute. discriminate.
  - vm_compute. reflexivity.
Defined.

(** X5.  [recoverPublicKey] has no [try]: it completes with an
    exception, and leaves the world untouched, whenever the two
    characters after [s] do not read as a byte [v] of 0 to 3 or 27 to
    30 (absent, no hexadecimal digit, or another value). *)
Theorem recoverPublicKey_rejects_v (L : CryptoLib) (m : MessageSigner.Message)
    (sig : jsstring) (w : World) :
  accepted_v (parseInt16 (slice 128 130 (sig_hex sig))) = false ->
  exists e : Exn, MessageSigner.recoverPublicKey L m sig w = (Throw e, w).
Proof.
  intros Hv. rewrite recoverPublicKey_run. unfold recover_core.
  destruct (BigInt_0x (slice 0 64 (sig_hex sig))) as [r|e];
    [|eexists; reflexivity].
  destruct (BigInt_0x (slice 64 128 (sig_hex sig))) as [s|e];
    [|eexists; reflexivity].
  cbn [bindR]. unfold Signature_new.
  destruct (valid_scalar r && valid_scalar s); [|eexists; reflexivity].
  cbn [bindR]. unfold Signature_toBytes. cbn [sig_recovery].
  destruct (parseInt16 (slice 128 130 (sig_hex sig))) as [v|];
    [|eexists; reflexivity].
  assert (Hv' : ~ ((0 <= v <= 3) \/ (27 <= v <= 30))%Z).
  { intros C. cbn [accepted_v] in Hv. apply not_true_iff_false in Hv.
    apply Hv, orb_true_iff.
    destruct C; [left|right]; apply andb_true_iff; split; apply Z.leb_le; lia. }
  destruct (27 <=? v)%Z eqn:E27.
  - destruct ((0 <=? v - 27) && (v - 27 <=? 3))%Z eqn:E;
      [|eexists; reflexivity].
    exfalso. apply andb_prop in E as [E1 E2].
    apply Z.leb_le in E1, E2, E27. lia.
  - destruct ((0 <=? v) && (v <=? 3))%Z eqn:E; [|eexists; reflexivity].
    exfalso. apply andb_prop in E as [E1 E2].
    apply Z.leb_le in E1, E2. lia.
Qed.

(** The signature of the fixture without its last byte, which
    [verifySignature] accepts. *)
Lemma recoverPublicKey_rejects_v_witness :
  exists e : Exn,
    MessageSigner.recoverPublicKey RefLib fixture_message truncated_signature
      (example_world 0 0)
    = (Throw e, example_world 0 0).
Proof.
  apply (recoverPublicKey_rejects_v RefLib fixture_message truncated_signature
           (example_world 0 0)).
  vm_compute. reflexivity.
Defined.

(** X6.  A signature text with at most 64 characters after its optional
    [0x] (the empty text included) has no [s]: [verifySignature]
    returns [false] for every message and public key, the library is
    not asked, and the [SyntaxError] goes to the console. *)
Theorem verifySignature_short_signature (L : CryptoLib)
    (m : MessageSigner.Message) (sig : jsstring) (pk : bytes) (w : World) :
  (length (sig_hex sig) <= 64)%nat ->
  MessageSigner.verifySignature L m sig pk w
  = (Ok false,
     snd (console_error (str "Signature verification failed:") SyntaxError w)).
Proof.
  intros Hlen. rewrite verifySignature_digest, verify_digest_run.
  unfold verify_core.
  rewrite (slice_beyond 64 128 (sig_hex sig) Hlen).
  destruct (BigInt_0x (slice 0 64 (sig_hex sig))) as [r|e] eqn:Er.
  - reflexivity.
  - apply BigInt_0x_throws in Er. subst e. reflexivity.
Qed.

(** The first 64 hexadecimal digits of the fixture signature alone. *)
Lemma verifySignature_short_signature_witness :
  MessageSigner.verifySignature RefLib fixture_message
    (take 66 fixture_signature) fixture_publicKey (example_world 0 0)
  = (Ok false,
     snd (console_error (str "Signature verification failed:") SyntaxError
            (example_world 0 0))).
Proof.
  apply (verifySignature_short_signature RefLib fixture_message
           (take 66 fixture_signature) fixture_publicKey (example_world 0 0)).
  vm_compute. lia.
Defined.

(** X7.  The buffer that is hashed determines the message: two byte
    strings get the same prefixed buffer from [prefixMessage] exactly
    when they are equal (the decimal length in front makes the
    encoding unambiguous), and the buffer is never an exception. *)
Theorem prefixMessage_injective (m1 m2 : bytes) :
  MessageSigner.prefixMessage m1 = MessageSigner.prefixMessage m2 <-> m1 = m2.
Proof.
  split; [|intros ->; reflexivity].
  rewrite !prefixMessage_spec. intros H.
  apply eip191_buffer_inj.
  exact (f_equal (fun r => match r with Ok b => b | Throw _ => [] end) H).
Qed.

(** X8.  The byte [v] is read with or without its offset:
    [recoverPublicKey] gives the same result, a key or an exception,
    for two signature texts with the same [r] and [s] whose last byte
    reads [v] in the one and [v + 27] in the other, for every [v] below
    27 (so 0 and 27, 1 and 28 are the same recovery id). *)
Theorem recoverPublicKey_v_offset (L : CryptoLib) (m : MessageSigner.Message)
    (sig1 sig2 : jsstring) (w : World) (v : Z) :
  take 128 (sig_hex sig1) = take 128 (sig_hex sig2) ->
  parseInt16 (slice 128 130 (sig_hex sig1)) = Some v ->
  parseInt16 (slice 128 130 (sig_hex sig2)) = Some (v + 27)%Z ->
  (0 <= v < 27)%Z ->
  MessageSigner.recoverPublicKey L m sig1 w
  = MessageSigner.recoverPublicKey L m sig2 w.
Proof.
  intros Hrs H1 H2 Hv. rewrite !recoverPublicKey_run. f_equal.
  unfold recover_core.
  destruct (slices_of_take (sig_hex sig1)) as [-> ->].
  destruct (slices_of_take (sig_hex sig2)) as [-> ->].
  rewrite Hrs, H1, H2.
  replace (27 <=? v)%Z with false by (symmetry; apply Z.leb_gt; lia).
  replace (27 <=? v + 27)%Z with true by (symmetry; apply Z.leb_le; lia).
  replace (v + 27 - 27)%Z with v by lia. reflexivity.
Qed.

(** The fixture signature, whose last byte is [1c], and the same with
    the last byte [01]. *)
Lemma recoverPublicKey_v_offset_witness :
  MessageSigner.recoverPublicKey RefLib fixture_message
    (take 130 fixture_signature ++ str "01") (example_world 0 0)
  = MessageSigner.recoverPublicKey RefLib fixture_message fixture_signature
      (example_world 0 0).
Proof.
  apply (recoverPublicKey_v_offset RefLib fixture_message
           (take 130 fixture_signature ++ str "01") fixture_signature
           (example_world 0 0) 1%Z).
  - vm_compute. reflexivity.
  - vm_compute. reflexivity.
  - vm_compute. reflexivity.
  - lia.
Defined.

(** X9.  The signature text is read leniently by [verifySignature]:
    the prefix [0x] may be left out, and the digits [a] to [f] may be
    written in upper case; the answer and what goes to the console are
    the same. *)
Theorem verifySignature_lenient_text (L : CryptoLib)
    (m : MessageSigner.Message) (hex : jsstring) (pk : bytes) (w : World) :
  MessageSigner.verifySignature L m (str "0x" ++ map upper_hex hex) pk w
  = MessageSigner.verifySignature L m (str "0x" ++ hex) pk w
  /\ (startsWith (str "0x") hex = false ->
      MessageSigner.verifySignature L m hex pk w
      = MessageSigner.verifySignature L m (str "0x" ++ hex) pk w).
Proof.
  split.
  - rewrite !verifySignature_digest, !verify_digest_run.
    unfold verify_core. rewrite !sig_hex_0x, !slice_map, !BigInt_0x_upper.
    reflexivity.
  - intros Hp. rewrite !verifySignature_digest, !verify_digest_run.
    unfold verify_core. rewrite sig_hex_0x. unfold sig_hex. rewrite Hp.
    reflexivity.
Qed.

End SigningProperties.

(* ================================================================== *)
(** * 22. Properties of the key store                                   *)
(* ================================================================== *)

Section KeyStoreProperties.

(** X10.  Store, ask, delete.  After a successful [storeKey] for
    [credentialId], [hasKey] answers [true]; [deleteKey] then succeeds,
    after which [hasKey] answers [false] and [retrieveKey] answers
    [null] under every password.  Neither operation touches the record
    of another identifier. *)
Theorem storeKey_hasKey_deleteKey (L : CryptoLib) (credentialId : jsstring)
    (privateKey : bytes) (password : jsstring) (md : option KeyMetadata)
    (w : World) (ct : bytes) :
  idb_available w = true ->
  length (encryption_key L password (drawn w 0 16)) = 32%nat ->
  aes_gcm_encrypt L (encryption_key L password (drawn w 0 16))
    (drawn w 16 12) privateKey = Ok ct ->
  exists w1 w2 : World,
    KeyStorage.storeKey L credentialId privateKey password md w = (Ok tt, w1)
    /\ KeyStorage.hasKey credentialId w1 = (Ok true, w1)
    /\ KeyStorage.deleteKey credentialId w1 = (Ok tt, w2)
    /\ KeyStorage.hasKey credentialId w2 = (Ok false, w2)
    /\ (forall anyPassword,
          fst (KeyStorage.retrieveKey L credentialId anyPassword w2) = Ok None)
    /\ (forall other, other <> credentialId ->
          signing_keys w1 !! other = signing_keys w !! other
          /\ signing_keys w2 !! other = signing_keys w !! other).
Proof.
  intros Ha Hlen Henc.
  destruct (storeKey_run L credentialId privateKey password md w ct Ha
              (importable_32 _ Hlen) Henc)
    as (record & _ & _ & _ & _ & _ & _ & Hstore).
  eexists _, _. split; [exact Hstore|].
  split; [|split; [|split; [|split]]].
  - rewrite hasKey_run by exact Ha.
    cbn [with_signing_keys signing_keys]. rewrite lookup_insert_eq.
    reflexivity.
  - apply deleteKey_run. exact Ha.
  - rewrite hasKey_run by exact Ha.
    cbn [with_signing_keys signing_keys]. rewrite lookup_delete_eq.
    reflexivity.
  - intros P. apply retrieveKey_missing.
    cbn [with_signing_keys signing_keys]. apply lookup_delete_eq.
  - intros other Ho. cbn [with_signing_keys signing_keys advance].
    rewrite lookup_delete_ne, lookup_insert_ne by congruence.
    split; reflexivity.
Qed.

(** The fixture key stored under its credential identifier. *)
Lemma storeKey_hasKey_deleteKey_witness :
  exists w1 w2 : World,
    KeyStorage.storeKey RefLib fixture_credentialId fixture_key password_one
      None (example_world 7 0) = (Ok tt, w1)
    /\ KeyStorage.hasKey fixture_credentialId w1 = (Ok true, w1)
    /\ KeyStorage.deleteKey fixture_credentialId w1 = (Ok tt, w2)
    /\ KeyStorage.hasKey fixture_credentialId w2 = (Ok false, w2)
    /\ (forall anyPassword,
          fst (KeyStorage.retrieveKey RefLib fixture_credentialId
                 anyPassword w2) = Ok None)
    /\ (forall other, other <> fixture_credentialId ->
          signing_keys w1 !! other = signing_keys (example_world 7 0) !! other
          /\ signing_keys w2 !! other
             = signing_keys (example_world 7 0) !! other).
Proof.
  apply (storeKey_hasKey_deleteKey RefLib fixture_credentialId fixture_key
           password_one None (example_world 7 0)
           (match aes_gcm_encrypt RefLib
                    (encryption_key RefLib password_one
                       (drawn (example_world 7 0) 0 16))
                    (drawn (example_world 7 0) 16 12) fixture_key with
            | Ok ct => ct
            | Throw _ => []
            end)).
  - reflexivity.
  - vm_compute. reflexivity.
  - vm_compute. reflexivity.
Defined.

(** X11.  When the database cannot be opened: [storeKey], [deleteKey]
    and [clearAllKeys] throw, each its own [Error] in place of the
    cause; [retrieveKey] answers [null] and [hasKey] answers [false],
    as for a key that was never stored; and no record changes. *)
Theorem keyStorage_database_unavailable (L : CryptoLib)
    (credentialId : jsstring) (privateKey : bytes) (password : jsstring)
    (md : option KeyMetadata) (w : World) :
  idb_available w = false ->
  fst (KeyStorage.storeKey L credentialId privateKey password md w)
  = Throw (Error "Failed to store signing key")
  /\ fst (KeyStorage.deleteKey credentialId w)
     = Throw (Error "Failed to delete signing key")
  /\ fst (KeyStorage.clearAllKeys w)
     = Throw (Error "Failed to clear all signing keys")
  /\ fst (KeyStorage.retrieveKey L credentialId password w) = Ok None
  /\ fst (KeyStorage.hasKey credentialId w) = Ok false
  /\ signing_keys
       (snd (KeyStorage.storeKey L credentialId privateKey password md w))
     = signing_keys w
  /\ signing_keys (snd (KeyStorage.deleteKey credentialId w)) = signing_keys w
  /\ signing_keys (snd (KeyStorage.clearAllKeys w)) = signing_keys w.
Proof.
  intros Ha.
  destruct (storeKey_unavailable L credentialId privateKey password md w Ha)
    as (w' & Hs & Hk).
  rewrite Hs. cbn [fst snd].
  unfold KeyStorage.deleteKey, KeyStorage.clearAllKeys,
    KeyStorage.retrieveKey, KeyStorage.hasKey, try_catch, bind, openDB.
  rewrite Ha. cbn. repeat split. exact Hk.
Qed.

(** A world without a database. *)
Lemma keyStorage_database_unavailable_witness :
  fst (KeyStorage.storeKey RefLib fixture_credentialId fixture_key
         password_one None (offline_world 7 0))
  = Throw (Error "Failed to store signing key")
  /\ fst (KeyStorage.retrieveKey RefLib fixture_credentialId password_one
            (offline_world 7 0)) = Ok None
  /\ fst (KeyStorage.hasKey fixture_credentialId (offline_world 7 0))
     = Ok false.
Proof.
  destruct (keyStorage_database_unavailable RefLib fixture_credentialId
              fixture_key password_one None (offline_world 7 0) eq_refl)
    as (H1 & _ & _ & H4 & H5 & _).
  exact (conj H1 (conj H4 H5)).
Defined.

(** X12.  [clearAllKeys] removes every record: afterwards [hasKey]
    answers [false] and [retrieveKey] answers [null] for every
    identifier and password. *)
Theorem clearAllKeys_removes_every_key (L : CryptoLib) (w : World) :
  idb_available w = true ->
  exists w1 : World,
    KeyStorage.clearAllKeys w = (Ok tt, w1)
    /\ forall credentialId password,
         KeyStorage.hasKey credentialId w1 = (Ok false, w1)
         /\ fst (KeyStorage.retrieveKey L credentialId password w1) = Ok None.
Proof.
  intros Ha. eexists. split; [apply clearAllKeys_run, Ha|].
  intros credentialId password. split.
  - rewrite hasKey_run by exact Ha. reflexivity.
  - apply retrieveKey_missing. reflexivity.
Qed.

(** The store with the fixture key in it. *)
Lemma clearAllKeys_removes_every_key_witness :
  exists w1 : World,
    KeyStorage.clearAllKeys (stored_world 7 0) = (Ok tt, w1)
    /\ forall credentialId password,
         KeyStorage.hasKey credentialId w1 = (Ok false, w1)
         /\ fst (KeyStorage.retrieveKey RefLib credentialId password w1)
            = Ok None.
Proof.
  apply (clearAllKeys_removes_every_key RefLib (stored_world 7 0)).
  vm_compute. reflexivity.
Defined.

(** X13.  A record that cannot be read is [null]: when one of the three
    base64 fields of the stored record does not decode, [retrieveKey]
    answers [null] under every password, and the cause goes to the
    console. *)
Theorem retrieveKey_undecodable_record (L : CryptoLib)
    (credentialId password : jsstring) (w : World) (record : SigningKeyRecord)
    (e : Exn) :
  idb_available w = true ->
  signing_keys w !! credentialId = Some record ->
  Encryption.base64ToBytes (rec_encryptedKey record) = Throw e
  \/ Encryption.base64ToBytes (rec_iv record) = Throw e
  \/ Encryption.base64ToBytes (rec_salt record) = Throw e ->
  fst (KeyStorage.retrieveKey L credentialId password w) = Ok None.
Proof.
  intros Ha Hr Hbad. rewrite (retrieveKey_run L _ _ _ _ Ha Hr).
  destruct (Encryption.base64ToBytes (rec_encryptedKey record)) as [ed|e1];
    [|reflexivity].
  destruct (Encryption.base64ToBytes (rec_iv record)) as [iv|e2];
    [|reflexivity].
  destruct (Encryption.base64ToBytes (rec_salt record)) as [salt|e3];
    [|reflexivity].
  destruct Hbad as [H|[H|H]]; discriminate.
Qed.

(** A record whose salt holds an asterisk. *)
Lemma retrieveKey_undecodable_record_witness :
  fst (KeyStorage.retrieveKey RefLib fixture_credentialId password_one
         (snd (db_put damaged_record (example_world 7 0))))
  = Ok None.
Proof.
  apply (retrieveKey_undecodable_record RefLib fixture_credentialId
           password_one (snd (db_put damaged_record (example_world 7 0)))
           damaged_record (DOMException "InvalidCharacterError")).
  - reflexivity.
  - vm_compute. reflexivity.
  - right. right. vm_compute. reflexivity.
Defined.

(** X14.  [storeKey] replaces: a second [storeKey] for the same
    identifier overwrites the record of the first (the store does not
    grow, other identifiers keep their records), and [retrieveKey] with
    the second password returns the second key. *)
Theorem storeKey_replaces_record (L : CryptoLib) (credentialId : jsstring)
    (key1 key2 : bytes) (P1 P2 : jsstring) (md1 md2 : option KeyMetadata)
    (w : World) (ct1 : bytes) :
  idb_available w = true ->
  length (encryption_key L P1 (drawn w 0 16)) = 32%nat ->
  aes_gcm_encrypt L (encryption_key L P1 (drawn w 0 16)) (drawn w 16 12) key1
  = Ok ct1 ->
  length (encryption_key L P2 (drawn w 28 16)) = 32%nat ->
  AeadRoundTrip L (encryption_key L P2 (drawn w 28 16)) (drawn w 44 12) key2 ->
  exists w1 w2 : World,
    KeyStorage.storeKey L credentialId key1 P1 md1 w = (Ok tt, w1)
    /\ KeyStorage.storeKey L credentialId key2 P2 md2 w1 = (Ok tt, w2)
    /\ fst (KeyStorage.retrieveKey L credentialId P2 w2) = Ok (Some key2)
    /\ size (signing_keys w2) = size (signing_keys w1)
    /\ (forall other, other <> credentialId ->
          signing_keys w2 !! other = signing_keys w !! other).
Proof.
  intros Ha Hl1 He1 Hl2 (ct2 & He2 & Hd2).
  destruct (storeKey_run L credentialId key1 P1 md1 w ct1 Ha
              (importable_32 _ Hl1) He1)
    as (r1 & _ & _ & _ & _ & _ & _ & Hs1).
  set (w1 := with_signing_keys (insert credentialId r1)
               (advance 12 (advance 16 w))) in *.
  assert (Hsalt : drawn w1 0 16 = drawn w 28 16).
  { change (drawn w1 0 16) with (drawn (advance 12 (advance 16 w)) 0 16).
    rewrite !drawn_advance. reflexivity. }
  assert (Hiv : drawn w1 16 12 = drawn w 44 12).
  { change (drawn w1 16 12) with (drawn (advance 12 (advance 16 w)) 16 12).
    rewrite !drawn_advance. reflexivity. }
  assert (Ha1 : idb_available w1 = true) by exact Ha.
  rewrite <- Hsalt in Hl2, He2, Hd2. rewrite <- Hiv in He2, Hd2.
  destruct (storeKey_run L credentialId key2 P2 md2 w1 ct2 Ha1
              (importable_32 _ Hl2) He2)
    as (r2 & Hek & Hiv2 & Hsa & _ & _ & _ & Hs2).
  set (w2 := with_signing_keys (insert credentialId r2)
               (advance 12 (advance 16 w1))) in *.
  assert (Ha2 : idb_available w2 = true) by exact Ha.
  exists w1, w2.
  split; [exact Hs1|]. split; [exact Hs2|].
  split; [|split].
  - assert (Hget : signing_keys w2 !! credentialId = Some r2)
      by apply lookup_insert_eq.
    rewrite (retrieveKey_run L _ _ _ _ Ha2 Hget), Hek, Hiv2, Hsa.
    cbn [bindR]. rewrite decrypt_run, (importable_32 _ Hl2). cbn [fst].
    rewrite Hd2. reflexivity.
  - subst w1 w2. cbn [with_signing_keys signing_keys advance].
    apply map_size_insert_Some. rewrite lookup_insert_eq. eauto.
  - intros other Ho. subst w1 w2.
    cbn [with_signing_keys signing_keys advance].
    rewrite !lookup_insert_ne by congruence. reflexivity.
Qed.

(** The fixture key stored under one password, then the all-zero key
    plus one under another. *)
Lemma storeKey_replaces_record_witness :
  exists w1 w2 : World,
    KeyStorage.storeKey RefLib fixture_credentialId fixture_key password_one
      None (example_world 7 0) = (Ok tt, w1)
    /\ KeyStorage.storeKey RefLib fixture_credentialId (numberToBytesBE 1 32)
         password_two None w1 = (Ok tt, w2)
    /\ fst (KeyStorage.retrieveKey RefLib fixture_credentialId password_two w2)
       = Ok (Some (numberToBytesBE 1 32))
    /\ size (signing_keys w2) = size (signing_keys w1)
    /\ (forall other, other <> fixture_credentialId ->
          signing_keys w2 !! other
          = signing_keys (example_world 7 0) !! other).
Proof.
  apply (storeKey_replaces_record RefLib fixture_credentialId fixture_key
           (numberToBytesBE 1 32) password_one password_two None None
           (example_world 7 0)
           (match aes_gcm_encrypt RefLib
                    (encryption_key RefLib password_one
                       (drawn (example_world 7 0) 0 16))
                    (drawn (example_world 7 0) 16 12) fixture_key with
            | Ok ct => ct
            | Throw _ => []
            end)).
  - reflexivity.
  - vm_compute. reflexivity.
  - vm_compute. reflexivity.
  - vm_compute. reflexivity.
  - exists (match aes_gcm_encrypt RefLib
                    (encryption_key RefLib password_two
                       (drawn (example_world 7 0) 28 16))
                    (drawn (example_world 7 0) 44 12)
                    (numberToBytesBE 1 32) with
            | Ok ct => ct
            | Throw _ => []
            end).
    apply conj; vm_compute; reflexivity.
Defined.


(** X27.  [hasKey] and [retrieveKey] agree on absence: in a world
    where [hasKey] answers [false] for an identifier, [retrieveKey]
    answers [null] for it under every password; so a key that
    [retrieveKey] returns is one for which [hasKey] answers [true]. *)
Theorem hasKey_false_retrieveKey_null (L : CryptoLib)
    (credentialId password : jsstring) (w : World) :
  fst (KeyStorage.hasKey credentialId w) = Ok false ->
  fst (KeyStorage.retrieveKey L credentialId password w) = Ok None.
Proof.
  intros Hhas.
  destruct (idb_available w) eqn:Ha.
  - rewrite (hasKey_run credentialId w Ha) in Hhas. cbn [fst] in Hhas.
    apply retrieveKey_missing.
    destruct (signing_keys w !! credentialId) as [r|]; [|reflexivity].
    discriminate.
  - destruct (retrieveKey_unavailable L credentialId password w Ha)
      as (w' & -> & _).
    reflexivity.
Qed.

(** An identifier that was never stored. *)
Lemma hasKey_false_retrieveKey_null_witness :
  fst (KeyStorage.retrieveKey RefLib fixture_userId password_one
         (stored_world 7 0)) = Ok None.
Proof.
  apply (hasKey_false_retrieveKey_null RefLib fixture_userId password_one
           (stored_world 7 0)).
  vm_compute. reflexivity.
Defined.

End KeyStoreProperties.

(* ================================================================== *)
(** * 23. Properties of the session store                               *)
(* ================================================================== *)

Section SessionProperties.
Context {any : Type} (J : JsonLib any).

(** X15.  Store, then read.  With the database open and a value that
    has a JSON text, [storeSessionData] succeeds and changes the record
    of [key] only (no other session record, no signing key); while the
    record is not expired, [getSessionData] returns the value parsed
    from that text and leaves the browser as it is. *)
Theorem storeSessionData_getSessionData (key : jsstring) (data value : any)
    (expiresIn : option Z) (b : Browser) (text : jsstring) :
  idb_available (world b) = true ->
  JSON_stringify J data = Ok (Some text) ->
  JSON_parse J text = Ok value ->
  exists b1 : Browser,
    KeyStorageSession.storeSessionData J key data expiresIn b = (Ok tt, b1)
    /\ (forall other, other <> key ->
          session_data b1 !! other = session_data b !! other)
    /\ signing_keys (world b1) = signing_keys (world b)
    /\ forall b2 : Browser,
         session_data b2 !! key = session_data b1 !! key ->
         idb_available (world b2) = true ->
         session_expired (session_deadline expiresIn (clock (world b)))
           (clock (world b2)) = false ->
         KeyStorageSession.getSessionData J key b2 = (Ok (Some value), b2).
Proof.
  intros Ha Hs Hp.
  eexists. split; [apply (storeSessionData_run J _ _ _ _ _ Ha Hs)|].
  split; [|split].
  - intros other Ho. cbn. apply lookup_insert_ne. congruence.
  - reflexivity.
  - intros b2 Hrec Ha2 Hlive.
    cbn [with_session_data session_data] in Hrec.
    rewrite lookup_insert_eq in Hrec.
    rewrite (getSessionData_run J key b2 _ Ha2 Hrec).
    cbn [sess_expiresAt sess_data default from_option id].
    rewrite Hlive, Hp. reflexivity.
Qed.

(** X16.  Expiry.  A record read after its deadline (a time to live
    other than 0 was given, and the clock is past the time of storing
    plus that) gives [null], and the read deletes the record: from then
    on [getSessionData] answers [null] for this key whatever the clock
    shows. *)
Theorem getSessionData_expired (key : jsstring) (data : any)
    (expiresIn : option Z) (b : Browser) (text : option jsstring) :
  idb_available (world b) = true ->
  JSON_stringify J data = Ok text ->
  exists b1 : Browser,
    KeyStorageSession.storeSessionData J key data expiresIn b = (Ok tt, b1)
    /\ forall b2 : Browser,
         session_data b2 !! key = session_data b1 !! key ->
         idb_available (world b2) = true ->
         session_expired (session_deadline expiresIn (clock (world b)))
           (clock (world b2)) = true ->
         exists b3 : Browser,
           KeyStorageSession.getSessionData J key b2 = (Ok None, b3)
           /\ session_data b3 = delete key (session_data b2)
           /\ world b3 = world b2
           /\ forall b4 : Browser,
                session_data b4 !! key = session_data b3 !! key ->
                fst (KeyStorageSession.getSessionData J key b4) = Ok None.
Proof.
  intros Ha Hs.
  eexists. split; [apply (storeSessionData_run J _ _ _ _ _ Ha Hs)|].
  intros b2 Hrec Ha2 Hdead.
  cbn [with_session_data session_data] in Hrec.
  rewrite lookup_insert_eq in Hrec.
  rewrite (getSessionData_run J key b2 _ Ha2 Hrec).
  cbn [sess_expiresAt]. rewrite Hdead.
  eexists. split; [reflexivity|]. split; [reflexivity|].
  split; [reflexivity|].
  intros b4 H4. apply getSessionData_missing.
  rewrite H4. cbn. apply lookup_delete_eq.
Qed.

(** X17.  No time to live, or a time to live of 0, is no deadline (so
    is the time to live that makes the deadline the number 0): the
    record is never expired, [getSessionData] returns its value at
    every later time, and [cleanupExpiredSessions] keeps it. *)
Theorem storeSessionData_without_deadline (key : jsstring) (data value : any)
    (expiresIn : option Z) (b : Browser) (text : jsstring) :
  idb_available (world b) = true ->
  JSON_stringify J data = Ok (Some text) ->
  JSON_parse J text = Ok value ->
  expiresIn = None \/ expiresIn = Some 0%Z
  \/ expiresIn = Some (- clock (world b))%Z ->
  exists b1 : Browser,
    KeyStorageSession.storeSessionData J key data expiresIn b = (Ok tt, b1)
    /\ forall b2 : Browser,
         session_data b2 !! key = session_data b1 !! key ->
         idb_available (world b2) = true ->
         KeyStorageSession.getSessionData J key b2 = (Ok (Some value), b2)
         /\ exists b3 : Browser,
              KeyStorageSession.cleanupExpiredSessions b2 = (Ok tt, b3)
              /\ session_data b3 !! key = session_data b2 !! key.
Proof.
  intros Ha Hs Hp Hzero.
  assert (Hnever : forall now,
            session_expired (session_deadline expiresIn (clock (world b))) now
            = false).
  { intros now. unfold session_deadline, session_expired, truthy.
    destruct Hzero as [->|[->| ->]]; [reflexivity|reflexivity|].
    destruct (- clock (world b) =? 0)%Z eqn:E; [reflexivity|].
    cbn [negb]. replace (clock (world b) + - clock (world b))%Z with 0%Z by lia.
    reflexivity. }
  eexists. split; [apply (storeSessionData_run J _ _ _ _ _ Ha (Hs))|].
  intros b2 Hrec Ha2.
  cbn [with_session_data session_data] in Hrec.
  rewrite lookup_insert_eq in Hrec.
  split.
  - rewrite (getSessionData_run J key b2 _ Ha2 Hrec).
    cbn [sess_expiresAt sess_data default from_option id].
    rewrite Hnever, Hp. reflexivity.
  - destruct (cleanupExpiredSessions_run b2 Ha2)
      as (b3 & Hrun & _ & _ & _ & Hkeys).
    exists b3. split; [exact Hrun|].
    rewrite Hkeys, Hrec. cbn [sess_expiresAt]. rewrite Hnever. reflexivity.
Qed.

(** X18.  [cleanupExpiredSessions] removes the records that are expired
    at the time of the call and keeps all others as they are; what
    [getSessionData] answers for any key is the same before and after
    it. *)
Theorem cleanupExpiredSessions_removes_expired (b : Browser) :
  idb_available (world b) = true ->
  exists b1 : Browser,
    KeyStorageSession.cleanupExpiredSessions b = (Ok tt, b1)
    /\ world b1 = world b
    /\ (forall key,
          session_data b1 !! key
          = match session_data b !! key with
            | Some r =>
                if session_expired (sess_expiresAt r) (clock (world b))
                then None else Some r
            | None => None
            end)
    /\ forall key,
         fst (KeyStorageSession.getSessionData J key b1)
         = fst (KeyStorageSession.getSessionData J key b).
Proof.
  intros Ha.
  destruct (cleanupExpiredSessions_run b Ha) as (b1 & Hrun & Hw & _ & _ & Hk).
  exists b1. split; [exact Hrun|]. split; [exact Hw|]. split; [exact Hk|].
  intros key. specialize (Hk key).
  assert (Ha1 : idb_available (world b1) = true) by (rewrite Hw; exact Ha).
  destruct (session_data b !! key) as [r|] eqn:Hr.
  - rewrite (getSessionData_run J key b r Ha Hr).
    destruct (session_expired (sess_expiresAt r) (clock (world b))) eqn:Ex.
    + rewrite (getSessionData_missing J key b1 Hk). reflexivity.
    + rewrite (getSessionData_run J key b1 r Ha1 Hk), Hw, Ex.
      destruct (JSON_parse J _); reflexivity.
  - rewrite (getSessionData_missing J key b1 Hk).
    rewrite (getSessionData_missing J key b Hr). reflexivity.
Qed.

(** X19.  When the database cannot be opened, [storeSessionData] throws
    its own [Error]; [getSessionData] answers [null];
    [deleteSessionData], [clearAllSessionData] and
    [cleanupExpiredSessions] return normally (they do not rethrow, as
    [deleteKey] and [clearAllKeys] do); and no session record changes. *)
Theorem session_store_database_unavailable (key : jsstring) (data : any)
    (expiresIn : option Z) (b : Browser) :
  idb_available (world b) = false ->
  fst (KeyStorageSession.storeSessionData J key data expiresIn b)
  = Throw (Error "Failed to store session data")
  /\ fst (KeyStorageSession.getSessionData J key b) = Ok None
  /\ fst (KeyStorageSession.deleteSessionData key b) = Ok tt
  /\ fst (KeyStorageSession.clearAllSessionData b) = Ok tt
  /\ fst (KeyStorageSession.cleanupExpiredSessions b) = Ok tt
  /\ session_data
       (snd (KeyStorageSession.storeSessionData J key data expiresIn b))
     = session_data b
  /\ session_data (snd (KeyStorageSession.getSessionData J key b))
     = session_data b
  /\ session_data (snd (KeyStorageSession.deleteSessionData key b))
     = session_data b
  /\ session_data (snd (KeyStorageSession.clearAllSessionData b))
     = session_data b
  /\ session_data (snd (KeyStorageSession.cleanupExpiredSessions b))
     = session_data b.
Proof.
  intros Ha.
  destruct (storeSessionData_unavailable J key data expiresIn b Ha)
    as (e & ->).
  unfold KeyStorageSession.getSessionData,
    KeyStorageSession.deleteSessionData, KeyStorageSession.clearAllSessionData,
    KeyStorageSession.cleanupExpiredSessions, try_catchB, bindB.
  rewrite (openDB_unavailable b Ha).
  repeat split.
Qed.

(** X20.  A value without a JSON text ([JSON.stringify] returns
    [undefined]) is stored all the same, as a record without data; as
    the text [undefined] is no JSON, [getSessionData] then answers
    [null], as for a key that was never stored. *)
Theorem storeSessionData_without_text (key : jsstring) (data : any)
    (expiresIn : option Z) (b : Browser) (e : Exn) :
  idb_available (world b) = true ->
  JSON_stringify J data = Ok None ->
  JSON_parse J (str "undefined") = Throw e ->
  exists b1 : Browser,
    KeyStorageSession.storeSessionData J key data expiresIn b = (Ok tt, b1)
    /\ is_Some (session_data b1 !! key)
    /\ forall b2 : Browser,
         session_data b2 !! key = session_data b1 !! key ->
         fst (KeyStorageSession.getSessionData J key b2) = Ok None.
Proof.
  intros Ha Hs Hp.
  eexists. split; [apply (storeSessionData_run J _ _ _ _ _ Ha Hs)|].
  cbn [with_session_data session_data]. rewrite lookup_insert_eq.
  split; [eauto|].
  intros b2 Hrec.
  destruct (idb_available (world b2)) eqn:Ha2.
  - rewrite (getSessionData_run J key b2 _ Ha2 Hrec).
    cbn [sess_expiresAt sess_data default from_option id].
    destruct (session_expired _ _); [reflexivity|].
    rewrite Hp. reflexivity.
  - unfold KeyStorageSession.getSessionData, try_catchB, bindB.
    rewrite (openDB_unavailable b2 Ha2). reflexivity.
Qed.

(** X21.  Delete and clear.  With the database open,
    [deleteSessionData] removes the record of its key and no other,
    [clearAllSessionData] removes every session record; after them
    [getSessionData] answers [null]; neither touches a signing key, and
    [clearAllKeys] touches no session record. *)
Theorem deleteSessionData_clearAllSessionData (key : jsstring) (b : Browser) :
  idb_available (world b) = true ->
  exists b1 b2 : Browser,
    KeyStorageSession.deleteSessionData key b = (Ok tt, b1)
    /\ fst (KeyStorageSession.getSessionData J key b1) = Ok None
    /\ (forall other, other <> key ->
          session_data b1 !! other = session_data b !! other)
    /\ KeyStorageSession.clearAllSessionData b = (Ok tt, b2)
    /\ (forall k, fst (KeyStorageSession.getSessionData J k b2) = Ok None)
    /\ signing_keys (world b1) = signing_keys (world b)
    /\ signing_keys (world b2) = signing_keys (world b)
    /\ session_data (snd (in_world KeyStorage.clearAllKeys b))
       = session_data b.
Proof.
  intros Ha.
  exists (with_session_data (delete key) b),
         (with_session_data (fun _ => ∅) b).
  split; [|split; [|split; [|split; [|split]]]].
  - unfold KeyStorageSession.deleteSessionData, try_catchB, bindB.
    rewrite (in_world_pure _ b (Ok tt))
      by (unfold openDB; rewrite Ha; reflexivity).
    reflexivity.
  - apply getSessionData_missing. cbn. apply lookup_delete_eq.
  - intros other Ho. cbn. apply lookup_delete_ne. congruence.
  - unfold KeyStorageSession.clearAllSessionData, try_catchB, bindB.
    rewrite (in_world_pure _ b (Ok tt))
      by (unfold openDB; rewrite Ha; reflexivity).
    reflexivity.
  - intros k. apply getSessionData_missing. cbn. apply lookup_empty.
  - repeat split. unfold in_world.
    destruct (KeyStorage.clearAllKeys (world b)). reflexivity.
Qed.

End SessionProperties.

Section SessionExamples.

(** The value 42, stored at time 5000 to live 1000 milliseconds, read
    at time 6000. *)
Lemma storeSessionData_getSessionData_witness :
  KeyStorageSession.getSessionData IntJson fixture_session_key
    (at_time 6000 (session_browser (Some 1000%Z)))
  = (Ok (Some (Some 42%Z)), at_time 6000 (session_browser (Some 1000%Z))).
Proof.
  destruct (storeSessionData_getSessionData IntJson fixture_session_key
              (Some 42%Z) (Some 42%Z) (Some 1000%Z) (example_browser 0 5000)
              (str "42") eq_refl eq_refl eq_refl)
    as (b1 & Hrun & _ & _ & Hget).
  assert (E : b1 = session_browser (Some 1000%Z))
    by (unfold session_browser; rewrite Hrun; reflexivity).
  subst b1. apply Hget; reflexivity.
Defined.

(** The same record read at time 6001. *)
Lemma getSessionData_expired_witness :
  exists b3 : Browser,
    KeyStorageSession.getSessionData IntJson fixture_session_key
      (at_time 6001 (session_browser (Some 1000%Z)))
    = (Ok None, b3)
    /\ session_data b3 !! fixture_session_key = None.
Proof.
  destruct (getSessionData_expired IntJson fixture_session_key
              (Some 42%Z) (Some 1000%Z) (example_browser 0 5000)
              (Some (str "42")) eq_refl eq_refl)
    as (b1 & Hrun & Hget).
  assert (E : b1 = session_browser (Some 1000%Z))
    by (unfold session_browser; rewrite Hrun; reflexivity).
  subst b1.
  destruct (Hget (at_time 6001 (session_browser (Some 1000%Z)))
              eq_refl eq_refl eq_refl)
    as (b3 & H3 & Hs & _).
  exists b3. split; [exact H3|]. rewrite Hs. apply lookup_delete_eq.
Defined.

(** A time to live of 0: the value is there a million seconds later. *)
Lemma storeSessionData_without_deadline_witness :
  KeyStorageSession.getSessionData IntJson fixture_session_key
    (at_time 1000000000 (session_browser (Some 0%Z)))
  = (Ok (Some (Some 42%Z)), at_time 1000000000 (session_browser (Some 0%Z))).
Proof.
  destruct (storeSessionData_without_deadline IntJson fixture_session_key
              (Some 42%Z) (Some 42%Z) (Some 0%Z) (example_browser 0 5000)
              (str "42") eq_refl eq_refl eq_refl
              (or_intror (or_introl eq_refl)))
    as (b1 & Hrun & Hget).
  assert (E : b1 = session_browser (Some 0%Z))
    by (unfold session_browser; rewrite Hrun; reflexivity).
  subst b1.
  apply (Hget (at_time 1000000000 (session_browser (Some 0%Z))));
    reflexivity.
Defined.

(** The record to live 1000 milliseconds, cleaned up at time 6001. *)
Lemma cleanupExpiredSessions_removes_expired_witness :
  exists b1 : Browser,
    KeyStorageSession.cleanupExpiredSessions
      (at_time 6001 (session_browser (Some 1000%Z))) = (Ok tt, b1)
    /\ session_data b1 !! fixture_session_key = None.
Proof.
  destruct (cleanupExpiredSessions_removes_expired IntJson
              (at_time 6001 (session_browser (Some 1000%Z))) eq_refl)
    as (b1 & Hrun & _ & Hk & _).
  exists b1. split; [exact Hrun|]. rewrite Hk. reflexivity.
Defined.

(** A browser without a database. *)
Lemma session_store_database_unavailable_witness :
  fst (KeyStorageSession.storeSessionData IntJson fixture_session_key
         (Some 42%Z) None (offline_browser 0 5000))
  = Throw (Error "Failed to store session data")
  /\ fst (KeyStorageSession.deleteSessionData fixture_session_key
            (offline_browser 0 5000)) = Ok tt.
Proof.
  destruct (session_store_database_unavailable IntJson fixture_session_key
              (Some 42%Z) None (offline_browser 0 5000) eq_refl)
    as (H1 & _ & H3 & _).
  exact (conj H1 H3).
Defined.

(** The value [undefined]. *)
Lemma storeSessionData_without_text_witness :
  exists b1 : Browser,
    KeyStorageSession.storeSessionData IntJson fixture_session_key None None
      (example_browser 0 5000) = (Ok tt, b1)
    /\ is_Some (session_data b1 !! fixture_session_key)
    /\ fst (KeyStorageSession.getSessionData IntJson fixture_session_key b1)
       = Ok None.
Proof.
  destruct (storeSessionData_without_text IntJson fixture_session_key None
              None (example_browser 0 5000) SyntaxError
              eq_refl eq_refl eq_refl)
    as (b1 & Hrun & Hsome & Hget).
  exists b1. split; [exact Hrun|]. split; [exact Hsome|].
  apply Hget. reflexivity.
Defined.

(** The stored value, deleted. *)
Lemma deleteSessionData_clearAllSessionData_witness :
  exists b1 : Browser,
    KeyStorageSession.deleteSessionData fixture_session_key
      (session_browser None) = (Ok tt, b1)
    /\ fst (KeyStorageSession.getSessionData IntJson fixture_session_key b1)
       = Ok None.
Proof.
  destruct (deleteSessionData_clearAllSessionData IntJson fixture_session_key
              (session_browser None) eq_refl)
    as (b1 & _ & H1 & H2 & _).
  exists b1. split; [exact H1|exact H2].
Defined.

End SessionExamples.

(* ================================================================== *)
(** * 24. Properties of the helpers of the component                    *)
(* ================================================================== *)

Section ComponentProperties.

(** X22.  Derive and store, then load.  When the derivation returns a
    key and the vault works (database open, HKDF and AES-GCM keeping
    their contract at the generated password), [deriveAndStoreKey] sets
    the signing key to the derived key and keeps the generated password
    in [sessionStorage]; afterwards, with that password and that record
    in place, [loadSigningKey] sets the signing key to the same key
    from the vault alone: it does not run the derivation (it completes
    whatever the fuel, none included), draws no random byte and stores
    nothing. *)
Theorem deriveAndStoreKey_loadSigningKey (L : CryptoLib) (fuel : nat)
    (credentialId userId : jsstring) (b : Browser) (k : bytes) :
  KeyDerivation.deriveSigningKey L fuel credentialId userId None = Some k ->
  idb_available (world b) = true ->
  length (encryption_key L (generated_password (world b))
            (drawn (world b) 32 16)) = 32%nat ->
  AeadRoundTrip L
    (encryption_key L (generated_password (world b)) (drawn (world b) 32 16))
    (drawn (world b) 48 12) k ->
  exists b1 : Browser,
    PasskeyAuth.deriveAndStoreKey L fuel credentialId userId b
    = Some (Ok tt, b1)
    /\ signingKey b1 = Some k
    /\ sessionStorage b1 !! PasskeyAuth.password_item credentialId
       = Some (generated_password (world b))
    /\ forall (fuel2 : nat) (b2 : Browser),
         sessionStorage b2 !! PasskeyAuth.password_item credentialId
         = sessionStorage b1 !! PasskeyAuth.password_item credentialId ->
         signing_keys (world b2) !! credentialId
         = signing_keys (world b1) !! credentialId ->
         idb_available (world b2) = true ->
         exists b3 : Browser,
           PasskeyAuth.loadSigningKey L fuel2 credentialId userId b2
           = Some (Ok tt, b3)
           /\ signingKey b3 = Some k
           /\ world b3 = world b2
           /\ sessionStorage b3 = sessionStorage b2.
Proof.
  intros Hk Ha Hlen (ct & Henc & Hdec).
  destruct (deriveAndStoreKey_run L fuel credentialId userId b k ct
              Hk Ha Hlen Henc)
    as (b1 & record & Hrun & Hkey & Hss & _ & Hkeys & _ & Hek & Hiv & Hsalt).
  exists b1. split; [exact Hrun|]. split; [exact Hkey|].
  assert (Hitem : sessionStorage b1 !! PasskeyAuth.password_item credentialId
                  = Some (generated_password (world b)))
    by (rewrite Hss; apply lookup_insert_eq).
  split; [exact Hitem|].
  intros fuel2 b2 Hpw Hrec Ha2. rewrite Hitem in Hpw.
  rewrite Hkeys, lookup_insert_eq in Hrec.
  destruct (generated_password_run (world b)) as [_ Hne].
  pose proof (retrieveKey_success L credentialId
                (generated_password (world b)) (world b2) record _ _ _ k
                Ha2 Hrec Hek Hiv Hsalt Hlen Hdec) as Hget.
  eexists. split.
  - unfold PasskeyAuth.loadSigningKey, try_catchK.
    unfold bindK at 1, finished at 1, sessionStorage_getItem.
    rewrite Hpw.
    destruct (generated_password (world b)) as [|c pw] eqn:Epw;
      [congruence|].
    unfold bindK at 1, finished at 1.
    rewrite (in_world_run _ b2 _ _ Hget).
    reflexivity.
  - repeat split.
Qed.

(** X23.  Load falls back on the derivation.  When [sessionStorage]
    holds no password for the credential (or an empty one), or
    [retrieveKey] answers [null] under the password it holds (no
    record, a record of another password, a record that does not
    decode), [loadSigningKey] derives the key again: with the vault
    working, the signing key is the derived key, a fresh password is in
    [sessionStorage] and a record is in the store. *)
Theorem loadSigningKey_rederives (L : CryptoLib) (fuel : nat)
    (credentialId userId : jsstring) (b : Browser) (k ct : bytes) :
  KeyDerivation.deriveSigningKey L fuel credentialId userId None = Some k ->
  idb_available (world b) = true ->
  sessionStorage b !! PasskeyAuth.password_item credentialId = None
  \/ sessionStorage b !! PasskeyAuth.password_item credentialId
     = Some ([] : jsstring)
  \/ (exists password : jsstring,
        sessionStorage b !! PasskeyAuth.password_item credentialId
        = Some password
        /\ fst (KeyStorage.retrieveKey L credentialId password (world b))
           = Ok None) ->
  length (encryption_key L (generated_password (world b))
            (drawn (world b) 32 16)) = 32%nat ->
  aes_gcm_encrypt L
    (encryption_key L (generated_password (world b)) (drawn (world b) 32 16))
    (drawn (world b) 48 12) k = Ok ct ->
  exists b1 : Browser,
    PasskeyAuth.loadSigningKey L fuel credentialId userId b = Some (Ok tt, b1)
    /\ signingKey b1 = Some k
    /\ sessionStorage b1 !! PasskeyAuth.password_item credentialId
       = Some (generated_password (world b))
    /\ is_Some (signing_keys (world b1) !! credentialId).
Proof.
  intros Hk Ha Hcase Hlen Henc.
  destruct (deriveAndStoreKey_run L fuel credentialId userId b k ct
              Hk Ha Hlen Henc)
    as (b1 & record & Hrun & Hkey & Hss & _ & Hkeys & _).
  assert (Hload : forall r0 b0,
            PasskeyAuth.deriveAndStoreKey L fuel credentialId userId b0
            = Some (Ok tt, r0) ->
            try_catchK
              (PasskeyAuth.deriveAndStoreKey L fuel credentialId userId)
              (fun err =>
                 bindK
                   (finished
                      (in_world
                         (console_error (str "Error loading signing key:")
                            err)))
                   (fun _ =>
                      finished (throwB (Error "Failed to load signing key"))))
              b0
            = Some (Ok tt, r0)).
  { intros r0 b0 H0. unfold try_catchK. rewrite H0. reflexivity. }
  assert (Hb1 : signingKey b1 = Some k
                /\ sessionStorage b1 !! PasskeyAuth.password_item credentialId
                   = Some (generated_password (world b))
                /\ is_Some (signing_keys (world b1) !! credentialId)).
  { split; [exact Hkey|]. rewrite Hss, Hkeys, !lookup_insert_eq. eauto. }
  destruct (sessionStorage b !! PasskeyAuth.password_item credentialId)
    as [[|c pw]|] eqn:Hitem.
  - exists b1. split; [|exact Hb1].
    rewrite <- (Hload b1 b Hrun).
    unfold PasskeyAuth.loadSigningKey, try_catchK.
    unfold bindK at 1, finished at 1, sessionStorage_getItem.
    rewrite Hitem. reflexivity.
  - destruct Hcase as [Hc|[Hc|(password & Hc & Hnull)]];
      [discriminate|discriminate|].
    injection Hc as <-.
    destruct (KeyStorage.retrieveKey L credentialId (c :: pw) (world b))
      as [r w'] eqn:Hget.
    cbn [fst] in Hnull. subst r.
    pose proof (retrieveKey_read_only L credentialId (c :: pw) (world b))
      as (Hrs & _ & Hidb & Hsk).
    rewrite Hget in Hrs, Hidb, Hsk. cbn [snd] in Hrs, Hidb, Hsk.
    assert (Hpw' : generated_password w' = generated_password (world b))
      by (apply generated_password_same_source, Hrs).
    destruct (deriveAndStoreKey_run L fuel credentialId userId
                (set_world w' b) k ct Hk)
      as (b1' & record' & Hrun' & Hkey' & Hss' & _ & Hkeys' & _).
    { cbn [set_world world]. rewrite Hidb. exact Ha. }
    { cbn [set_world world].
      rewrite Hpw', (drawn_same_source _ _ _ _ Hrs). exact Hlen. }
    { cbn [set_world world].
      rewrite Hpw', !(drawn_same_source _ _ _ _ Hrs). exact Henc. }
    exists b1'. split.
    + rewrite <- (Hload b1' _ Hrun').
      unfold PasskeyAuth.loadSigningKey, try_catchK.
      unfold bindK at 1, finished at 1, sessionStorage_getItem.
      rewrite Hitem.
      unfold bindK at 1, finished at 1.
      rewrite (in_world_run _ b _ _ Hget). reflexivity.
    + split; [exact Hkey'|]. rewrite Hss', Hkeys'.
      cbn [set_world sessionStorage world].
      rewrite Hpw', !lookup_insert_eq. eauto.
  - exists b1. split; [|exact Hb1].
    rewrite <- (Hload b1 b Hrun).
    unfold PasskeyAuth.loadSigningKey, try_catchK.
    unfold bindK at 1, finished at 1, sessionStorage_getItem.
    rewrite Hitem. reflexivity.
Qed.

(** X24.  Without a database the helpers fail as a whole:
    [deriveAndStoreKey] throws [Failed to derive signing key] and
    [loadSigningKey] throws [Failed to load signing key], whatever
    [sessionStorage] holds; neither sets the signing key, and no
    password is written (the password is kept only after the record is
    stored). *)
Theorem passkey_helpers_database_unavailable (L : CryptoLib) (fuel : nat)
    (credentialId userId : jsstring) (b : Browser) (k : bytes) :
  KeyDerivation.deriveSigningKey L fuel credentialId userId None = Some k ->
  idb_available (world b) = false ->
  exists b1 b2 : Browser,
    PasskeyAuth.deriveAndStoreKey L fuel credentialId userId b
    = Some (Throw (Error "Failed to derive signing key"), b1)
    /\ signingKey b1 = signingKey b
    /\ sessionStorage b1 = sessionStorage b
    /\ PasskeyAuth.loadSigningKey L fuel credentialId userId b
       = Some (Throw (Error "Failed to load signing key"), b2)
    /\ signingKey b2 = signingKey b
    /\ sessionStorage b2 = sessionStorage b.
Proof.
  intros Hk Ha.
  destruct (deriveAndStoreKey_unavailable L fuel credentialId userId b k
              Hk Ha)
    as (b1 & Hrun & Hkey & Hss & _).
  exists b1.
  assert (Hload : forall b0 : Browser,
            idb_available (world b0) = false ->
            signingKey b0 = signingKey b ->
            sessionStorage b0 = sessionStorage b ->
            exists b2 : Browser,
              try_catchK
                (PasskeyAuth.deriveAndStoreKey L fuel credentialId userId)
                (fun err =>
                   bindK
                     (finished
                        (in_world
                           (console_error (str "Error loading signing key:")
                              err)))
                     (fun _ =>
                        finished
                          (throwB (Error "Failed to load signing key"))))
                b0
              = Some (Throw (Error "Failed to load signing key"), b2)
              /\ signingKey b2 = signingKey b
              /\ sessionStorage b2 = sessionStorage b).
  { intros b0 Ha0 Hk0 Hs0.
    destruct (deriveAndStoreKey_unavailable L fuel credentialId userId b0 k
                Hk Ha0)
      as (b0' & Hrun0 & Hkey0 & Hss0 & _).
    unfold try_catchK. rewrite Hrun0.
    eexists. split; [reflexivity|].
    split; [exact (eq_trans Hkey0 Hk0)|exact (eq_trans Hss0 Hs0)]. }
  destruct (sessionStorage b !! PasskeyAuth.password_item credentialId)
    as [[|c pw]|] eqn:Hitem.
  - destruct (Hload b Ha eq_refl eq_refl) as (b2 & H2 & Hk2 & Hs2).
    exists b2. split; [exact Hrun|]. split; [exact Hkey|].
    split; [exact Hss|]. split; [|split; [exact Hk2|exact Hs2]].
    rewrite <- H2. unfold PasskeyAuth.loadSigningKey, try_catchK.
    unfold bindK at 1, finished at 1, sessionStorage_getItem.
    rewrite Hitem. reflexivity.
  - destruct (retrieveKey_unavailable L credentialId (c :: pw) (world b) Ha)
      as (w' & Hget & Ha').
    destruct (Hload (set_world w' b) Ha' eq_refl eq_refl)
      as (b2 & H2 & Hk2 & Hs2).
    exists b2. split; [exact Hrun|]. split; [exact Hkey|].
    split; [exact Hss|]. split; [|split; [exact Hk2|exact Hs2]].
    rewrite <- H2. unfold PasskeyAuth.loadSigningKey, try_catchK.
    unfold bindK at 1, finished at 1, sessionStorage_getItem.
    rewrite Hitem.
    unfold bindK at 1, finished at 1.
    rewrite (in_world_run _ b _ _ Hget). reflexivity.
  - destruct (Hload b Ha eq_refl eq_refl) as (b2 & H2 & Hk2 & Hs2).
    exists b2. split; [exact Hrun|]. split; [exact Hkey|].
    split; [exact Hss|]. split; [|split; [exact Hk2|exact Hs2]].
    rewrite <- H2. unfold PasskeyAuth.loadSigningKey, try_catchK.
    unfold bindK at 1, finished at 1, sessionStorage_getItem.
    rewrite Hitem. reflexivity.
Qed.

End ComponentProperties.

Section ComponentExamples.

(** The fixture identifiers in a fresh browser: derive and store, then
    load without fuel. *)
Lemma deriveAndStoreKey_loadSigningKey_witness :
  exists b1 b3 : Browser,
    PasskeyAuth.deriveAndStoreKey RefLib 1 fixture_credentialId
      fixture_userId (example_browser 7 0) = Some (Ok tt, b1)
    /\ signingKey b1 = Some fixture_key
    /\ PasskeyAuth.loadSigningKey RefLib 0 fixture_credentialId
         fixture_userId b1 = Some (Ok tt, b3)
    /\ signingKey b3 = Some fixture_key.
Proof.
  destruct (deriveAndStoreKey_loadSigningKey RefLib 1 fixture_credentialId
              fixture_userId (example_browser 7 0) fixture_key)
    as (b1 & Hrun & Hk & _ & Hload).
  - vm_compute. reflexivity.
  - reflexivity.
  - vm_compute. reflexivity.
  - exists (match aes_gcm_encrypt RefLib
                    (encryption_key RefLib
                       (generated_password (world (example_browser 7 0)))
                       (drawn (world (example_browser 7 0)) 32 16))
                    (drawn (world (example_browser 7 0)) 48 12)
                    fixture_key with
            | Ok ct => ct
            | Throw _ => []
            end).
    apply conj; vm_compute; reflexivity.
  - assert (E : b1 = match PasskeyAuth.deriveAndStoreKey RefLib 1
                             fixture_credentialId fixture_userId
                             (example_browser 7 0) with
                     | Some (_, b') => b'
                     | None => example_browser 7 0
                     end)
      by (rewrite Hrun; reflexivity).
    destruct (Hload 0%nat b1 eq_refl eq_refl) as (b3 & H3 & Hk3 & _).
    { rewrite E. vm_compute. reflexivity. }
    exists b1, b3. auto.
Defined.

(** A fresh browser: nothing in [sessionStorage], nothing stored. *)
Lemma loadSigningKey_rederives_witness :
  exists b1 : Browser,
    PasskeyAuth.loadSigningKey RefLib 1 fixture_credentialId fixture_userId
      (example_browser 7 0) = Some (Ok tt, b1)
    /\ signingKey b1 = Some fixture_key.
Proof.
  destruct (loadSigningKey_rederives RefLib 1 fixture_credentialId
              fixture_userId (example_browser 7 0) fixture_key
              (match aes_gcm_encrypt RefLib
                       (encryption_key RefLib
                          (generated_password (world (example_browser 7 0)))
                          (drawn (world (example_browser 7 0)) 32 16))
                       (drawn (world (example_browser 7 0)) 48 12)
                       fixture_key with
               | Ok ct => ct
               | Throw _ => []
               end))
    as (b1 & Hrun & Hk & _).
  - vm_compute. reflexivity.
  - reflexivity.
  - left. reflexivity.
  - vm_compute. reflexivity.
  - vm_compute. reflexivity.
  - exists b1. auto.
Defined.

(** A browser without a database. *)
Lemma passkey_helpers_database_unavailable_witness :
  exists b1 b2 : Browser,
    PasskeyAuth.deriveAndStoreKey RefLib 1 fixture_credentialId
      fixture_userId (offline_browser 7 0)
    = Some (Throw (Error "Failed to derive signing key"), b1)
    /\ PasskeyAuth.loadSigningKey RefLib 1 fixture_credentialId
         fixture_userId (offline_browser 7 0)
       = Some (Throw (Error "Failed to load signing key"), b2).
Proof.
  destruct (passkey_helpers_database_unavailable RefLib 1
              fixture_credentialId fixture_userId (offline_browser 7 0)
              fixture_key)
    as (b1 & b2 & H1 & _ & _ & H2 & _).
  - vm_compute. reflexivity.
  - reflexivity.
  - exists b1, b2. auto.
Defined.

End ComponentExamples.

(* ================================================================== *)
(** * 25. Properties of the server routes                               *)
(* ================================================================== *)

Section ServerProperties.

(** X25.  The transports of a credential, stored as text at
    registration and read back at authentication: for lists of names
    (not empty, no comma), what is read back is the list the
    verification reported when that list is not empty, otherwise the
    list of the browser's response, otherwise (both lists absent or
    empty) the empty list, and never a list with an empty name in
    it. *)
Theorem transports_round_trip (verifiedTransports responseTransports
                               : option (list jsstring)) :
  Forall is_transport_name (default [] verifiedTransports) ->
  Forall is_transport_name (default [] responseTransports) ->
  AuthenticateOptions.transports
    (RegisterVerify.transports verifiedTransports responseTransports)
  = match verifiedTransports with
    | Some (t :: ts) => t :: ts
    | _ => default [] responseTransports
    end.
Proof.
  intros Hv Hr.
  assert (Hjoin : forall ts : list jsstring,
            Forall is_transport_name ts ->
            (ts = [] /\ join (str ",") ts = [])
            \/ (exists c s, ts <> [] /\ join (str ",") ts = c :: s)).
  { intros ts Hall. destruct ts as [|t ts]; [left; auto|right].
    destruct (join (str ",") (t :: ts)) as [|c s] eqn:E.
    - exfalso. apply (join_not_empty (t :: ts)); [congruence|exact Hall|exact E].
    - exists c, s. split; [congruence|reflexivity]. }
  assert (Hresp :
    AuthenticateOptions.transports
      (default []
         (or_else (option_map (join (str ",")) responseTransports) (Some [])))
    = default [] responseTransports).
  { destruct responseTransports as [rs|]; [|reflexivity].
    cbn [option_map default from_option id] in *.
    destruct (Hjoin rs Hr) as [[-> E]|(c & s & _ & E)].
    - reflexivity.
    - unfold or_else. rewrite E. cbn [default from_option id].
      rewrite <- E. apply transports_of_join, Hr. }
  unfold RegisterVerify.transports.
  destruct verifiedTransports as [vs|]; [|exact Hresp].
  cbn [option_map default from_option id] in *.
  destruct (Hjoin vs Hv) as [[-> E]|(c & s & Hne & E)].
  - exact Hresp.
  - unfold or_else at 2. rewrite E. unfold or_else.
    cbn [default from_option id]. rewrite <- E.
    rewrite (transports_of_join vs Hv).
    destruct vs; [congruence|reflexivity].
Qed.

(** A platform authenticator that reports [internal] and [hybrid]. *)
Lemma transports_round_trip_witness :
  AuthenticateOptions.transports
    (RegisterVerify.transports (Some [str "internal"; str "hybrid"]) None)
  = [str "internal"; str "hybrid"].
Proof.
  apply (transports_round_trip (Some [str "internal"; str "hybrid"]) None).
  - repeat constructor; vm_compute; intuition discriminate.
  - constructor.
Defined.

End ServerProperties.
